(** * X-Post-Planner: the scheduling-and-dispatch engine

    A shallow embedding of the scheduler of [server.js] (SQLite store, tiered
    rate limits, idempotency set, one tick per minute) and of the scheduler
    of [app.js], followed by the properties proved about them.

    Conventions.
    - Instants are integers: milliseconds since the epoch, as [Date#getTime].
    - A row of a table is the JS object [db.all] / [db.get] hands back: a
      finite map from column names to values.
    - The text [new Date(t).toISOString()] is the value [VDate t]; it always
      ends in [Z], so reading it back with [new Date] gives [t] again.
    - The store is assumed to answer (no I/O failure), except where the
      statement that the code sends is itself refused by SQLite.
    - [Server.run] follows a process in which no two calls overlap: each
      tick and each API handler runs to its end before the next starts.
      The timers of [startServer] do not guarantee that; [Overlap] follows
      calls of [runScheduler] that are under way at the same time. *)

From stdpp Require Import gmap strings list fin_maps.
From Stdlib Require Import ZArith Lia Ascii.

Open Scope Z_scope.

(** ** JavaScript values held in rows and update objects *)

Inductive Value :=
  | VNull
  | VNum (n : Z)
  | VStr (s : string)
  | VDate (t : Z).

#[global] Instance Value_eq_dec : EqDecision Value.
Proof. solve_decision. Defined.

Abbreviation Row := (gmap string Value).

(** [obj.key] on a row; a missing key reads as [undefined], merged with
    [null] here. *)
Definition field (key : string) (obj : Row) : Value :=
  default VNull (obj !! key).

(** How a call ends: it returns, or it throws. *)
Inductive Completion (A : Type) :=
  | Returns (a : A)
  | Throws.

Arguments Returns {A} a.
Arguments Throws {A}.

(** ** app.js *)

Module App.

Definition RATE_LIMIT_BACKOFF_BASE : Z := 1000.
Definition MAX_RETRIES : Z := 5.

(** [Math.min(baseDelay * Math.pow(2, attempt), 300000)].  For an attempt
    number [k >= 0] every intermediate value is an integer that a double
    holds exactly, or is so large (up to [Infinity]) that the minimum is the
    cap; integer arithmetic gives the same result. *)
Definition calculateBackoffDelay (attempt : Z) (baseDelay : Z) : Z :=
  Z.min (baseDelay * 2 ^ attempt) 300000.

(** The catch block of [postTweet]: [statusCode] is [error.code ||
    error.statusCode], absent when the error carries neither. *)
Definition isRateLimit (statusCode : option Z) : bool :=
  match statusCode with Some c => c =? 429 | None => false end.

Definition isRetryable (statusCode : option Z) : bool :=
  match statusCode with Some c => (500 <=? c) || isRateLimit statusCode | None => false end.

(** The delay slept before the recursive call, when there is one. *)
Definition retryDelay (statusCode : option Z) (attempt : Z) : option Z :=
  if isRetryable statusCode && (attempt <? MAX_RETRIES)
  then Some (if isRateLimit statusCode
             then calculateBackoffDelay attempt RATE_LIMIT_BACKOFF_BASE
             else calculateBackoffDelay attempt 5000)
  else None.

End App.

(** ** server.js *)

Module Server.

(** *** Configuration *)

Definition TWEET_DAILY_LIMIT : Z := 150.
Definition TWEET_HOURLY_LIMIT : Z := 25.
Definition TWEET_MINUTE_LIMIT : Z := 3.

(** A field of [req.body], as [express.json] hands it over; [BUndefined]
    is a field that is absent.  What an object holds makes no difference
    to the handlers, and a number with a fraction is handled as a non-zero
    integer is (JSON has no [NaN]). *)
#[warnings="-register-all"]
Inductive Body :=
  | BUndefined
  | BNull
  | BBool (b : bool)
  | BNum (n : Z)
  | BStr (s : string)
  | BArray (items : list Body)
  | BObject.

(** What the process is started with.  [generateContentHash] is the SHA-256
    hex digest of the text; [Date_parse] is the JS [Date] constructor on a
    text ([None] for an invalid date); [tzOffset] is the offset of the
    process's local time from UTC, in minutes; [String_trim] is
    [String.prototype.trim] and [Array_toString] is
    [Array.prototype.toString]. *)
Record Config := {
  DRY_RUN : bool;
  twitterClient : bool;
  generateContentHash : string -> string;
  Date_parse : string -> option Z;
  tzOffset : Z;
  String_trim : string -> string;
  Array_toString : list Body -> string
}.

(** *** Bucket keys

    [today] is the UTC calendar date of [now] ([toISOString] up to the [T]),
    [currentHour] appends the two-digit local hour and [currentMinute] the
    two-digit local minute.  A key is kept as the list of the numbers its
    text spells: day number, hour, minute. *)

Abbreviation BucketKey := (list Z).

Definition getHours (cfg : Config) (now : Z) : Z :=
  ((now + tzOffset cfg * 60000) / 3600000) mod 24.

Definition getMinutes (cfg : Config) (now : Z) : Z :=
  ((now + tzOffset cfg * 60000) / 60000) mod 60.

Definition today (now : Z) : BucketKey := [now / 86400000].

Definition currentHour (cfg : Config) (now : Z) : BucketKey :=
  today now ++ [getHours cfg now].

Definition currentMinute (cfg : Config) (now : Z) : BucketKey :=
  currentHour cfg now ++ [getMinutes cfg now].

(** *** The in-memory limiter (rate-limiter-flexible, [RateLimiterMemory])

    Only the key ['user'] is ever used, so the store of a limiter is one
    optional record: the points consumed in the open window and the instant
    the window expires.  [duration] is in seconds, as in the constructor. *)

Record RateLimiterMemory := {
  points : Z;
  duration : Z;
  storage : option (Z * Z)
}.

Record RateLimiterRes := {
  msBeforeNext : Z;
  consumedPoints : Z
}.

(** [limiter.get('user')]: the record of the open window, if any.  The
    record is deleted by a timer when the window expires. *)
Definition get (now : Z) (l : RateLimiterMemory) : option RateLimiterRes :=
  match storage l with
  | Some (value, expiresAt) =>
      if now <? expiresAt
      then Some {| msBeforeNext := expiresAt - now; consumedPoints := value |}
      else None
  | None => None
  end.

(** [limiter.consume('user', 1)]: the point is added to the open window, or
    opens a new one; the promise is rejected when the total then exceeds
    [points].  The point stays consumed in both cases. *)
Definition consume (now : Z) (l : RateLimiterMemory)
  : RateLimiterMemory * RateLimiterRes * bool :=
  let res :=
    match get now l with
    | Some r => {| msBeforeNext := msBeforeNext r; consumedPoints := consumedPoints r + 1 |}
    | None => {| msBeforeNext := duration l * 1000; consumedPoints := 1 |}
    end in
  ({| points := points l; duration := duration l;
      storage := Some (consumedPoints res, now + msBeforeNext res) |},
   res,
   consumedPoints res <=? points l).

(** *** Process state: the two tables, the idempotency cache, the limiters *)

Record State := {
  tweets : list Row;
  rate_limits : gmap (string * BucketKey) Z;
  postedHashes : gset string;
  dailyLimiter : RateLimiterMemory;
  hourlyLimiter : RateLimiterMemory;
  minuteLimiter : RateLimiterMemory
}.

Definition set_tweets (rows : list Row) (st : State) : State :=
  {| tweets := rows; rate_limits := rate_limits st; postedHashes := postedHashes st;
     dailyLimiter := dailyLimiter st; hourlyLimiter := hourlyLimiter st;
     minuteLimiter := minuteLimiter st |}.

Definition set_rate_limits (m : gmap (string * BucketKey) Z) (st : State) : State :=
  {| tweets := tweets st; rate_limits := m; postedHashes := postedHashes st;
     dailyLimiter := dailyLimiter st; hourlyLimiter := hourlyLimiter st;
     minuteLimiter := minuteLimiter st |}.

Definition set_postedHashes (s : gset string) (st : State) : State :=
  {| tweets := tweets st; rate_limits := rate_limits st; postedHashes := s;
     dailyLimiter := dailyLimiter st; hourlyLimiter := hourlyLimiter st;
     minuteLimiter := minuteLimiter st |}.

Definition set_limiters (d h m : RateLimiterMemory) (st : State) : State :=
  {| tweets := tweets st; rate_limits := rate_limits st; postedHashes := postedHashes st;
     dailyLimiter := d; hourlyLimiter := h; minuteLimiter := m |}.

(** *** The rate_limits table *)

(** [SELECT used FROM rate_limits WHERE period = ? AND date = ?], 0 when
    there is no row. *)
Definition getRateLimitUsage (period : string) (date : BucketKey) (st : State) : Z :=
  default 0 (rate_limits st !! (period, date)).

(** [INSERT OR REPLACE ... COALESCE((SELECT used ...), 0) + ?], with the
    default [used = 1]. *)
Definition updateRateLimitUsage (period : string) (date : BucketKey) (st : State) : State :=
  set_rate_limits
    (<[(period, date) := getRateLimitUsage period date st + 1]> (rate_limits st)) st.

(** [initializeRateLimiters]: each limiter starts with the points the
    current bucket has left. *)
Definition initializeRateLimiters (cfg : Config) (now : Z) (st : State) : State :=
  let dailyUsed := getRateLimitUsage "daily" (today now) st in
  let hourlyUsed := getRateLimitUsage "hourly" (currentHour cfg now) st in
  let minuteUsed := getRateLimitUsage "minute" (currentMinute cfg now) st in
  set_limiters
    {| points := Z.max 0 (TWEET_DAILY_LIMIT - dailyUsed); duration := 24 * 60 * 60; storage := None |}
    {| points := Z.max 0 (TWEET_HOURLY_LIMIT - hourlyUsed); duration := 60 * 60; storage := None |}
    {| points := Z.max 0 (TWEET_MINUTE_LIMIT - minuteUsed); duration := 60; storage := None |}
    st.

(** *** The tweets table *)

(** The columns of [CREATE TABLE IF NOT EXISTS tweets]. *)
Definition tweets_columns : list string :=
  ["id"; "text"; "runAt"; "status"; "attempts"; "createdAt"; "updatedAt";
   "postedAt"; "tweetId"; "error"; "failedAt"].

(** A JS object built by assignments, in the order of the assignments. *)
Abbreviation Updates := (list (string * Value)).

Definition assign (updates : Updates) (obj : Row) : Row :=
  foldl (fun o kv => <[kv.1 := kv.2]> o) obj updates.

(** [tweet.text], a [TEXT NOT NULL] column. *)
Definition text_of (tweet : Row) : string :=
  match field "text" tweet with VStr s => s | _ => "" end.

(** [tweet.attempts], an [INTEGER DEFAULT 0] column. *)
Definition attempts_of (tweet : Row) : Z :=
  match field "attempts" tweet with VNum n => n | _ => 0 end.

(** [WHERE id = ?]: SQL equality, which a [NULL] never satisfies. *)
Definition id_matches (id : Value) (row : Row) : bool :=
  bool_decide (id ≠ VNull) && bool_decide (field "id" row = id).

(** [ORDER BY runAt ASC].  SQLite compares the texts.  The ISO texts of two
    instants of the years 0000 to 9999 compare as the instants do, and the
    order is modelled for those: where text ordering puts a row with
    another [runAt] (an instant outside these years, some other text) is
    not modelled, and every statement that depends on the order assumes
    instants of these years. *)
Definition runAt_le (a b : Row) : bool :=
  match field "runAt" a, field "runAt" b with
  | VDate x, VDate y => x <=? y
  | _, _ => true
  end.

Fixpoint insert_by_runAt (row : Row) (rows : list Row) : list Row :=
  match rows with
  | [] => [row]
  | x :: rest => if runAt_le row x then row :: rows else x :: insert_by_runAt row rest
  end.

Definition loadTweets (st : State) : list Row :=
  foldr insert_by_runAt [] (tweets st).

(** [updateTweet(id, updates)] sends
    [UPDATE tweets SET k1 = ?, ..., updatedAt = ? WHERE id = ?] with one
    [k = ?] per key of [updates] other than [id].  SQLite refuses the
    statement when a key is not a column of the table (or when no key is
    left, which leaves [SET , updatedAt = ?]); the callback then gets the
    error, the promise resolves to [false] and no row is written.  [stamp]
    is the clock read for [updatedAt].  The keys are those the callers in
    [server.js] build, spelled as the columns are; how SQLite reads any
    other text put in the place of a column name is not modelled. *)
Definition updateTweet (id : Value) (updates : Updates) (stamp : Z) (st : State)
  : bool * State :=
  let fields := List.filter (fun kv => negb (String.eqb kv.1 "id")) updates in
  if forallb (fun kv => bool_decide (kv.1 ∈ tweets_columns)) fields
     && negb (bool_decide (fields = []))
  then (true,
        set_tweets
          (map (fun row => if id_matches id row
                           then <["updatedAt" := VDate stamp]> (assign fields row)
                           else row)
               (tweets st)) st)
  else (false, st).

(** [saveTweet(tweet)]: [INSERT OR REPLACE] of all eleven columns; a row
    with the same primary key is replaced. *)
Definition saveTweet (tweet : Row) (stamp : Z) (st : State) : bool * State :=
  let or_now (v : Value) := match v with VNull => VDate stamp | _ => v end in
  let row : Row :=
    list_to_map
      (map (fun c =>
              (c, if bool_decide (c = "createdAt") || bool_decide (c = "updatedAt")
                  then or_now (field c tweet) else field c tweet))
           tweets_columns) in
  (true,
   set_tweets (List.filter (fun r => negb (id_matches (field "id" tweet) r)) (tweets st)
               ++ [row]) st).

(** [deleteTweet(id)]. *)
Definition deleteTweet (id : Value) (st : State) : bool * State :=
  (true, set_tweets (List.filter (fun r => negb (id_matches id r)) (tweets st)) st).

(** *** Dates *)

Fixpoint includes (c : Ascii.ascii) (s : string) : bool :=
  match s with
  | EmptyString => false
  | String x rest => bool_decide (x = c) || includes c rest
  end.

(** [parseScheduledDate(dateString)] on the [runAt] of a row, a [TEXT]
    column.  A text with an offset or a [Z] goes to [new Date] as it is,
    any other text is read as Istanbul time.  The ISO text of an instant
    has a [Z]. *)
Definition parseScheduledDate (cfg : Config) (dateString : Value) : option Z :=
  match dateString with
  | VNull => None
  | VNum _ => None
  | VDate t => Some t
  | VStr s =>
      if bool_decide (s = "") then None
      else if includes "+"%char s || includes "Z"%char s then Date_parse cfg s
      else Date_parse cfg (s +:+ ":00+03:00")
  end.

(** *** Request bodies *)

(** [!value]. *)
Definition falsy (value : Body) : bool :=
  match value with
  | BUndefined | BNull | BBool false | BNum 0 | BStr "" => true
  | _ => false
  end.

(** [dateString.includes(c)] on an array: an element is the text [c]. *)
Definition array_includes (c : string) (items : list Body) : bool :=
  existsb (fun item => match item with BStr s => String.eqb s c | _ => false end) items.

(** [parseScheduledDate(dateString)] on a field of the body.  A boolean,
    a number or an object has no [includes], and the call throws; an
    array has one, and goes to [new Date] and to [+] as the text
    [Array.prototype.toString] makes of it. *)
Definition parseScheduledDate_body (cfg : Config) (dateString : Body)
  : Completion (option Z) :=
  if falsy dateString then Returns None
  else
    match dateString with
    | BStr s => Returns (parseScheduledDate cfg (VStr s))
    | BArray items =>
        let text := Array_toString cfg items in
        if array_includes "+" items || array_includes "Z" items
        then Returns (Date_parse cfg text)
        else Returns (Date_parse cfg (text +:+ ":00+03:00"))
    | _ => Throws
    end.

(** [text.trim()]: only a text has the method. *)
Definition trim (cfg : Config) (text : Body) : Completion string :=
  match text with
  | BStr s => Returns (String_trim cfg s)
  | _ => Throws
  end.

(** *** checkRateLimits: the snapshot served by /api/rate-limits *)






(** *** postTweet *)

(** What [twitterClient.v2.tweet] does for one call: it resolves with
    [response.data.id], resolves without [data], or rejects with an error
    carrying [message]. *)
Inductive TweetResponse :=
  | ResponseData (id : string)
  | ResponseNoData
  | ResponseError (message : string).

(** What the outside supplies while one due tweet is handled: the clock
    read by [postTweet] (and by the limiters), the behaviour of the client,
    and the clock read by [updateTweet] for [updatedAt]. *)
Record Call := {
  clock : Z;
  response : TweetResponse;
  stamp : Z
}.

(** The values [postTweet] returns, one constructor per [return]:
    [{success: false, duplicate: true}],
    [{success: false, rateLimit: true, message}] (no [resetTime]) or, from
    the catch block, the same with [resetTime],
    [{success: true, dryRun: true}], [{success: true, data}],
    [{success: false, error}], and [undefined] when the function runs off
    its end (a response without [data]). *)
Inductive PostResult :=
  | Duplicate
  | RateLimit (resetTime : option Z)
  | DryRunOk
  | Posted (id : string)
  | Failure (error : string)
  | Undefined.

#[global] Instance PostResult_eq_dec : EqDecision PostResult.
Proof. solve_decision. Defined.

Definition postTweet (cfg : Config) (call : Call) (tweetData : Row) (st : State)
  : State * PostResult :=
  let contentHash := generateContentHash cfg (text_of tweetData) in
  if bool_decide (contentHash ∈ postedHashes st) then (st, Duplicate)
  else
    let now := clock call in
    let dailyUsed := getRateLimitUsage "daily" (today now) st in
    let hourlyUsed := getRateLimitUsage "hourly" (currentHour cfg now) st in
    let minuteUsed := getRateLimitUsage "minute" (currentMinute cfg now) st in
    if TWEET_DAILY_LIMIT <=? dailyUsed then (st, RateLimit None)
    else if TWEET_HOURLY_LIMIT <=? hourlyUsed then (st, RateLimit None)
    else if TWEET_MINUTE_LIMIT <=? minuteUsed then (st, RateLimit None)
    else
      (* Promise.all starts the three consume calls; the first rejection
         in array order is what the catch block receives. *)
      let '(d, dres, dok) := consume now (dailyLimiter st) in
      let '(h, hres, hok) := consume now (hourlyLimiter st) in
      let '(m, mres, mok) := consume now (minuteLimiter st) in
      let st1 := set_limiters d h m st in
      if negb dok then (st1, RateLimit (Some (msBeforeNext dres)))
      else if negb hok then (st1, RateLimit (Some (msBeforeNext hres)))
      else if negb mok then (st1, RateLimit (Some (msBeforeNext mres)))
      else
        let st2 :=
          updateRateLimitUsage "minute" (currentMinute cfg now)
            (updateRateLimitUsage "hourly" (currentHour cfg now)
               (updateRateLimitUsage "daily" (today now) st1)) in
        if DRY_RUN cfg
        then (set_postedHashes ({[contentHash]} ∪ postedHashes st2) st2, DryRunOk)
        else if negb (twitterClient cfg)
        then (st2, Failure "Twitter client not initialized")
        else
          match response call with
          | ResponseData id =>
              (set_postedHashes ({[contentHash]} ∪ postedHashes st2) st2, Posted id)
          | ResponseNoData => (st2, Undefined)
          | ResponseError message => (st2, Failure message)
          end.

(** *** runScheduler *)

(** The filter that selects the due tweets. *)
Definition isDue (cfg : Config) (now : Z) (tweet : Row) : bool :=
  if negb (bool_decide (field "status" tweet = VStr "pending")) then false
  else match parseScheduledDate cfg (field "runAt" tweet) with
       | Some runAt => runAt <=? now
       | None => false
       end.

(** The [updates] object built for one due tweet from the result of
    [postTweet]; [None] when building it throws: reading [result.success]
    of [undefined], or [toISOString] of the invalid date
    [new Date(now.getTime() + undefined)] when a rate-limit result has no
    [resetTime]. *)
Definition schedulerUpdates (now : Z) (tweet : Row) (result : PostResult)
  : option Updates :=
  let updates : Updates := [("attempts", VNum (attempts_of tweet + 1))] in
  match result with
  | Undefined => None
  | DryRunOk =>
      Some (updates ++ [("status", VStr "posted"); ("postedAt", VDate now)])
  | Posted id =>
      Some (updates ++ [("status", VStr "posted"); ("postedAt", VDate now);
                        ("tweetId", VStr id)])
  | Duplicate =>
      Some (updates ++ [("status", VStr "posted"); ("postedAt", VDate now)])
  | RateLimit None => None
  | RateLimit (Some ms) =>
      Some (updates ++ [("nextRetryAt", VDate (now + ms))])
  | Failure error =>
      if 4 <=? attempts_of tweet
      then Some (updates ++ [("status", VStr "failed"); ("error", VStr error);
                             ("failedAt", VDate now)])
      else Some (updates ++ [("nextRetryAt", VDate (now + 5 * 60 * 1000))])
  end.

(** The outcome of a tick: the state it leaves, the tweets it handed to
    [postTweet] with what came back, and whether the loop was left by an
    exception (caught by the [catch] of [runScheduler], which logs
    SCHEDULER_CRASH and returns). *)
Record TickResult := {
  final : State;
  results : list (Row * PostResult);
  crashed : bool
}.

(** [for (const tweet of dueTweets)]; [env i] is what the outside does
    while the [i]-th due tweet is handled. *)
Fixpoint schedulerLoop (cfg : Config) (now : Z) (env : nat -> Call) (i : nat)
    (dueTweets : list Row) (st : State) : TickResult :=
  match dueTweets with
  | [] => {| final := st; results := []; crashed := false |}
  | tweet :: rest =>
      let '(st1, result) := postTweet cfg (env i) tweet st in
      match schedulerUpdates now tweet result with
      | None => {| final := st1; results := [(tweet, result)]; crashed := true |}
      | Some updates =>
          let st2 := (updateTweet (field "id" tweet) updates (stamp (env i)) st1).2 in
          let r := schedulerLoop cfg now env (S i) rest st2 in
          {| final := final r; results := (tweet, result) :: results r;
             crashed := crashed r |}
      end
  end.

Definition dueTweets (cfg : Config) (now : Z) (st : State) : list Row :=
  List.filter (isDue cfg now) (loadTweets st).

Definition runScheduler (cfg : Config) (now : Z) (env : nat -> Call) (st : State)
  : TickResult :=
  schedulerLoop cfg now env 0 (dueTweets cfg now st) st.

(** *** The API handlers that write the tweets table

    Each returns the HTTP status it answers with; an exception in a
    handler is caught by its [catch], which answers 500. *)

(** [app.post('/api/tweets')]; [uuid] is what [uuidv4()] returns. *)
Definition post_api_tweets (cfg : Config) (uuid : string)
    (text dateTime : Body) (stamp : Z) (st : State) : Z * State :=
  if falsy text || falsy dateTime then (400, st)
  else
    match parseScheduledDate_body cfg dateTime with
    | Throws => (500, st)
    | Returns None => (400, st)
    | Returns (Some scheduledDate) =>
        match trim cfg text with
        | Throws => (500, st)
        | Returns trimmed =>
            let newTweet : Row :=
              list_to_map [("id", VStr uuid); ("runAt", VDate scheduledDate);
                           ("text", VStr trimmed); ("status", VStr "pending");
                           ("attempts", VNum 0); ("createdAt", VDate stamp)] in
            let '(ok, st') := saveTweet newTweet stamp st in
            (if ok then 200 else 500, st')
        end
    end.

(** [app.delete('/api/tweets/:id')]. *)
Definition delete_api_tweets (id : string) (st : State) : Z * State :=
  let '(ok, st') := deleteTweet (VStr id) st in
  (if ok then 200 else 404, st').

(** The [updates] object of [app.put('/api/tweets/:id')], when building
    it does not throw. *)
Definition putUpdates (cfg : Config) (text dateTime : Body) : Completion Updates :=
  let fromText : Completion Updates :=
    match text with
    | BUndefined => Returns []
    | _ => match trim cfg text with
           | Returns trimmed => Returns [("text", VStr trimmed)]
           | Throws => Throws
           end
    end in
  match fromText with
  | Throws => Throws
  | Returns updates =>
      if falsy dateTime then Returns updates
      else
        match parseScheduledDate_body cfg dateTime with
        | Throws => Throws
        | Returns (Some scheduledDate) =>
            Returns (updates ++ [("runAt", VDate scheduledDate); ("status", VStr "pending");
                                 ("attempts", VNum 0)])
        | Returns None => Returns updates
        end
  end.

(** [app.put('/api/tweets/:id')]. *)
Definition put_api_tweets (cfg : Config) (id : string)
    (text dateTime : Body) (stamp : Z) (st : State) : Z * State :=
  match putUpdates cfg text dateTime with
  | Throws => (500, st)
  | Returns updates =>
      if bool_decide (updates = []) then (400, st)
      else
        let '(ok, st') := updateTweet (VStr id) updates stamp st in
        (if ok then 200 else 500, st')
  end.

(** *** A process lifetime without overlap

    After start-up the state changes only through scheduler ticks and
    through the three handlers above.  Here each runs to its end before
    the next starts. *)

Inductive Step :=
  | Tick (now : Z) (env : nat -> Call)
  | ApiPost (uuid : string) (text dateTime : Body) (stamp : Z)
  | ApiPut (id : string) (text dateTime : Body) (stamp : Z)
  | ApiDelete (id : string).

(** One step: the new state and the dispatches it made. *)
Definition step (cfg : Config) (s : Step) (st : State)
  : State * list (Row * PostResult) :=
  match s with
  | Tick now env =>
      let r := runScheduler cfg now env st in (final r, results r)
  | ApiPost uuid text dateTime stamp =>
      ((post_api_tweets cfg uuid text dateTime stamp st).2, [])
  | ApiPut id text dateTime stamp =>
      ((put_api_tweets cfg id text dateTime stamp st).2, [])
  | ApiDelete id => ((delete_api_tweets id st).2, [])
  end.

Fixpoint run (cfg : Config) (steps : list Step) (st : State)
  : State * list (Row * PostResult) :=
  match steps with
  | [] => (st, [])
  | s :: rest =>
      let '(st1, log1) := step cfg s st in
      let '(st2, log2) := run cfg rest st1 in
      (st2, log1 ++ log2)
  end.

(** The state the process starts in, over the tables found on disk:
    [postedHashes] is a fresh [Set], the limiters are initialised from the
    current buckets. *)
Definition startServer (cfg : Config) (now : Z) (rows : list Row)
    (ledger : gmap (string * BucketKey) Z) : State :=
  let unset := {| points := 0; duration := 0; storage := None |} in
  initializeRateLimiters cfg now
    {| tweets := rows; rate_limits := ledger; postedHashes := ∅;
       dailyLimiter := unset; hourlyLimiter := unset; minuteLimiter := unset |}.

(** A run of scheduler ticks only. *)
Definition ticks (l : list (Z * (nat -> Call))) : list Step :=
  map (fun p => Tick p.1 p.2) l.

(** *** Notions used in the statements *)

(** The dispatches of a run, in order: the tweet handed to [postTweet] and
    what came back. *)
Abbreviation Log := (list (Row * PostResult)).

(** The fingerprint [postTweet] computes for a tweet. *)
Definition hash_of (cfg : Config) (tweet : Row) : string :=
  generateContentHash cfg (text_of tweet).

(** The dispatch went out, for real or simulated. *)
Definition succeeded (r : PostResult) : bool :=
  match r with DryRunOk | Posted _ => true | _ => false end.

(** The attempt got past the idempotency check, the database check and the
    in-memory consume. *)
Definition passedRateCheck (r : PostResult) : bool :=
  match r with Duplicate | RateLimit _ => false | _ => true end.

(** The scheduler reaches [updateTweet] with keys that are all columns. *)
Definition persists (r : PostResult) : bool :=
  match r with RateLimit _ | Undefined => false | _ => true end.

(** How the idempotency cache relates the dispatches [log] made between
    [st] and [st']. *)
Definition log_ok (cfg : Config) (st : State) (log : Log) (st' : State) : Prop :=
  postedHashes st ⊆ postedHashes st'
  /\ (forall t r, (t, r) ∈ log -> succeeded r = true -> hash_of cfg t ∈ postedHashes st')
  /\ (forall t r, (t, r) ∈ log -> hash_of cfg t ∈ postedHashes st -> r = Duplicate)
  /\ (forall (i j : nat) t1 r1 t2 r2, (i < j)%nat ->
        log !! i = Some (t1, r1) -> log !! j = Some (t2, r2) ->
        succeeded r1 = true -> hash_of cfg t1 = hash_of cfg t2 -> r2 = Duplicate).

(** The table after the three [updateRateLimitUsage] calls of an attempt
    made at [now]. *)
Definition counted (cfg : Config) (now : Z) (st : State) : State :=
  updateRateLimitUsage "minute" (currentMinute cfg now)
    (updateRateLimitUsage "hourly" (currentHour cfg now)
       (updateRateLimitUsage "daily" (today now) st)).

(** Every counter of the rate_limits table is within the limit of its
    period. *)
Definition within_limits (st : State) : Prop :=
  forall date : BucketKey,
    getRateLimitUsage "daily" date st <= TWEET_DAILY_LIMIT
    /\ getRateLimitUsage "hourly" date st <= TWEET_HOURLY_LIMIT
    /\ getRateLimitUsage "minute" date st <= TWEET_MINUTE_LIMIT.

(** [id TEXT PRIMARY KEY]: no two rows share an id (SQLite lets several
    rows have a [NULL] id). *)
Definition unique_ids (rows : list Row) : Prop :=
  NoDup (filter (fun v => v <> VNull) (field "id" <$> rows)).

Definition primary_key (st : State) : Prop := unique_ids (tweets st).


(** The date a body carries, when it has one that parses. *)
Definition scheduledDate (cfg : Config) (dateTime : Body) : option Z :=
  if falsy dateTime then None
  else match parseScheduledDate_body cfg dateTime with
       | Returns date => date
       | Throws => None
       end.




(** The columns of the table a test looks at. *)
Definition summary (st : State) : list (list Value) :=
  map (fun row => [field "id" row; field "status" row; field "attempts" row;
                   field "tweetId" row; field "error" row; field "nextRetryAt" row])
      (tweets st).

End Server.

(** ** server.js: calls of runScheduler under way at the same time

    [startServer] arms two timers, [setTimeout(runScheduler, 1000)] and the
    minute timer with its [setInterval], and nothing keeps a call of
    [runScheduler] from starting while another waits at an [await].  This
    module follows the schedules in which a call gives way at
    [await twitterClient.v2.tweet(...)] and nowhere else: what it reads
    and writes in the database and the limiters before and after completes
    before the next timer or answer is handled.  The event loop admits
    other schedules too; these are enough to show what overlapping calls
    can do. *)

Module Overlap.

Import Server.

(** [postTweet] up to the request: the state when it reaches
    [await twitterClient.v2.tweet(tweetData.text)], with [None], or the
    value it returns before getting there.  [now] is the clock it reads. *)
Definition postTweet_request (cfg : Config) (now : Z) (tweetData : Row) (st : State)
  : State * option PostResult :=
  let contentHash := generateContentHash cfg (text_of tweetData) in
  if bool_decide (contentHash ∈ postedHashes st) then (st, Some Duplicate)
  else
    let dailyUsed := getRateLimitUsage "daily" (today now) st in
    let hourlyUsed := getRateLimitUsage "hourly" (currentHour cfg now) st in
    let minuteUsed := getRateLimitUsage "minute" (currentMinute cfg now) st in
    if TWEET_DAILY_LIMIT <=? dailyUsed then (st, Some (RateLimit None))
    else if TWEET_HOURLY_LIMIT <=? hourlyUsed then (st, Some (RateLimit None))
    else if TWEET_MINUTE_LIMIT <=? minuteUsed then (st, Some (RateLimit None))
    else
      let '(d, dres, dok) := consume now (dailyLimiter st) in
      let '(h, hres, hok) := consume now (hourlyLimiter st) in
      let '(m, mres, mok) := consume now (minuteLimiter st) in
      let st1 := set_limiters d h m st in
      if negb dok then (st1, Some (RateLimit (Some (msBeforeNext dres))))
      else if negb hok then (st1, Some (RateLimit (Some (msBeforeNext hres))))
      else if negb mok then (st1, Some (RateLimit (Some (msBeforeNext mres))))
      else
        let st2 :=
          updateRateLimitUsage "minute" (currentMinute cfg now)
            (updateRateLimitUsage "hourly" (currentHour cfg now)
               (updateRateLimitUsage "daily" (today now) st1)) in
        if DRY_RUN cfg
        then (set_postedHashes ({[contentHash]} ∪ postedHashes st2) st2, Some DryRunOk)
        else if negb (twitterClient cfg)
        then (st2, Some (Failure "Twitter client not initialized"))
        else (st2, None).

(** [postTweet] from the answer of the client on; [st] is the state the
    answer finds. *)
Definition postTweet_answer (cfg : Config) (tweetData : Row) (response : TweetResponse)
    (st : State) : State * PostResult :=
  let contentHash := generateContentHash cfg (text_of tweetData) in
  match response with
  | ResponseData id =>
      (set_postedHashes ({[contentHash]} ∪ postedHashes st) st, Posted id)
  | ResponseNoData => (st, Undefined)
  | ResponseError message => (st, Failure message)
  end.

(** A call of [runScheduler] that waits for the client: its [now], what
    the outside does for it, the index of the due tweet it is handling,
    that tweet as it was loaded, and the due tweets that follow. *)
Record Waiting := {
  w_now : Z;
  w_env : nat -> Call;
  w_index : nat;
  w_tweet : Row;
  w_rest : list Row
}.

(** The [for] loop of [runScheduler] from the [i]-th due tweet, up to its
    end or to the next request: the state, the dispatches completed, and
    the call if it now waits. *)
Fixpoint loopFrom (cfg : Config) (now : Z) (env : nat -> Call) (i : nat)
    (dueTweets : list Row) (st : State) : State * Log * option Waiting :=
  match dueTweets with
  | [] => (st, [], None)
  | tweet :: rest =>
      match postTweet_request cfg (clock (env i)) tweet st with
      | (st1, None) =>
          (st1, [], Some {| w_now := now; w_env := env; w_index := i;
                            w_tweet := tweet; w_rest := rest |})
      | (st1, Some result) =>
          match schedulerUpdates now tweet result with
          | None => (st1, [(tweet, result)], None)
          | Some updates =>
              let st2 := (updateTweet (field "id" tweet) updates (stamp (env i)) st1).2 in
              let '(st3, log, w) := loopFrom cfg now env (S i) rest st2 in
              (st3, (tweet, result) :: log, w)
          end
      end
  end.

(** A timer calls [runScheduler]: the table is loaded and filtered, and
    the loop starts. *)
Definition start (cfg : Config) (now : Z) (env : nat -> Call) (st : State)
  : State * Log * option Waiting :=
  loopFrom cfg now env 0 (dueTweets cfg now st) st.

(** The client answers a waiting call: [postTweet] returns, the update is
    written, and the loop goes on with the tweets this call had loaded. *)
Definition resume (cfg : Config) (w : Waiting) (st : State)
  : State * Log * option Waiting :=
  let call := w_env w (w_index w) in
  let '(st1, result) := postTweet_answer cfg (w_tweet w) (response call) st in
  match schedulerUpdates (w_now w) (w_tweet w) result with
  | None => (st1, [(w_tweet w, result)], None)
  | Some updates =>
      let st2 := (updateTweet (field "id" (w_tweet w)) updates (stamp call) st1).2 in
      let '(st3, log, w') :=
        loopFrom cfg (w_now w) (w_env w) (S (w_index w)) (w_rest w) st2 in
      (st3, (w_tweet w, result) :: log, w')
  end.

(** What the event loop hands to the process: a timer that calls
    [runScheduler], or the answer of the client to the [k]-th of the calls
    that wait (in the order in which they started to wait). *)
Inductive Event :=
  | Timer (now : Z) (env : nat -> Call)
  | Answer (k : nat).

(** The process between two events: the shared state and the calls that
    wait. *)
Record Process := {
  shared : State;
  waiting : list Waiting
}.

Definition event (cfg : Config) (e : Event) (p : Process) : Process * Log :=
  match e with
  | Timer now env =>
      let '(st, log, w) := start cfg now env (shared p) in
      ({| shared := st; waiting := waiting p ++ option_list w |}, log)
  | Answer k =>
      match waiting p !! k with
      | None => (p, [])
      | Some w =>
          let '(st, log, w') := resume cfg w (shared p) in
          ({| shared := st; waiting := delete k (waiting p) ++ option_list w' |}, log)
      end
  end.

(** The process over a sequence of events, with the dispatches completed,
    in the order of their completion. *)
Fixpoint overlap (cfg : Config) (events : list Event) (p : Process) : Process * Log :=
  match events with
  | [] => (p, [])
  | e :: rest =>
      let '(p1, log1) := event cfg e p in
      let '(p2, log2) := overlap cfg rest p1 in
      (p2, log1 ++ log2)
  end.

(** A process in which no call waits. *)
Definition idle (st : State) : Process := {| shared := st; waiting := [] |}.

End Overlap.

(** ** Concrete runs *)

Module Scenario.

Import Server.

(** 2025-09-08T14:30:00.000Z; the process runs on Istanbul time. *)
Definition T0 : Z := 1757341800000.

(** [new Date] on the one local text used below. *)
Definition parse (s : string) : option Z :=
  if bool_decide (s = "2025-09-08T23:02:00+03:00") then Some 1757361720000 else None.

(** [String.prototype.trim] on the texts used below, which are ASCII:
    tab, line feed, vertical tab, form feed, carriage return and space go. *)
Fixpoint trimStart (s : string) : string :=
  match s with
  | EmptyString => EmptyString
  | String c rest => if Ascii.is_space c then trimStart rest else s
  end.

Definition trimAscii (s : string) : string :=
  String.rev (trimStart (String.rev (trimStart s))).

(** The digest is replaced by the text itself; no body below holds an
    array. *)
Definition cfgDry : Config :=
  {| DRY_RUN := true; twitterClient := false; generateContentHash := fun text => text;
     Date_parse := parse; tzOffset := 180; String_trim := trimAscii;
     Array_toString := fun _ => "" |}.

Definition cfgLive : Config :=
  {| DRY_RUN := false; twitterClient := true; generateContentHash := fun text => text;
     Date_parse := parse; tzOffset := 180; String_trim := trimAscii;
     Array_toString := fun _ => "" |}.

Definition pendingTweet (id text : string) (runAt : Z) : Row :=
  list_to_map
    [("id", VStr id); ("text", VStr text); ("runAt", VDate runAt);
     ("status", VStr "pending"); ("attempts", VNum 0);
     ("createdAt", VDate (T0 - 3600000)); ("updatedAt", VDate (T0 - 3600000));
     ("postedAt", VNull); ("tweetId", VNull); ("error", VNull); ("failedAt", VNull)].

Definition failedTweet : Row :=
  list_to_map
    [("id", VStr "7"); ("text", VStr "hello"); ("runAt", VDate (T0 - 7200000));
     ("status", VStr "failed"); ("attempts", VNum 5);
     ("createdAt", VDate (T0 - 9000000)); ("updatedAt", VDate (T0 - 3600000));
     ("postedAt", VNull); ("tweetId", VNull); ("error", VStr "503 Service Unavailable");
     ("failedAt", VDate (T0 - 3600000))].

(** The client answers every call the same way; all clocks of a tick read
    [clock_]. *)
Definition answers (response_ : TweetResponse) (clock_ : Z) : nat -> Call :=
  fun _ => {| clock := clock_; response := response_; stamp := clock_ + 5 |}.

(** Five tweets due at [T0]; the fifth repeats the text of the first. *)
Definition five : list Row :=
  [pendingTweet "1" "a" (T0 - 50000); pendingTweet "2" "b" (T0 - 40000);
   pendingTweet "3" "c" (T0 - 30000); pendingTweet "4" "d" (T0 - 20000);
   pendingTweet "5" "a" (T0 - 10000)].

Definition stFive : State := startServer cfgDry (T0 - 1000) five ∅.

(** Three tweets due at the start-up tick ten seconds before [T0], a fourth
    due at [T0]. *)
Definition four : list Row :=
  [pendingTweet "1" "a" (T0 - 50000); pendingTweet "2" "b" (T0 - 40000);
   pendingTweet "3" "c" (T0 - 30000); pendingTweet "4" "d" (T0 - 5000)].

Definition stFour : State :=
  final (runScheduler cfgDry (T0 - 10000) (answers ResponseNoData (T0 - 10000))
           (startServer cfgDry (T0 - 11000) four ∅)).

(** Two tweets with the same text. *)
Definition twins : list Row :=
  [pendingTweet "1" "hello" (T0 - 2000); pendingTweet "2" "hello" (T0 - 1000)].

Definition stTwins : State := startServer cfgLive (T0 - 1000) twins ∅.

(** One tweet, due. *)
Definition stOne : State :=
  startServer cfgLive (T0 - 1000) [pendingTweet "1" "hello" (T0 - 1000)] ∅.

(** A failed tweet next to a due one. *)
Definition stMixed : State :=
  startServer cfgLive (T0 - 1000) [failedTweet; pendingTweet "1" "hi" (T0 - 1000)] ∅.


(** [startServer] arms its timers 1.05 s before [T0]: the start-up timer
    fires at [T0 - 50], the minute timer at [T0].  One tweet is due. *)
Definition stLate : State :=
  startServer cfgLive (T0 - 1050) [pendingTweet "1" "hello" (T0 - 60000)] ∅.

(** The client takes 300 ms to answer: with the id 1900 to the call of the
    start-up timer, with 1901 to the call of the minute timer. *)
Definition startupCall : nat -> Call :=
  fun _ => {| clock := T0 - 50; response := ResponseData "1900"; stamp := T0 + 250 |}.

Definition minuteCall : nat -> Call :=
  fun _ => {| clock := T0; response := ResponseData "1901"; stamp := T0 + 300 |}.

(** Both timers fire before the first answer comes in. *)
Definition bothTimers : list Overlap.Event :=
  [Overlap.Timer (T0 - 50) startupCall; Overlap.Timer T0 minuteCall].

(** Two tweets with different texts, due. *)
Definition stPair : State :=
  startServer cfgLive (T0 - 1000)
    [pendingTweet "1" "hello" (T0 - 2000); pendingTweet "2" "other" (T0 - 1000)] ∅.

(** The client answers the first call of a tick with the id 1900 and the
    others with 1901. *)
Definition numbered (clock_ : Z) : nat -> Call :=
  fun i => {| clock := clock_;
              response := ResponseData (match i with O => "1900" | S _ => "1901" end);
              stamp := clock_ + 5 |}.

(** A tick; an edit that gives the second tweet the text of the first and
    a new time; a tick at that time (2025-09-08T20:02:00.000Z). *)
Definition editThenTick : list Step :=
  [Tick T0 (numbered T0);
   ApiPut "2" (BStr "hello") (BStr "2025-09-08T23:02") (T0 + 1000);
   Tick 1757361720000 (numbered 1757361720000)].

End Scenario.


(** ** What a tick writes *)

Module Tick.

Import Server.

(** The pairs of [updates] that go into the [SET] clause of
    [updateTweet]: every key but [id]. *)
Definition setFields (updates : Updates) : Updates :=
  List.filter (fun kv => negb (String.eqb kv.1 "id")) updates.

(** SQLite accepts the statement [updateTweet] builds from [updates]. *)
Definition accepted (updates : Updates) : bool :=
  forallb (fun kv => bool_decide (kv.1 ∈ tweets_columns)) (setFields updates)
  && negb (bool_decide (setFields updates = [])).

(** The row an accepted update leaves in place of [row]. *)
Definition written (updates : Updates) (stamp : Z) (row : Row) : Row :=
  <["updatedAt" := VDate stamp]> (assign (setFields updates) row).

(** The columns the scheduler ever names in an update that SQLite
    accepts, with [updatedAt]. *)
Definition scheduler_columns : list string :=
  ["attempts"; "status"; "postedAt"; "tweetId"; "error"; "failedAt"; "updatedAt"].

(** The keys of the update objects that [server.js] hands to
    [updateTweet]: those [runScheduler] assigns and those the [PUT]
    handler assigns. *)
Definition caller_keys : list string :=
  ["attempts"; "status"; "postedAt"; "tweetId"; "nextRetryAt"; "error"; "failedAt";
   "text"; "runAt"].

(** [runAt] is the ISO text of an instant of the years 0000 to 9999, for
    every row: the texts that SQLite orders as the instants are. *)
Definition iso_dates (rows : list Row) : Prop :=
  forall row, row ∈ rows ->
    exists t, field "runAt" row = VDate t /\ -62167219200000 <= t < 253402300800000.

(** The instant of an ISO [runAt]. *)
Definition runAt_of (row : Row) : Z :=
  match field "runAt" row with VDate t => t | _ => 0 end.

(** Ascending [runAt]. *)
Fixpoint ascending (rows : list Row) : Prop :=
  match rows with
  | [] => True
  | x :: rest => (forall y, y ∈ rest -> runAt_of x <= runAt_of y) /\ ascending rest
  end.

(** The row is not failed and, while it is pending, has fewer than four
    attempts on record. *)
Definition retriable (row : Row) : Prop :=
  field "status" row <> VStr "failed"
  /\ (field "status" row = VStr "pending" -> attempts_of row < 4).

(** The limiter holds no window, or one with at least one point in it. *)
Definition limiter_ok (l : RateLimiterMemory) : Prop :=
  match storage l with
  | Some (value, _) => 1 <= value
  | None => True
  end.

(** The limiter was built with no point to give: every [consume] on it is
    rejected. *)
Definition exhausted (l : RateLimiterMemory) : Prop :=
  points l <= 0 /\ limiter_ok l.

(** One of the three limiters has no point to give. *)
Definition frozen (st : State) : Prop :=
  exhausted (dailyLimiter st) \/ exhausted (hourlyLimiter st)
  \/ exhausted (minuteLimiter st).

(** The attempt was turned away before any dispatch. *)
Definition turnedAway (r : PostResult) : Prop :=
  r = Duplicate \/ exists hint, r = RateLimit hint.

(** The attempt was rate limited, or found no client. *)
Definition noDispatch (r : PostResult) : Prop :=
  (exists hint, r = RateLimit hint) \/ r = Failure "Twitter client not initialized".

End Tick.

(** ** The counters of the dashboard *)

Module Dashboard.

Import Server.

(** The four counters of the [stats] object of [GET /api/dashboard]; its
    [rateLimits] are [checkRateLimits], and [nextTweet] is left out. *)
Record Stats := {
  total : nat;
  pending : nat;
  posted : nat;
  failed : nat
}.

(** [tweets.filter(t => t.status === status)]. *)
Definition with_status (status : string) (rows : list Row) : list Row :=
  List.filter (fun t => bool_decide (field "status" t = VStr status)) rows.

Definition get_api_dashboard (st : State) : Stats :=
  let tweets := loadTweets st in
  {| total := length tweets;
     pending := length (with_status "pending" tweets);
     posted := length (with_status "posted" tweets);
     failed := length (with_status "failed" tweets) |}.

End Dashboard.

(** ** More concrete runs *)

Module Cases.

Import Server Scenario.

(** A pending tweet that has four attempts on record. *)
Definition lastChance : Row :=
  list_to_map
    [("id", VStr "9"); ("text", VStr "hello"); ("runAt", VDate (T0 - 1000));
     ("status", VStr "pending"); ("attempts", VNum 4);
     ("createdAt", VDate (T0 - 3600000)); ("updatedAt", VDate (T0 - 3600000));
     ("postedAt", VNull); ("tweetId", VNull); ("error", VNull); ("failedAt", VNull)].

Definition stLastChance : State := startServer cfgLive (T0 - 1000) [lastChance] ∅.

(** The rate_limits table when the minute bucket of the start-up instant
    is full. *)
Definition fullMinute : gmap (string * BucketKey) Z :=
  {[ ("minute", currentMinute cfgLive (T0 - 1000)) := 3 ]}.

Definition stFrozen : State :=
  startServer cfgLive (T0 - 1000) [pendingTweet "1" "hello" (T0 - 1000)] fullMinute.

(** The credentials are missing and [DRY_RUN] is off. *)
Definition cfgNoClient : Config :=
  {| DRY_RUN := false; twitterClient := false; generateContentHash := fun text => text;
     Date_parse := parse; tzOffset := 180; String_trim := trimAscii;
     Array_toString := fun _ => "" |}.

Definition stNoClient : State :=
  startServer cfgNoClient (T0 - 1000) [pendingTweet "1" "hello" (T0 - 1000)] ∅.

(** An update that names a column the table does not have. *)
Definition deferral : Updates :=
  [("attempts", VNum 1); ("nextRetryAt", VDate (T0 + 300000))].

End Cases.

(** ** app.js: the one-shot scheduler over schedule.json

    Conventions, besides those above.
    - An item of the schedule is a JS object: a finite map from keys to
      values; a missing key reads as [undefined].  Numbers are integers.
    - [schedule.json], when it can be read and parsed, holds an array of
      objects.
    - Writing the log and writing [schedule.json] succeed.
    - When [DRY_RUN] is off, [postTweet] runs with the client that
      [runScheduler] has initialised. *)

Module AppScheduler.

Import App.

(** The values of an item, as [JSON.parse] gives them. *)
Inductive Json :=
  | JNull
  | JBool (b : bool)
  | JNum (n : Z)
  | JStr (s : string).

#[global] Instance Json_eq_dec : EqDecision Json.
Proof. solve_decision. Defined.

Abbreviation Item := (gmap string Json).

(** An object literal built by assignments, in their order. *)
Abbreviation Updates := (list (string * Json)).

(** What the process is started with.  [credentials] says that the four
    Twitter variables are set; [generateContentHash] is the SHA-256 hex
    digest; [Date_parse] is [new Date] on a text ([None] for an invalid
    date); [Number_parse] is the conversion of a text to a number ([None]
    for [NaN]); [toISOString] is the ISO text of an instant. *)
Record Config := {
  DRY_RUN : bool;
  credentials : bool;
  generateContentHash : string -> string;
  Date_parse : string -> option Z;
  Number_parse : string -> option Z;
  toISOString : Z -> string
}.

(** The idempotency cache, with the calls made to the client and the
    delays slept so far, oldest first. *)
Record State := {
  postedHashes : gset string;
  calls : nat;
  slept : list Z
}.

Definition add_hash (contentHash : string) (st : State) : State :=
  {| postedHashes := {[contentHash]} ∪ postedHashes st; calls := calls st;
     slept := slept st |}.

Definition called (st : State) : State :=
  {| postedHashes := postedHashes st; calls := S (calls st); slept := slept st |}.

Definition sleep (delay : Z) (st : State) : State :=
  {| postedHashes := postedHashes st; calls := calls st; slept := slept st ++ [delay] |}.

(** What [client.v2.tweet] does for one call: it resolves with
    [response.data.id], resolves without [data], or rejects with an error
    carrying [message] and, when it has one, a numeric [code] or
    [statusCode]. *)
Inductive TweetResponse :=
  | ResponseData (id : string)
  | ResponseNoData
  | ResponseError (message : string) (statusCode : option Z).

(** The values [postTweet] returns, one constructor per [return], and
    [undefined] when it runs off its end. *)
Inductive PostResult :=
  | Duplicate
  | DryRunOk
  | Posted (id : string)
  | Failure (error : string) (statusCode : option Z)
  | Undefined.

(** [tweetData.text], as [hash.update] takes it: anything but a text makes
    it throw. *)
Definition text_of (tweetData : Item) : option string :=
  match tweetData !! "text" with Some (JStr s) => Some s | _ => None end.

(** [postTweet(tweetData, attempt)]; [client i] is what the client does on
    the [i]-th call of the process.  The recursion is on [attempt] (not
    negative; [runScheduler] starts it at 0), which the guard
    [attempt < MAX_RETRIES] bounds; [fuel] counts the recursive calls
    still allowed, and [None] means it ran out. *)
Fixpoint postTweet_fuel (fuel : nat) (cfg : Config) (client : nat -> TweetResponse)
    (tweetData : Item) (attempt : Z) (st : State)
  : option (State * Completion PostResult) :=
  match text_of tweetData with
  | None => Some (st, Throws)
  | Some text =>
      let contentHash := generateContentHash cfg text in
      if bool_decide (contentHash ∈ postedHashes st) then Some (st, Returns Duplicate)
      else if DRY_RUN cfg then Some (add_hash contentHash st, Returns DryRunOk)
      else
        let st1 := called st in
        match client (calls st) with
        | ResponseData id => Some (add_hash contentHash st1, Returns (Posted id))
        | ResponseNoData => Some (st1, Returns Undefined)
        | ResponseError message statusCode =>
            if isRetryable statusCode && (attempt <? MAX_RETRIES)
            then
              let delay :=
                if isRateLimit statusCode
                then calculateBackoffDelay attempt RATE_LIMIT_BACKOFF_BASE
                else calculateBackoffDelay attempt 5000 in
              match fuel with
              | O => None
              | S fuel' =>
                  postTweet_fuel fuel' cfg client tweetData (attempt + 1) (sleep delay st1)
              end
            else Some (st1, Returns (Failure message statusCode))
        end
  end.

Definition postTweet (cfg : Config) (client : nat -> TweetResponse)
    (tweetData : Item) (attempt : Z) (st : State)
  : option (State * Completion PostResult) :=
  postTweet_fuel (Z.to_nat (MAX_RETRIES - attempt)) cfg client tweetData attempt st.

(** [{...item, ...updates}]. *)
Definition spread (item : Item) (updates : Updates) : Item :=
  foldl (fun o kv => <[kv.1 := kv.2]> o) item updates.

(** [updateScheduleItem(schedule, itemId, updates)]: the first item whose
    [id] is strictly equal to [itemId] ([undefined] included) is replaced. *)
Fixpoint updateScheduleItem (schedule : list Item) (itemId : option Json)
    (updates : Updates) : list Item :=
  match schedule with
  | [] => []
  | item :: rest =>
      if bool_decide (item !! "id" = itemId) then spread item updates :: rest
      else item :: updateScheduleItem rest itemId updates
  end.

(** [parseScheduledDate(dateString)]: the instant, if the date is valid;
    [Throws] when [dateString] is not a text and so has no [includes]. *)
Definition parseScheduledDate (cfg : Config) (dateString : option Json)
  : Completion (option Z) :=
  match dateString with
  | Some (JStr s) =>
      if Server.includes "+"%char s || Server.includes "Z"%char s
      then Returns (Date_parse cfg s)
      else Returns (match Date_parse cfg s with
                    | Some t => Some (t - 3 * 60 * 60 * 1000)
                    | None => None
                    end)
  | _ => Throws
  end.

(** [schedule.filter(item => item.status === 'pending' &&
    parseScheduledDate(item.runAt) <= now)]; an invalid date is not
    [<= now]. *)
Fixpoint dueFilter (cfg : Config) (now : Z) (schedule : list Item)
  : Completion (list Item) :=
  match schedule with
  | [] => Returns []
  | item :: rest =>
      if bool_decide (item !! "status" = Some (JStr "pending"))
      then
        match parseScheduledDate cfg (item !! "runAt") with
        | Throws => Throws
        | Returns runAt =>
            match dueFilter cfg now rest with
            | Throws => Throws
            | Returns due =>
                Returns (match runAt with
                         | Some t => if t <=? now then item :: due else due
                         | None => due
                         end)
            end
        end
      else dueFilter cfg now rest
  end.

(** The number a value converts to in [>=] and [Math.pow]; [None] for
    [NaN]. *)
Definition toNumber (cfg : Config) (v : option Json) : option Z :=
  match v with
  | Some (JNum n) => Some n
  | Some JNull => Some 0
  | Some (JBool b) => Some (if b then 1 else 0)
  | Some (JStr s) => Number_parse cfg s
  | None => None
  end.

(** [tweet.attempts + 1], as it reaches the file: on a text [+] appends,
    and [undefined + 1] is [NaN], which [JSON.stringify] writes as [null]
    (the value is not read in between). *)
Definition plusOne (cfg : Config) (v : option Json) : Json :=
  match v with
  | Some (JStr s) => JStr (s +:+ "1")
  | _ => match toNumber cfg v with Some n => JNum (n + 1) | None => JNull end
  end.

(** The delay added to [now] for [nextAttemptAt], for a number of attempts
    below 4.  Below 0 the product [1000 * 2^attempts] is a fraction, which
    the [Date] constructor cuts off. *)
Definition nextAttemptDelay (attempts : Z) : Z :=
  if 0 <=? attempts then calculateBackoffDelay attempts RATE_LIMIT_BACKOFF_BASE
  else RATE_LIMIT_BACKOFF_BASE / 2 ^ (- attempts).

(** The [updates] object built for one due tweet; [Throws] when building
    it throws: reading [success] of [undefined], or [toISOString] of an
    invalid date when the attempts are not a number. *)
Definition itemUpdates (cfg : Config) (now : Z) (tweet : Item) (result : PostResult)
  : Completion Updates :=
  let updates : Updates := [("attempts", plusOne cfg (tweet !! "attempts"))] in
  match result with
  | Undefined => Throws
  | DryRunOk =>
      Returns (updates ++ [("status", JStr "posted");
                           ("postedAt", JStr (toISOString cfg now))])
  | Posted id =>
      Returns (updates ++ [("status", JStr "posted");
                           ("postedAt", JStr (toISOString cfg now));
                           ("tweetId", JStr id)])
  | Duplicate =>
      Returns (updates ++ [("status", JStr "posted");
                           ("postedAt", JStr (toISOString cfg now));
                           ("duplicate", JBool true)])
  | Failure error _ =>
      match toNumber cfg (tweet !! "attempts") with
      | Some n =>
          if MAX_RETRIES - 1 <=? n
          then Returns (updates ++ [("status", JStr "failed"); ("error", JStr error);
                                    ("failedAt", JStr (toISOString cfg now))])
          else Returns (updates ++ [("status", JStr "pending");
                                    ("nextAttemptAt",
                                     JStr (toISOString cfg (now + nextAttemptDelay n)))])
      | None => Throws
      end
  end.

(** The loop over the due tweets: the state and the schedule it ends
    with, the dispatches made, and whether it was left by an exception. *)
Record LoopResult := {
  state : State;
  schedule : list Item;
  results : list (Item * PostResult);
  crashed : bool
}.

Fixpoint schedulerLoop (cfg : Config) (client : nat -> TweetResponse) (now : Z)
    (dueTweets : list Item) (schedule_ : list Item) (st : State) : option LoopResult :=
  match dueTweets with
  | [] => Some {| state := st; schedule := schedule_; results := []; crashed := false |}
  | tweet :: rest =>
      match postTweet cfg client tweet 0 st with
      | None => None
      | Some (st1, Throws) =>
          Some {| state := st1; schedule := schedule_; results := []; crashed := true |}
      | Some (st1, Returns result) =>
          match itemUpdates cfg now tweet result with
          | Throws =>
              Some {| state := st1; schedule := schedule_; results := [(tweet, result)];
                      crashed := true |}
          | Returns updates =>
              match schedulerLoop cfg client now rest
                      (updateScheduleItem schedule_ (tweet !! "id") updates) st1 with
              | None => None
              | Some r =>
                  Some {| state := state r; schedule := schedule r;
                          results := (tweet, result) :: results r; crashed := crashed r |}
              end
          end
      end
  end.

(** How the run ends: [runScheduler] returns, or the process exits with
    code 1. *)
Inductive Exit := Returned | Exit1.

(** What a run leaves: the content of [schedule.json] ([None] when it
    cannot be read as JSON), the state, the dispatches made. *)
Record Outcome := {
  file : option (list Item);
  after : State;
  dispatched : list (Item * PostResult);
  exit : Exit
}.

(** [runScheduler()], on the content of [schedule.json]. *)
Definition runScheduler (cfg : Config) (client : nat -> TweetResponse) (now : Z)
    (file_ : option (list Item)) (st : State) : option Outcome :=
  let unchanged (st' : State) (log : list (Item * PostResult)) (e : Exit) :=
    Some {| file := file_; after := st'; dispatched := log; exit := e |} in
  if negb (DRY_RUN cfg) && negb (credentials cfg) then unchanged st [] Exit1
  else
    match file_ with
    | None => unchanged st [] Returned
    | Some schedule_ =>
        match dueFilter cfg now schedule_ with
        | Throws => unchanged st [] Exit1
        | Returns [] => unchanged st [] Returned
        | Returns dueTweets =>
            match schedulerLoop cfg client now dueTweets schedule_ st with
            | None => None
            | Some r =>
                if crashed r then unchanged (state r) (results r) Exit1
                else Some {| file := Some (schedule r); after := state r;
                             dispatched := results r; exit := Returned |}
            end
        end
    end.

(** No two items share an [id]; a missing [id] counts as one. *)
Definition unique_ids (schedule_ : list Item) : Prop :=
  NoDup (map (fun item : Item => item !! "id") schedule_).

(** The client rejects every call with a server error. *)
Definition server_down (client : nat -> TweetResponse) : Prop :=
  forall i, exists message code, client i = ResponseError message (Some code) /\ 500 <= code.

(** The sum of the delays. *)
Definition total (delays : list Z) : Z := foldr Z.add 0 delays.

End AppScheduler.

(** ** Concrete runs of app.js *)

Module AppCases.

Import AppScheduler.

(** 2025-09-15T07:05:00.000Z, five minutes after the items below are
    due. *)
Definition now : Z := 1757919900000.

(** [toISOString] on the two instants written below. *)
Definition iso (t : Z) : string :=
  if bool_decide (t = now) then "2025-09-15T07:05:00.000Z"
  else if bool_decide (t = now + 1000) then "2025-09-15T07:05:01.000Z"
  else "".

(** [new Date] on the one text used below; the digest is replaced by the
    text itself. *)
Definition cfg : Config :=
  {| DRY_RUN := false; credentials := true; generateContentHash := fun text => text;
     Date_parse := fun s => if bool_decide (s = "2025-09-15T10:00:00+03:00")
                            then Some 1757919600000 else None;
     Number_parse := fun _ => None;
     toISOString := iso |}.

Definition dueItem (id text : string) : Item :=
  list_to_map
    [("id", JStr id); ("text", JStr text); ("runAt", JStr "2025-09-15T10:00:00+03:00");
     ("status", JStr "pending"); ("attempts", JNum 0)].

(** A fresh process. *)
Definition start : State := {| postedHashes := ∅; calls := 0; slept := [] |}.

(** The API answers every call with a 503. *)
Definition down : nat -> TweetResponse :=
  fun _ => ResponseError "503 Service Unavailable" (Some 503).

(** The API posts every tweet. *)
Definition up : nat -> TweetResponse := fun _ => ResponseData "1900".

(** The API posts the first tweet and answers the second call without
    [data]. *)
Definition noDataSecond : nat -> TweetResponse :=
  fun i => match i with O => ResponseData "1900" | _ => ResponseNoData end.

(** Two items with the same id around one with another. *)
Definition doubled : list Item :=
  [dueItem "1" "a"; dueItem "2" "b"; dueItem "1" "c"].

End AppCases.
(** * Properties *)

Import Server.

(** ** Backoff (app.js) *)

Lemma calculateBackoffDelay_mono (base k k' : Z) :
  0 <= base -> 0 <= k <= k' ->
  App.calculateBackoffDelay k base <= App.calculateBackoffDelay k' base.
Proof.
  intros Hb [Hk Hkk']. unfold App.calculateBackoffDelay.
  apply Z.min_le_compat_r, Z.mul_le_mono_nonneg_l; [exact Hb|].
  apply Z.pow_le_mono_r; lia.
Qed.

Lemma retryDelay_base (code k d : Z) :
  App.retryDelay (Some code) k = Some d ->
  (code = 429 /\ d = App.calculateBackoffDelay k 1000)
  \/ (500 <= code /\ d = App.calculateBackoffDelay k 5000).
Proof.
  unfold App.retryDelay, App.isRetryable, App.isRateLimit.
  destruct (code =? 429) eqn:E429; destruct (500 <=? code) eqn:E500;
    destruct (k <? App.MAX_RETRIES); simpl; try discriminate;
    intros [= <-]; (left + right); split; try reflexivity; lia.
Qed.

(** C7. For every attempt number [k >= 0] the backoff delay is
    [min(baseDelay * 2^k, 300000)] ms; the delay slept by [postTweet]
    uses base 1000 for a 429 and base 5000 for a 5xx; the delay never
    decreases as [k] grows and never exceeds 300 seconds. *)
Theorem backoff_delay_doubles_up_to_cap (k : Z) (Hk : 0 <= k) :
  (forall base, App.calculateBackoffDelay k base = Z.min (base * 2 ^ k) 300000)
  /\ (forall d, App.retryDelay (Some 429) k = Some d -> d = Z.min (1000 * 2 ^ k) 300000)
  /\ (forall code d, 500 <= code -> App.retryDelay (Some code) k = Some d ->
        d = Z.min (5000 * 2 ^ k) 300000)
  /\ (forall k', k <= k' ->
        App.calculateBackoffDelay k 1000 <= App.calculateBackoffDelay k' 1000
        /\ App.calculateBackoffDelay k 5000 <= App.calculateBackoffDelay k' 5000)
  /\ (forall base, App.calculateBackoffDelay k base <= 300000).
Proof.
  split; [reflexivity|].
  split.
  { intros d H. destruct (retryDelay_base _ _ _ H) as [[_ ->]|[Hc _]]; [reflexivity|lia]. }
  split.
  { intros code d Hc H. destruct (retryDelay_base _ _ _ H) as [[-> _]|[_ ->]]; [lia|reflexivity]. }
  split.
  { intros k' Hkk'. split; apply calculateBackoffDelay_mono; lia. }
  intros base. unfold App.calculateBackoffDelay. apply Z.le_min_r.
Qed.

Lemma backoff_delay_doubles_up_to_cap_witness :
  0 <= 3
  /\ App.retryDelay (Some 429) 3 = Some 8000
  /\ App.retryDelay (Some 503) 3 = Some 40000
  /\ App.calculateBackoffDelay 3 1000 = Z.min (1000 * 2 ^ 3) 300000.
Proof.
  split; [lia|].
  split; [reflexivity|].
  split; [reflexivity|].
  apply (proj1 (backoff_delay_doubles_up_to_cap 3 ltac:(lia))).
Defined.

(** The first delays of a 429: 1, 2, 4, 8, 16 seconds; the cap is reached
    at the ninth attempt. *)
Example backoff_delays_429 :
  map (fun k => App.calculateBackoffDelay k App.RATE_LIMIT_BACKOFF_BASE) [0; 1; 2; 3; 4; 8; 9; 40]
  = [1000; 2000; 4000; 8000; 16000; 256000; 300000; 300000].
Proof. reflexivity. Qed.

(** ** postTweet *)

(** Case analysis along the branches of [postTweet]. *)
Ltac postTweet_cases :=
  unfold postTweet;
  repeat match goal with
    | |- context [bool_decide ?P] => destruct (bool_decide_reflect P)
    | |- context [consume ?n ?l] => destruct (consume n l) as [[? ?] ?] eqn:?
    | |- context [if ?b then _ else _] => destruct b eqn:?
    | |- context [match response ?c with _ => _ end] => destruct (response c) eqn:?
    end; simpl.

Lemma postTweet_tweets cfg call tweet st :
  tweets (postTweet cfg call tweet st).1 = tweets st.
Proof. postTweet_cases; reflexivity. Qed.

Lemma postTweet_duplicate cfg call tweet st :
  hash_of cfg tweet ∈ postedHashes st ->
  postTweet cfg call tweet st = (st, Duplicate).
Proof. intros H. unfold postTweet. fold (hash_of cfg tweet). by rewrite bool_decide_eq_true_2. Qed.

Lemma postTweet_postedHashes cfg call tweet st :
  postedHashes st ⊆ postedHashes (postTweet cfg call tweet st).1.
Proof. postTweet_cases; try reflexivity; apply union_subseteq_r. Qed.

Lemma postTweet_succeeded cfg call tweet st :
  succeeded (postTweet cfg call tweet st).2 = true ->
  hash_of cfg tweet ∈ postedHashes (postTweet cfg call tweet st).1.
Proof.
  unfold hash_of. postTweet_cases; try discriminate; intros _;
    by apply elem_of_union_l, elem_of_singleton.
Qed.


(** ** The tweets table under updateTweet *)

Lemma assign_lookup_notin (updates : Updates) : forall (obj : Row) (k : string),
  k ∉ updates.*1 -> assign updates obj !! k = obj !! k.
Proof.
  unfold assign. induction updates as [|[k' v] rest IH]; intros obj k Hk; simpl; [done|].
  apply not_elem_of_cons in Hk as [Hne Hk].
  rewrite IH by exact Hk. apply lookup_insert_ne. simpl in *. congruence.
Qed.

Lemma filter_keys_not_id (updates : Updates) :
  "id" ∉ (List.filter (fun kv : string * Value => negb (String.eqb kv.1 "id")) updates).*1.
Proof.
  induction updates as [|[k v] rest IH]; simpl; [apply not_elem_of_nil|].
  destruct (String.eqb k "id") eqn:E; simpl; [exact IH|].
  apply not_elem_of_cons. split; [|exact IH].
  intros Heq. simpl in Heq. subst k. by rewrite String.eqb_refl in E.
Qed.

Lemma updateTweet_frame id updates stamp st :
  let st' := (updateTweet id updates stamp st).2 in
  rate_limits st' = rate_limits st /\ postedHashes st' = postedHashes st
  /\ dailyLimiter st' = dailyLimiter st /\ hourlyLimiter st' = hourlyLimiter st
  /\ minuteLimiter st' = minuteLimiter st.
Proof. unfold updateTweet. case_match; simpl; auto. Qed.

Lemma updateTweet_ids id updates stamp st :
  field "id" <$> tweets (updateTweet id updates stamp st).2 = field "id" <$> tweets st.
Proof.
  unfold updateTweet. case_match; [|reflexivity]. simpl.
  rewrite <- list_fmap_compose. apply list_fmap_ext. intros _ row _. simpl.
  case_match; [|reflexivity].
  unfold field. rewrite lookup_insert_ne by done.
  by rewrite assign_lookup_notin by apply filter_keys_not_id.
Qed.

Lemma updateTweet_lookup_other id updates stamp st (k : nat) row :
  tweets st !! k = Some row -> id_matches id row = false ->
  tweets (updateTweet id updates stamp st).2 !! k = Some row.
Proof.
  intros Hk Hid. unfold updateTweet. case_match; [|exact Hk]. simpl.
  change (map ?f ?l) with (f <$> l). rewrite list_lookup_fmap, Hk. simpl. by rewrite Hid.
Qed.

Lemma updateTweet_lookup_match id updates stamp st (k : nat) row :
  let fields := List.filter (fun kv : string * Value => negb (String.eqb kv.1 "id")) updates in
  forallb (fun kv : string * Value => bool_decide (kv.1 ∈ tweets_columns)) fields = true ->
  fields <> [] ->
  tweets st !! k = Some row -> id_matches id row = true ->
  tweets (updateTweet id updates stamp st).2 !! k
  = Some (<["updatedAt" := VDate stamp]> (assign fields row)).
Proof.
  intros fields Hcols Hne Hk Hid. unfold updateTweet. fold fields.
  rewrite Hcols, bool_decide_eq_false_2 by exact Hne. simpl.
  change (map ?f ?l) with (f <$> l). by rewrite list_lookup_fmap, Hk; simpl; rewrite Hid.
Qed.

(** An update that names [nextRetryAt] is refused: the table has no such
    column. *)
Lemma updateTweet_nextRetryAt id u v stamp st :
  updateTweet id (u ++ [("nextRetryAt", v)]) stamp st = (false, st).
Proof.
  unfold updateTweet. rewrite List.filter_app, List.forallb_app. simpl.
  by rewrite andb_false_r.
Qed.

Lemma schedulerUpdates_not_persisted now tweet result updates id stamp st :
  schedulerUpdates now tweet result = Some updates -> persists result = false ->
  updateTweet id updates stamp st = (false, st).
Proof.
  destruct result as [|[ms|]| | | |]; simpl; try discriminate.
  intros [= <-] _. apply (updateTweet_nextRetryAt id [_]).
Qed.

Lemma id_matches_false_iff id row :
  id_matches id row = false <-> id = VNull \/ field "id" row <> id.
Proof.
  unfold id_matches. rewrite andb_false_iff, !bool_decide_eq_false. split.
  - intros [H|H]; [left|by right]. destruct (decide (id = VNull)); [done|by destruct H].
  - intros [->|H]; [left|by right]. intros H. by apply H.
Qed.

(** ** The handlers that write *)

(** What the two handlers that write leave behind. *)
Lemma post_api_tweets_state cfg uuid text dateTime stamp st :
  (post_api_tweets cfg uuid text dateTime stamp st).2 = st
  \/ exists tweet, field "id" tweet = VStr uuid
       /\ (post_api_tweets cfg uuid text dateTime stamp st).2 = (saveTweet tweet stamp st).2.
Proof.
  unfold post_api_tweets.
  destruct (falsy text || falsy dateTime); [by left|].
  destruct (parseScheduledDate_body cfg dateTime) as [[d|]|]; [|by left..].
  destruct (trim cfg text) as [trimmed|]; [|by left].
  right. eexists. split; [|reflexivity]. reflexivity.
Qed.

Lemma put_api_tweets_state cfg id text dateTime stamp st :
  (put_api_tweets cfg id text dateTime stamp st).2 = st
  \/ exists updates,
       putUpdates cfg text dateTime = Returns updates
       /\ (put_api_tweets cfg id text dateTime stamp st).2
          = (updateTweet (VStr id) updates stamp st).2.
Proof.
  unfold put_api_tweets.
  destruct (putUpdates cfg text dateTime) as [updates|]; [|by left].
  case_bool_decide; [by left|]. right. exists updates. split; [reflexivity|].
  by destruct (updateTweet (VStr id) updates stamp st).
Qed.

(** ** The idempotency guard *)

Lemma log_ok_nil cfg st st' :
  postedHashes st ⊆ postedHashes st' -> log_ok cfg st [] st'.
Proof.
  intros H. repeat split; [exact H|..].
  - intros t r Hin. by apply not_elem_of_nil in Hin.
  - intros t r Hin. by apply not_elem_of_nil in Hin.
  - intros i j t1 r1 t2 r2 _ Hi. by rewrite lookup_nil in Hi.
Qed.

Lemma log_ok_postTweet cfg call tweet st :
  log_ok cfg st [(tweet, (postTweet cfg call tweet st).2)] (postTweet cfg call tweet st).1.
Proof.
  repeat split.
  - apply postTweet_postedHashes.
  - intros t r Hin Hs. apply list_elem_of_singleton in Hin. injection Hin as -> ->.
    by apply postTweet_succeeded.
  - intros t r Hin Hseen. apply list_elem_of_singleton in Hin. injection Hin as -> ->.
    by rewrite postTweet_duplicate.
  - intros i j t1 r1 t2 r2 Hij Hi Hj.
    apply lookup_lt_Some in Hj. simpl in Hj. lia.
Qed.

Lemma log_ok_app cfg st log1 st1 log2 st2 :
  log_ok cfg st log1 st1 -> log_ok cfg st1 log2 st2 -> log_ok cfg st (log1 ++ log2) st2.
Proof.
  intros (M1 & S1 & D1 & L1) (M2 & S2 & D2 & L2). repeat split.
  - etrans; eassumption.
  - intros t r Hin Hs. apply elem_of_app in Hin as [Hin|Hin]; [|eauto].
    apply M2. eauto.
  - intros t r Hin Hseen. apply elem_of_app in Hin as [Hin|Hin]; [eauto|].
    apply (D2 t r Hin). apply M1, Hseen.
  - intros i j t1 r1 t2 r2 Hij Hi Hj Hs Hh.
    apply lookup_app_Some in Hi as [Hi|[Hlen Hi]];
      apply lookup_app_Some in Hj as [Hj|[Hlen' Hj]].
    + eauto.
    + apply (D2 t2 r2); [eapply list_elem_of_lookup_2, Hj|].
      rewrite <- Hh. apply (S1 t1 r1); [eapply list_elem_of_lookup_2, Hi|exact Hs].
    + apply lookup_lt_Some in Hj. lia.
    + apply (L2 (i - length log1)%nat (j - length log1)%nat t1 r1 t2 r2); auto. lia.
Qed.

Lemma log_ok_schedulerLoop cfg now env due :
  forall i st,
    let r := schedulerLoop cfg now env i due st in
    log_ok cfg st (results r) (final r).
Proof.
  induction due as [|tweet rest IH]; intros i st; simpl.
  - by apply log_ok_nil.
  - pose proof (log_ok_postTweet cfg (env i) tweet st) as H1.
    destruct (postTweet cfg (env i) tweet st) as [st1 result]. simpl in H1.
    destruct (schedulerUpdates now tweet result) as [updates|]; simpl; [|exact H1].
    apply (log_ok_app cfg st [(tweet, result)] st1 _ _ H1).
    eapply (log_ok_app cfg st1 [] _ _ _); [|apply IH].
    apply log_ok_nil.
    by destruct (updateTweet_frame (field "id" tweet) updates (stamp (env i)) st1) as (_ & -> & _).
Qed.

(** The handlers leave the cache alone. *)
Lemma step_postedHashes_api cfg s st :
  match s with
  | Tick _ _ => True
  | _ => postedHashes (step cfg s st).1 = postedHashes st
  end.
Proof.
  destruct s as [now env|uuid text dateTime stamp|id text dateTime stamp|id]; simpl; [done|..].
  - by destruct (post_api_tweets_state cfg uuid text dateTime stamp st)
      as [->|(tweet & _ & ->)].
  - destruct (put_api_tweets_state cfg id text dateTime stamp st)
      as [->|(updates & _ & ->)]; [reflexivity|].
    by destruct (updateTweet_frame (VStr id) updates stamp st) as (_ & Hp & _).
  - reflexivity.
Qed.

Lemma log_ok_step cfg s st :
  log_ok cfg st (step cfg s st).2 (step cfg s st).1.
Proof.
  pose proof (step_postedHashes_api cfg s st) as H.
  destruct s as [now env|uuid text dateTime stamp|id text dateTime stamp|id].
  - apply log_ok_schedulerLoop.
  - apply log_ok_nil. by rewrite H.
  - apply log_ok_nil. by rewrite H.
  - apply log_ok_nil. by rewrite H.
Qed.

Lemma log_ok_run cfg steps :
  forall st, log_ok cfg st (run cfg steps st).2 (run cfg steps st).1.
Proof.
  induction steps as [|s rest IH]; intros st; simpl.
  - by apply log_ok_nil.
  - pose proof (log_ok_step cfg s st) as H1.
    destruct (step cfg s st) as [st1 log1]. simpl in H1.
    specialize (IH st1). destruct (run cfg rest st1) as [st2 log2]. simpl in *.
    eapply log_ok_app; eauto.
Qed.

(** While no two calls overlap: of two dispatches of tweets with the same
    text, the later one is answered as a duplicate once the earlier one
    went out; it is never posted with an id from the API, and the update
    the scheduler writes for it sets status posted and names no
    [tweetId]. *)
Lemma later_dispatch_is_a_duplicate cfg steps st (i j : nat) t1 r1 t2 r2 :
  (i < j)%nat ->
  (run cfg steps st).2 !! i = Some (t1, r1) ->
  (run cfg steps st).2 !! j = Some (t2, r2) ->
  text_of t1 = text_of t2 ->
  succeeded r1 = true ->
  r2 = Duplicate
  /\ (forall id, r2 <> Posted id)
  /\ (forall now, exists updates,
        schedulerUpdates now t2 r2 = Some updates
        /\ ("status", VStr "posted") ∈ updates
        /\ "tweetId" ∉ updates.*1).
Proof.
  intros Hij Hi Hj Htext Hs.
  destruct (log_ok_run cfg steps st) as (_ & _ & _ & Hlater).
  assert (r2 = Duplicate) as ->.
  { apply (Hlater i j t1 r1 t2 r2 Hij Hi Hj Hs). unfold hash_of. by rewrite Htext. }
  split; [reflexivity|]. split; [discriminate|].
  intros now. eexists. split; [reflexivity|]. split.
  - apply list_elem_of_In. simpl. tauto.
  - rewrite list_elem_of_In. simpl. intros [H|[H|[H|[]]]]; discriminate.
Qed.

(** ** Calls of runScheduler that overlap *)

(** [postTweet] is its two halves, one after the other. *)
Lemma postTweet_split cfg call tweet st :
  postTweet cfg call tweet st
  = match Overlap.postTweet_request cfg (clock call) tweet st with
    | (st1, Some result) => (st1, result)
    | (st1, None) => Overlap.postTweet_answer cfg tweet (response call) st1
    end.
Proof.
  unfold Overlap.postTweet_request, Overlap.postTweet_answer.
  postTweet_cases; reflexivity.
Qed.

(** An answer that no call waits for changes nothing. *)
Lemma overlap_idle cfg (n : nat) st :
  Overlap.overlap cfg (replicate n (Overlap.Answer 0)) (Overlap.idle st)
  = (Overlap.idle st, []).
Proof. induction n as [|n IH]; simpl; [reflexivity|]. by rewrite IH. Qed.

(** A call that runs alone, each of its requests answered before anything
    else happens, does what [schedulerLoop] does. *)
Lemma loopFrom_alone cfg now env due :
  forall i st st1 log1 w,
    Overlap.loopFrom cfg now env i due st = (st1, log1, w) ->
    exists (n : nat) log2,
      Overlap.overlap cfg (replicate n (Overlap.Answer 0))
        {| Overlap.shared := st1; Overlap.waiting := option_list w |}
      = (Overlap.idle (final (schedulerLoop cfg now env i due st)), log2)
      /\ log1 ++ log2 = results (schedulerLoop cfg now env i due st).
Proof.
  induction due as [|tweet rest IH]; intros i st st1 log1 w; simpl.
  - intros [= <- <- <-]. by exists 0%nat, [].
  - rewrite postTweet_split.
    destruct (Overlap.postTweet_request cfg (clock (env i)) tweet st) as [sta [result|]].
    + destruct (schedulerUpdates now tweet result) as [updates|].
      * destruct (Overlap.loopFrom cfg now env (S i) rest _) as [[st3 log] w'] eqn:Hrest.
        intros [= <- <- <-]. destruct (IH _ _ _ _ _ Hrest) as (n & log2 & Hrun & Hlog).
        exists n, log2. simpl. split; [exact Hrun|]. by rewrite <- Hlog.
      * intros [= <- <- <-]. by exists 0%nat, [].
    + intros [= <- <- <-]. simpl.
      destruct (Overlap.postTweet_answer cfg tweet (response (env i)) sta)
        as [stb result] eqn:Hanswer.
      destruct (schedulerUpdates now tweet result) as [updates|] eqn:Hupdates.
      * destruct (Overlap.loopFrom cfg now env (S i) rest
                    (updateTweet (field "id" tweet) updates (stamp (env i)) stb).2)
          as [[st3 log] w'] eqn:Hrest.
        destruct (IH _ _ _ _ _ Hrest) as (n & log2 & Hrun & Hlog).
        exists (S n), ((tweet, result) :: log ++ log2). simpl.
        unfold Overlap.resume. simpl. rewrite Hanswer, Hupdates, Hrest. simpl.
        rewrite Hrun. split; [reflexivity|]. by rewrite <- Hlog.
      * exists 1%nat, [(tweet, result)]. simpl.
        unfold Overlap.resume. simpl. by rewrite Hanswer, Hupdates.
Qed.

Lemma timer_alone cfg now env st :
  exists n : nat,
    Overlap.overlap cfg (Overlap.Timer now env :: replicate n (Overlap.Answer 0))
      (Overlap.idle st)
    = (Overlap.idle (final (runScheduler cfg now env st)),
       results (runScheduler cfg now env st)).
Proof.
  unfold runScheduler. simpl. unfold Overlap.start.
  destruct (Overlap.loopFrom cfg now env 0 (dueTweets cfg now st) st)
    as [[st1 log1] w] eqn:Hloop.
  destruct (loopFrom_alone _ _ _ _ _ _ _ _ _ Hloop) as (n & log2 & Hrun & Hlog).
  exists n. simpl. by rewrite Hrun, Hlog.
Qed.

(** C1: the code at the failing input.  The timers are armed 1.05 s before
    the minute, one tweet is due, the client takes 300 ms to answer.  The
    call of the start-up timer is waiting for the client when the minute
    timer starts the second call, which loads the same pending row and
    finds the fingerprint not yet marked: both calls send the text, both
    are answered with an id, and the row ends with the second id.  Next
    to it, a run without overlap: a tweet that was posted under another
    text is edited to the text of a posted one and given a new time; the
    guard answers it as a duplicate, and the row is posted again with the
    id it had, so that two rows with the same text are posted with an
    id. *)
Theorem overlapping_calls_post_the_same_text_twice :
  let r := Overlap.overlap Scenario.cfgLive
             (Scenario.bothTimers ++ [Overlap.Answer 0; Overlap.Answer 0])
             (Overlap.idle Scenario.stLate) in
  let r' := run Scenario.cfgLive Scenario.editThenTick Scenario.stPair in
  let dispatch (d : Row * PostResult) := (field "id" d.1, text_of d.1, d.2) in
  let look (row : Row) :=
    [field "id" row; field "text" row; field "status" row; field "tweetId" row] in
  (map dispatch r.2
   = [(VStr "1", "hello", Posted "1900"); (VStr "1", "hello", Posted "1901")]
   /\ length (Overlap.waiting r.1) = 0%nat
   /\ map look (tweets (Overlap.shared r.1))
      = [[VStr "1"; VStr "hello"; VStr "posted"; VStr "1901"]])
  /\ (map dispatch r'.2
      = [(VStr "1", "hello", Posted "1900"); (VStr "2", "other", Posted "1901");
         (VStr "2", "hello", Duplicate)]
      /\ map look (tweets r'.1)
         = [[VStr "1"; VStr "hello"; VStr "posted"; VStr "1900"];
            [VStr "2"; VStr "hello"; VStr "posted"; VStr "1901"]]).
Proof. vm_compute. repeat split; reflexivity. Qed.

(** ** The rate ledger *)

Lemma getRateLimitUsage_update p d p' d' st :
  getRateLimitUsage p d (updateRateLimitUsage p' d' st)
  = if decide ((p', d') = (p, d)) then getRateLimitUsage p' d' st + 1
    else getRateLimitUsage p d st.
Proof.
  unfold getRateLimitUsage, updateRateLimitUsage. simpl.
  rewrite lookup_insert. case_decide; reflexivity.
Qed.

Lemma getRateLimitUsage_set_limiters p d a b c st :
  getRateLimitUsage p d (set_limiters a b c st) = getRateLimitUsage p d st.
Proof. reflexivity. Qed.

Lemma getRateLimitUsage_set_postedHashes p d s st :
  getRateLimitUsage p d (set_postedHashes s st) = getRateLimitUsage p d st.
Proof. reflexivity. Qed.

Lemma getRateLimitUsage_ext p d st st' :
  rate_limits st' = rate_limits st -> getRateLimitUsage p d st' = getRateLimitUsage p d st.
Proof. unfold getRateLimitUsage. by intros ->. Qed.

(** The counters after the three updates of an attempt: one more in the
    current bucket of each period, the others as before. *)
Lemma counted_daily cfg now st d :
  getRateLimitUsage "daily" d (counted cfg now st)
  = getRateLimitUsage "daily" d st + (if decide (today now = d) then 1 else 0).
Proof.
  unfold counted. rewrite !getRateLimitUsage_update.
  repeat case_decide; simplify_eq; lia.
Qed.

Lemma counted_hourly cfg now st d :
  getRateLimitUsage "hourly" d (counted cfg now st)
  = getRateLimitUsage "hourly" d st + (if decide (currentHour cfg now = d) then 1 else 0).
Proof.
  unfold counted. rewrite !getRateLimitUsage_update.
  repeat case_decide; simplify_eq; lia.
Qed.

Lemma counted_minute cfg now st d :
  getRateLimitUsage "minute" d (counted cfg now st)
  = getRateLimitUsage "minute" d st + (if decide (currentMinute cfg now = d) then 1 else 0).
Proof.
  unfold counted. rewrite !getRateLimitUsage_update.
  repeat case_decide; simplify_eq; lia.
Qed.

(** What [postTweet] does to the rate_limits table. *)
Lemma postTweet_rate_limits_passed cfg call tweet st :
  passedRateCheck (postTweet cfg call tweet st).2 = true ->
  rate_limits (postTweet cfg call tweet st).1 = rate_limits (counted cfg (clock call) st).
Proof. postTweet_cases; try discriminate; intros _; reflexivity. Qed.

Lemma postTweet_rate_limits_stopped cfg call tweet st :
  passedRateCheck (postTweet cfg call tweet st).2 = false ->
  rate_limits (postTweet cfg call tweet st).1 = rate_limits st.
Proof. postTweet_cases; try discriminate; intros _; reflexivity. Qed.

(** An attempt gets past the database check only below the three limits. *)
Lemma postTweet_passed_below cfg call tweet st :
  passedRateCheck (postTweet cfg call tweet st).2 = true ->
  getRateLimitUsage "daily" (today (clock call)) st < TWEET_DAILY_LIMIT
  /\ getRateLimitUsage "hourly" (currentHour cfg (clock call)) st < TWEET_HOURLY_LIMIT
  /\ getRateLimitUsage "minute" (currentMinute cfg (clock call)) st < TWEET_MINUTE_LIMIT.
Proof.
  postTweet_cases; try discriminate; intros _;
    repeat match goal with H : (_ <=? _) = false |- _ => apply Z.leb_gt in H end; done.
Qed.

Lemma postTweet_within_limits cfg call tweet st :
  within_limits st -> within_limits (postTweet cfg call tweet st).1.
Proof.
  intros H date.
  destruct (passedRateCheck (postTweet cfg call tweet st).2) eqn:Hp.
  - rewrite !(getRateLimitUsage_ext _ _ _ _ (postTweet_rate_limits_passed _ _ _ _ Hp)).
    rewrite counted_daily, counted_hourly, counted_minute.
    destruct (postTweet_passed_below cfg call tweet st Hp) as (Bd & Bh & Bm).
    destruct (H date) as (Hd & Hh & Hm).
    destruct (decide (today (clock call) = date)) as [Ed|_]; [rewrite Ed in Bd|];
      (destruct (decide (currentHour cfg (clock call) = date)) as [Eh|_]; [rewrite Eh in Bh|]);
      (destruct (decide (currentMinute cfg (clock call) = date)) as [Em|_]; [rewrite Em in Bm|]);
      lia.
  - rewrite !(getRateLimitUsage_ext _ _ _ _ (postTweet_rate_limits_stopped _ _ _ _ Hp)).
    apply H.
Qed.

Lemma within_limits_fresh st : rate_limits st = ∅ -> within_limits st.
Proof.
  intros H date. unfold getRateLimitUsage. rewrite H, !lookup_empty. simpl.
  unfold TWEET_DAILY_LIMIT, TWEET_HOURLY_LIMIT, TWEET_MINUTE_LIMIT. lia.
Qed.

(** Invariants that do not read the tweets table are kept by every step
    once [postTweet] keeps them. *)
Section Frame.

Context (cfg : Config) (P : State -> Prop).
Hypothesis P_postTweet : forall call tweet st, P st -> P (postTweet cfg call tweet st).1.
Hypothesis P_set_tweets : forall rows st, P st -> P (set_tweets rows st).

Lemma frame_updateTweet id updates stamp st :
  P st -> P (updateTweet id updates stamp st).2.
Proof. intros H. unfold updateTweet. case_match; simpl; auto. Qed.

Lemma frame_schedulerLoop now env due :
  forall i st, P st -> P (final (schedulerLoop cfg now env i due st)).
Proof.
  induction due as [|tweet rest IH]; intros i st H; simpl; [exact H|].
  pose proof (P_postTweet (env i) tweet st H) as H1.
  destruct (postTweet cfg (env i) tweet st) as [st1 result]. simpl in H1.
  destruct (schedulerUpdates now tweet result); simpl; [|exact H1].
  apply IH, frame_updateTweet, H1.
Qed.

Lemma frame_step s st : P st -> P (step cfg s st).1.
Proof.
  intros H. destruct s as [now env|uuid text dateTime stamp|id text dateTime stamp|id]; simpl.
  - apply frame_schedulerLoop, H.
  - destruct (post_api_tweets_state cfg uuid text dateTime stamp st)
      as [->|(tweet & _ & ->)]; [exact H|]. by apply P_set_tweets.
  - destruct (put_api_tweets_state cfg id text dateTime stamp st)
      as [->|(updates & _ & ->)]; [exact H|]. by apply frame_updateTweet.
  - unfold delete_api_tweets, deleteTweet. simpl. auto.
Qed.

Lemma frame_run steps : forall st, P st -> P (run cfg steps st).1.
Proof.
  induction steps as [|s rest IH]; intros st H; simpl; [exact H|].
  pose proof (frame_step s st H) as H1.
  destruct (step cfg s st) as [st1 log1]. simpl in H1.
  specialize (IH st1 H1). destruct (run cfg rest st1) as [st2 log2]. exact IH.
Qed.

End Frame.

(** C2. Every counter of the rate_limits table stays within the limit of its
    period (150 per day, 25 per hour, 3 per minute) throughout a process
    lifetime: a table within its limits is still within them after any
    sequence of ticks and API calls. *)
Theorem durable_usage_within_limits cfg steps st :
  within_limits st -> within_limits (run cfg steps st).1.
Proof.
  apply frame_run.
  - intros call tweet st0. apply postTweet_within_limits.
  - intros rows st0 H. exact H.
Qed.

Lemma durable_usage_within_limits_witness :
  within_limits
    (run Scenario.cfgDry
         [Tick Scenario.T0 (Scenario.answers ResponseNoData Scenario.T0)]
         Scenario.stFive).1
  /\ getRateLimitUsage "minute" (currentMinute Scenario.cfgDry Scenario.T0)
       (run Scenario.cfgDry
            [Tick Scenario.T0 (Scenario.answers ResponseNoData Scenario.T0)]
            Scenario.stFive).1 = 3.
Proof.
  split; [|vm_compute; reflexivity].
  apply (durable_usage_within_limits Scenario.cfgDry
           [Tick Scenario.T0 (Scenario.answers ResponseNoData Scenario.T0)]
           Scenario.stFive).
  apply within_limits_fresh. reflexivity.
Defined.

Lemma postTweet_counters cfg call tweet st :
  passedRateCheck (postTweet cfg call tweet st).2 = true ->
  let st' := (postTweet cfg call tweet st).1 in
  let now := clock call in
  getRateLimitUsage "daily" (today now) st'
    = getRateLimitUsage "daily" (today now) st + 1
  /\ getRateLimitUsage "hourly" (currentHour cfg now) st'
    = getRateLimitUsage "hourly" (currentHour cfg now) st + 1
  /\ getRateLimitUsage "minute" (currentMinute cfg now) st'
    = getRateLimitUsage "minute" (currentMinute cfg now) st + 1.
Proof.
  intros Hp st' now. subst st' now.
  rewrite !(getRateLimitUsage_ext _ _ _ _ (postTweet_rate_limits_passed _ _ _ _ Hp)).
  rewrite counted_daily, counted_hourly, counted_minute.
  by rewrite !decide_True.
Qed.

(** C4. As amended: the counters of the current day, hour and minute buckets
    go up by one as soon as an attempt has passed the rate check and the
    in-memory consume, before the dispatch: this holds whether the dispatch
    then succeeds, is simulated, fails, or finds no client.  An attempt
    stopped as a duplicate or by the rate check leaves the table as it
    is. *)
Theorem durable_counters_move_before_dispatch cfg call tweet st :
  let st' := (postTweet cfg call tweet st).1 in
  let now := clock call in
  match (postTweet cfg call tweet st).2 with
  | Duplicate | RateLimit _ => rate_limits st' = rate_limits st
  | DryRunOk | Posted _ | Failure _ | Undefined =>
      getRateLimitUsage "daily" (today now) st'
        = getRateLimitUsage "daily" (today now) st + 1
      /\ getRateLimitUsage "hourly" (currentHour cfg now) st'
        = getRateLimitUsage "hourly" (currentHour cfg now) st + 1
      /\ getRateLimitUsage "minute" (currentMinute cfg now) st'
        = getRateLimitUsage "minute" (currentMinute cfg now) st + 1
  end.
Proof.
  intros st' now.
  pose proof (postTweet_counters cfg call tweet st) as Hpassed.
  pose proof (postTweet_rate_limits_stopped cfg call tweet st) as Hstopped.
  fold st' now in Hpassed, Hstopped. revert Hpassed Hstopped.
  destruct (postTweet cfg call tweet st).2; simpl; intros Hpassed Hstopped;
    solve [exact (Hstopped eq_refl) | exact (Hpassed eq_refl)].
Qed.

(** Counterexample to C4 as stated: the publish call is rejected with a 503, the result
    is a failure, and the three counters have gone from 0 to 1; the next
    tick, a minute later, finds the day and hour counters still at 1 before
    it adds its own attempt. *)
Lemma failed_dispatch_consumes_budget :
  let call := Scenario.answers (ResponseError "503") Scenario.T0 0%nat in
  let tweet := Scenario.pendingTweet "1" "hello" (Scenario.T0 - 1000) in
  let st' := (postTweet Scenario.cfgLive call tweet Scenario.stOne).1 in
  (postTweet Scenario.cfgLive call tweet Scenario.stOne).2 = Failure "503"
  /\ rate_limits Scenario.stOne = ∅
  /\ getRateLimitUsage "daily" (today Scenario.T0) st' = 1
  /\ getRateLimitUsage "hourly" (currentHour Scenario.cfgLive Scenario.T0) st' = 1
  /\ getRateLimitUsage "minute" (currentMinute Scenario.cfgLive Scenario.T0) st' = 1
  /\ getRateLimitUsage "daily" (today (Scenario.T0 + 60000))
       (final (runScheduler Scenario.cfgLive Scenario.T0
                 (Scenario.answers (ResponseError "503") Scenario.T0) Scenario.stOne)) = 1.
Proof. vm_compute. repeat split; reflexivity. Qed.

(** ** The snapshot of checkRateLimits *)







(** ** The primary key *)

Lemma unique_ids_tail x rows : unique_ids (x :: rows) -> unique_ids rows.
Proof.
  unfold unique_ids. rewrite fmap_cons, filter_cons.
  case_decide; [|done]. by intros [_ Htail]%NoDup_cons.
Qed.

Lemma unique_ids_head x rows b :
  unique_ids (x :: rows) -> b ∈ rows ->
  field "id" x = field "id" b -> field "id" x <> VNull -> False.
Proof.
  unfold unique_ids. rewrite fmap_cons, filter_cons. intros H Hb Heq Hnn.
  rewrite decide_True in H by exact Hnn. apply NoDup_cons in H as [Hx _].
  apply Hx, list_elem_of_filter. split; [exact Hnn|].
  rewrite Heq. by apply list_elem_of_fmap_2.
Qed.

Lemma unique_ids_lookup rows : forall (i j : nat) a b,
  unique_ids rows -> rows !! i = Some a -> rows !! j = Some b ->
  field "id" a = field "id" b -> field "id" a <> VNull -> i = j.
Proof.
  induction rows as [|x rest IH]; intros i j a b Hu Hi Hj Heq Hnn.
  - by rewrite lookup_nil in Hi.
  - destruct i as [|i], j as [|j]; simpl in Hi, Hj.
    + reflexivity.
    + injection Hi as ->. exfalso.
      apply (unique_ids_head a rest b Hu); [eapply list_elem_of_lookup_2, Hj|done..].
    + injection Hj as ->. exfalso.
      apply (unique_ids_head b rest a Hu); [eapply list_elem_of_lookup_2, Hi|congruence..].
    + f_equal. apply (IH i j a b); [eapply unique_ids_tail, Hu|done..].
Qed.

Lemma unique_ids_perm rows rows' : rows ≡ₚ rows' -> unique_ids rows -> unique_ids rows'.
Proof. unfold unique_ids. by intros ->. Qed.

Lemma unique_ids_filter (f : Row -> bool) rows :
  unique_ids rows -> unique_ids (List.filter f rows).
Proof.
  induction rows as [|x rest IH]; intros Hu; simpl; [exact Hu|].
  specialize (IH (unique_ids_tail _ _ Hu)).
  destruct (f x); [|exact IH].
  unfold unique_ids in *. rewrite fmap_cons, filter_cons in Hu |- *.
  case_decide as Hnn; [|exact IH].
  apply NoDup_cons in Hu as [Hx _]. apply NoDup_cons. split; [|exact IH].
  intros Hin. apply Hx.
  apply list_elem_of_filter in Hin as [_ Hin]. apply list_elem_of_filter. split; [exact Hnn|].
  apply list_elem_of_fmap in Hin as (y & Hy & Hin). rewrite Hy.
  apply list_elem_of_fmap_2. apply list_elem_of_In, filter_In in Hin as [Hin _].
  by apply list_elem_of_In.
Qed.

(** ** One tick *)

Lemma insert_by_runAt_perm row rows : insert_by_runAt row rows ≡ₚ row :: rows.
Proof.
  induction rows as [|x rest IH]; simpl; [done|].
  case_match; [done|]. rewrite IH. apply Permutation_swap.
Qed.

Lemma loadTweets_perm st : loadTweets st ≡ₚ tweets st.
Proof.
  unfold loadTweets. induction (tweets st) as [|x rest IH]; simpl; [done|].
  by rewrite insert_by_runAt_perm, IH.
Qed.

Lemma dueTweets_elem cfg now st d :
  d ∈ dueTweets cfg now st -> d ∈ tweets st /\ isDue cfg now d = true.
Proof.
  unfold dueTweets. rewrite list_elem_of_In, filter_In, <- list_elem_of_In.
  by rewrite loadTweets_perm.
Qed.

Lemma dueTweets_unique_ids cfg now st :
  primary_key st -> unique_ids (dueTweets cfg now st).
Proof.
  intros H. apply unique_ids_filter.
  eapply unique_ids_perm; [symmetry; apply loadTweets_perm|exact H].
Qed.

(** The due filter reads [status] and [runAt] and nothing else. *)
Lemma isDue_spec cfg now tweet :
  isDue cfg now tweet = true
  <-> field "status" tweet = VStr "pending"
      /\ exists runAt, parseScheduledDate cfg (field "runAt" tweet) = Some runAt /\ runAt <= now.
Proof.
  unfold isDue.
  destruct (bool_decide_reflect (field "status" tweet = VStr "pending")) as [Hs|Hs]; simpl.
  - destruct (parseScheduledDate cfg (field "runAt" tweet)) as [t|].
    + rewrite Z.leb_le. split; [eauto|]. by intros [_ (t' & [= <-] & Hle)].
    + split; [discriminate|]. by intros [_ (t' & [=] & _)].
  - split; [discriminate|]. by intros [? _].
Qed.

Lemma isDue_ignores_nextRetryAt cfg now tweet v :
  isDue cfg now (<["nextRetryAt" := v]> tweet) = isDue cfg now tweet.
Proof. unfold isDue, field. by rewrite !lookup_insert_ne. Qed.

Lemma results_lookup_due cfg now env due :
  forall i st (p : nat) d res,
    results (schedulerLoop cfg now env i due st) !! p = Some (d, res) ->
    due !! p = Some d.
Proof.
  induction due as [|tweet rest IH]; intros i st p d res; simpl.
  - by rewrite lookup_nil.
  - destruct (postTweet cfg (env i) tweet st) as [st1 result].
    destruct (schedulerUpdates now tweet result) as [updates|]; simpl.
    + destruct p as [|p]; simpl; [by intros [= -> _]|]. apply IH.
    + destruct p as [|p]; simpl; [by intros [= -> _]|]. by rewrite lookup_nil.
Qed.

(** A row stays as it is through the loop unless a due tweet with its id
    reaches an update that SQLite accepts. *)
Lemma schedulerLoop_lookup cfg now env due :
  forall i st (k : nat) row,
    tweets st !! k = Some row ->
    (forall d res, (d, res) ∈ results (schedulerLoop cfg now env i due st) ->
                   persists res = true -> id_matches (field "id" d) row = false) ->
    tweets (final (schedulerLoop cfg now env i due st)) !! k = Some row.
Proof.
  induction due as [|tweet rest IH]; intros i st k row Hk Hother; simpl in *; [exact Hk|].
  pose proof (postTweet_tweets cfg (env i) tweet st) as Ht.
  destruct (postTweet cfg (env i) tweet st) as [st1 result]. simpl in Ht.
  destruct (schedulerUpdates now tweet result) as [updates|] eqn:Hu; simpl in *.
  - apply IH.
    + destruct (persists result) eqn:Hp.
      * apply updateTweet_lookup_other; [by rewrite Ht|].
        apply (Hother tweet result); [left|exact Hp].
      * rewrite (schedulerUpdates_not_persisted _ _ _ _ _ _ _ Hu Hp). simpl. by rewrite Ht.
    + intros d res Hin. apply Hother. by right.
  - by rewrite Ht.
Qed.

Lemma schedulerLoop_ids cfg now env due :
  forall i st,
    field "id" <$> tweets (final (schedulerLoop cfg now env i due st))
    = field "id" <$> tweets st.
Proof.
  induction due as [|tweet rest IH]; intros i st; simpl; [reflexivity|].
  pose proof (postTweet_tweets cfg (env i) tweet st) as Ht.
  destruct (postTweet cfg (env i) tweet st) as [st1 result]. simpl in Ht.
  destruct (schedulerUpdates now tweet result) as [updates|]; simpl.
  - by rewrite IH, updateTweet_ids, Ht.
  - by rewrite Ht.
Qed.

Lemma runScheduler_primary_key cfg now env st :
  primary_key st -> primary_key (final (runScheduler cfg now env st)).
Proof. unfold primary_key, unique_ids, runScheduler. by rewrite schedulerLoop_ids. Qed.

Lemma runScheduler_terminal cfg now env st (k : nat) row :
  primary_key st -> tweets st !! k = Some row ->
  field "status" row <> VStr "pending" ->
  tweets (final (runScheduler cfg now env st)) !! k = Some row.
Proof.
  intros Hpk Hk Hterm. apply schedulerLoop_lookup; [exact Hk|].
  intros d res Hin _. apply id_matches_false_iff.
  destruct (decide (field "id" d = VNull)) as [|Hnn]; [by left|right]. intros Heq.
  apply list_elem_of_lookup in Hin as [p Hp]. apply results_lookup_due in Hp.
  apply list_elem_of_lookup_2 in Hp. apply dueTweets_elem in Hp as [Hd Hdue].
  apply list_elem_of_lookup in Hd as [j Hj].
  assert (k = j) as <- by (eapply (unique_ids_lookup _ k j row d Hpk); congruence).
  apply isDue_spec in Hdue as [Hdue _]. congruence.
Qed.

(** Through ticks that do not overlap, a row whose status is posted or
    failed is never selected by the due filter, and (ids being unique) it
    is the same row, field for field, after any number of them. *)
Lemma terminal_row_through_ticks cfg l st (k : nat) row :
  primary_key st ->
  tweets st !! k = Some row ->
  field "status" row = VStr "posted" \/ field "status" row = VStr "failed" ->
  (forall now, isDue cfg now row = false)
  /\ tweets (run cfg (ticks l) st).1 !! k = Some row.
Proof.
  intros Hpk Hk Hterm.
  assert (field "status" row <> VStr "pending") as Hnp
    by (destruct Hterm as [-> | ->]; discriminate).
  split.
  { intros now. unfold isDue. by rewrite bool_decide_eq_false_2. }
  revert st Hpk Hk. induction l as [|[now env] rest IH]; intros st Hpk Hk; simpl; [exact Hk|].
  specialize (IH (final (runScheduler cfg now env st))
                 (runScheduler_primary_key cfg now env st Hpk)
                 (runScheduler_terminal cfg now env st k row Hpk Hk Hnp)).
  fold (ticks rest). destruct (run cfg (ticks rest) _) as [st2 log2]. exact IH.
Qed.

(** C8: the code at the failing input.  The timers are armed 1.05 s before
    the minute, one tweet is due, the client takes 300 ms to answer.  The
    call of the minute timer loads the row while it is pending.  The
    answer to the first call makes the row posted, with the id 1900; no
    edit follows.  The answer to the second call then writes the posted
    row again: [tweetId], [postedAt] and [updatedAt] change (and
    [attempts] is set from the row as the second call had loaded it). *)
Theorem overlapping_call_rewrites_a_posted_row :
  let dispatch (d : Row * PostResult) := (field "id" d.1, d.2) in
  let loaded (w : Overlap.Waiting) :=
    (field "id" (Overlap.w_tweet w), field "status" (Overlap.w_tweet w)) in
  let look (p : Overlap.Process) :=
    map (fun row => [field "status" row; field "attempts" row; field "tweetId" row;
                     field "postedAt" row; field "updatedAt" row])
        (tweets (Overlap.shared p)) in
  let before := Overlap.overlap Scenario.cfgLive
                  (Scenario.bothTimers ++ [Overlap.Answer 0])
                  (Overlap.idle Scenario.stLate) in
  let after := Overlap.overlap Scenario.cfgLive [Overlap.Answer 0] before.1 in
  map dispatch before.2 = [(VStr "1", Posted "1900")]
  /\ look before.1
     = [[VStr "posted"; VNum 1; VStr "1900"; VDate (Scenario.T0 - 50);
         VDate (Scenario.T0 + 250)]]
  /\ map loaded (Overlap.waiting before.1) = [(VStr "1", VStr "pending")]
  /\ map dispatch after.2 = [(VStr "1", Posted "1901")]
  /\ look after.1
     = [[VStr "posted"; VNum 1; VStr "1901"; VDate Scenario.T0;
         VDate (Scenario.T0 + 300)]].
Proof. vm_compute. repeat split; reflexivity. Qed.

(** C5. A due tweet that [postTweet] turns away for the rate limit has, after
    the tick, the row it had before: attempts is not incremented and the
    status is still pending.  (The update the scheduler builds for it does
    carry attempts + 1, but it never reaches the table: without a
    [resetTime] building it throws, with one it names the column
    [nextRetryAt], which the table does not have.) *)
Theorem rate_denial_is_not_an_attempt cfg now env st (k : nat) tweet hint :
  primary_key st ->
  tweets st !! k = Some tweet ->
  (tweet, RateLimit hint) ∈ results (runScheduler cfg now env st) ->
  exists row,
    tweets (final (runScheduler cfg now env st)) !! k = Some row
    /\ attempts_of row = attempts_of tweet
    /\ field "status" row = VStr "pending"
    /\ row = tweet.
Proof.
  intros Hpk Hk Hin. exists tweet.
  apply list_elem_of_lookup in Hin as [p Hp].
  pose proof (results_lookup_due _ _ _ _ _ _ _ _ _ Hp) as Hdue.
  split; [|split; [reflexivity|split; [|reflexivity]]].
  - apply schedulerLoop_lookup; [exact Hk|].
    intros d res Hd Hpers. apply id_matches_false_iff.
    destruct (decide (field "id" d = VNull)) as [|Hnn]; [by left|right]. intros Heq.
    apply list_elem_of_lookup in Hd as [q Hq].
    pose proof (results_lookup_due _ _ _ _ _ _ _ _ _ Hq) as Hdq.
    assert (p = q) as ->.
    { apply (unique_ids_lookup _ p q tweet d (dueTweets_unique_ids cfg now st Hpk));
        congruence. }
    unfold runScheduler in Hp. rewrite Hq in Hp. injection Hp as _ ->. discriminate.
  - apply list_elem_of_lookup_2 in Hdue. apply dueTweets_elem in Hdue as [_ Hdue].
    by apply isDue_spec in Hdue as [Hdue _].
Qed.

Lemma rate_denial_is_not_an_attempt_witness :
  let env := Scenario.answers ResponseNoData Scenario.T0 in
  let tweet := Scenario.pendingTweet "4" "d" (Scenario.T0 - 20000) in
  let tweet' := Scenario.pendingTweet "4" "d" (Scenario.T0 - 5000) in
  (map snd (results (runScheduler Scenario.cfgDry Scenario.T0 env Scenario.stFive))
   = [DryRunOk; DryRunOk; DryRunOk; RateLimit None]
   /\ exists row,
       tweets (final (runScheduler Scenario.cfgDry Scenario.T0 env Scenario.stFive)) !! 3%nat
       = Some row
       /\ attempts_of row = attempts_of tweet
       /\ field "status" row = VStr "pending"
       /\ row = tweet)
  /\ (map snd (results (runScheduler Scenario.cfgDry Scenario.T0 env Scenario.stFour))
      = [RateLimit (Some 50000)]
      /\ exists row,
          tweets (final (runScheduler Scenario.cfgDry Scenario.T0 env Scenario.stFour)) !! 3%nat
          = Some row
          /\ attempts_of row = attempts_of tweet'
          /\ field "status" row = VStr "pending"
          /\ row = tweet').
Proof.
  intros env tweet tweet'. split; (split; [vm_compute; reflexivity|]).
  - apply (rate_denial_is_not_an_attempt Scenario.cfgDry Scenario.T0 env Scenario.stFive
             3 tweet None).
    + unfold primary_key, unique_ids. apply (bool_decide_unpack _). vm_compute. exact I.
    + reflexivity.
    + apply (bool_decide_unpack _). vm_compute. exact I.
  - apply (rate_denial_is_not_an_attempt Scenario.cfgDry Scenario.T0 env Scenario.stFour
             3 tweet' (Some 50000)).
    + unfold primary_key, unique_ids. apply (bool_decide_unpack _). vm_compute. exact I.
    + reflexivity.
    + apply (bool_decide_unpack _). vm_compute. exact I.
Defined.

(** A denial by the database check carries no [resetTime]; the loop ends on
    it, by the exception. *)
Lemma database_denial_ends_the_loop cfg now env due :
  forall i st tweet,
    let r := schedulerLoop cfg now env i due st in
    (tweet, RateLimit None) ∈ results r ->
    crashed r = true /\ last (results r) = Some (tweet, RateLimit None).
Proof.
  induction due as [|d rest IH]; intros i st tweet; simpl.
  - intros Hin. by apply not_elem_of_nil in Hin.
  - destruct (postTweet cfg (env i) d st) as [st1 result].
    destruct (schedulerUpdates now d result) as [updates|] eqn:Hu; simpl.
    + intros [Heq|Hin]%elem_of_cons.
      * injection Heq as <- <-. simpl in Hu. discriminate Hu.
      * destruct (IH _ _ _ Hin) as [Hc Hl]. split; [exact Hc|].
        destruct (results (schedulerLoop cfg now env (S i) rest _)); [discriminate Hl|exact Hl].
    + intros Hin%list_elem_of_singleton. injection Hin as -> ->. done.
Qed.

(** C6: the code at the failing input.  Five tweets are due in DRY_RUN on an
    unused budget; the fifth repeats the text of the first.  Three are
    posted; the fourth is refused by the minute limit, and the tick ends
    there with an exception (caught and logged by [runScheduler]): the
    fourth tweet gets no [nextRetryAt], and the fifth, which [postTweet]
    would have answered as a duplicate, is not handled in this tick. *)
Theorem rate_denial_aborts_the_tick :
  let env := Scenario.answers ResponseNoData Scenario.T0 in
  let r := runScheduler Scenario.cfgDry Scenario.T0 env Scenario.stFive in
  length (dueTweets Scenario.cfgDry Scenario.T0 Scenario.stFive) = 5%nat
  /\ map snd (results r) = [DryRunOk; DryRunOk; DryRunOk; RateLimit None]
  /\ crashed r = true
  /\ summary (final r)
     = [[VStr "1"; VStr "posted"; VNum 1; VNull; VNull; VNull];
        [VStr "2"; VStr "posted"; VNum 1; VNull; VNull; VNull];
        [VStr "3"; VStr "posted"; VNum 1; VNull; VNull; VNull];
        [VStr "4"; VStr "pending"; VNum 0; VNull; VNull; VNull];
        [VStr "5"; VStr "pending"; VNum 0; VNull; VNull; VNull]]
  /\ (postTweet Scenario.cfgDry (env 4%nat)
        (Scenario.pendingTweet "5" "a" (Scenario.T0 - 10000)) (final r)).2 = Duplicate.
Proof. vm_compute. repeat split; reflexivity. Qed.

(** The deferral the scheduler computes is not stored.  A due tweet fails
    with a 503 at the tick of [T0]; the scheduler builds an update with
    [nextRetryAt] five minutes ahead, which SQLite refuses, so the row is
    left as it was, without a [nextRetryAt]; at the next tick, one minute
    later, the tweet is in the due subset and is dispatched again. *)
Lemma deferral_is_not_stored :
  let tweet := Scenario.pendingTweet "1" "hello" (Scenario.T0 - 1000) in
  let env := Scenario.answers (ResponseError "503") in
  let r1 := runScheduler Scenario.cfgLive Scenario.T0 (env Scenario.T0) Scenario.stOne in
  let r2 := runScheduler Scenario.cfgLive (Scenario.T0 + 60000)
              (env (Scenario.T0 + 60000)) (final r1) in
  results r1 = [(tweet, Failure "503")]
  /\ schedulerUpdates Scenario.T0 tweet (Failure "503")
     = Some [("attempts", VNum 1); ("nextRetryAt", VDate (Scenario.T0 + 300000))]
  /\ tweets (final r1) = [tweet]
  /\ dueTweets Scenario.cfgLive (Scenario.T0 + 60000) (final r1) = [tweet]
  /\ results r2 = [(tweet, Failure "503")].
Proof. repeat split; reflexivity. Qed.

(** ** The rows of the table *)
















(** ** Editing a tweet *)

Lemma updateTweet_resolves id updates stamp st :
  let fields := List.filter (fun kv : string * Value => negb (String.eqb kv.1 "id")) updates in
  forallb (fun kv : string * Value => bool_decide (kv.1 ∈ tweets_columns)) fields = true ->
  fields <> [] ->
  (updateTweet id updates stamp st).1 = true.
Proof.
  intros fields Hcols Hne. unfold updateTweet. fold fields.
  by rewrite Hcols, bool_decide_eq_false_2 by exact Hne.
Qed.

(** The [updates] object of [PUT], by what the body carries. *)
Lemma putUpdates_returns cfg text dateTime updates :
  putUpdates cfg text dateTime = Returns updates ->
  updates
  = match text with BStr s => [("text", VStr (String_trim cfg s))] | _ => [] end
    ++ match scheduledDate cfg dateTime with
       | Some d => [("runAt", VDate d); ("status", VStr "pending"); ("attempts", VNum 0)]
       | None => []
       end
  /\ (text = BUndefined \/ exists s, text = BStr s).
Proof.
  unfold putUpdates, scheduledDate, trim.
  destruct text; try discriminate;
    (destruct (falsy dateTime);
     [|destruct (parseScheduledDate_body cfg dateTime) as [[d|]|]; try discriminate]);
    intros [= <-]; rewrite ?app_nil_r; eauto.
Qed.

(** C9. As amended: an edit with a scheduled time that parses sets [runAt],
    puts the status back to pending and attempts to 0, whatever the status
    was; it leaves [error] (and [tweetId]) as stored, and there is no
    [nextRetryAt] to clear.  An edit of the text alone stores the trimmed
    text and leaves status, attempts, error and [runAt] as they are.  An
    edit with neither is answered with 400 and changes nothing; a body
    that makes the handler throw (a [text] that is not a text, a
    [dateTime] that is a boolean, a number or an object) is answered with
    500 and changes nothing. *)
Theorem edit_resets_only_on_time_change cfg id text dateTime stamp st (k : nat) row :
  tweets st !! k = Some row ->
  field "id" row = VStr id ->
  let r := put_api_tweets cfg id text dateTime stamp st in
  match putUpdates cfg text dateTime with
  | Throws => r = (500, st)
  | Returns _ =>
      match scheduledDate cfg dateTime, text with
      | Some runAt, _ =>
          r.1 = 200
          /\ exists row', tweets r.2 !! k = Some row'
               /\ field "runAt" row' = VDate runAt
               /\ field "status" row' = VStr "pending"
               /\ field "attempts" row' = VNum 0
               /\ field "error" row' = field "error" row
               /\ field "nextRetryAt" row' = field "nextRetryAt" row
               /\ field "tweetId" row' = field "tweetId" row
               /\ field "text" row'
                  = match text with
                    | BStr s => VStr (String_trim cfg s)
                    | _ => field "text" row
                    end
      | None, BStr s =>
          r.1 = 200
          /\ exists row', tweets r.2 !! k = Some row'
               /\ field "text" row' = VStr (String_trim cfg s)
               /\ field "status" row' = field "status" row
               /\ field "attempts" row' = field "attempts" row
               /\ field "error" row' = field "error" row
               /\ field "runAt" row' = field "runAt" row
      | None, _ => r = (400, st)
      end
  end.
Proof.
  intros Hk Hid r. subst r.
  assert (id_matches (VStr id) row = true) as Hm.
  { unfold id_matches. by rewrite !bool_decide_eq_true_2. }
  unfold put_api_tweets.
  destruct (putUpdates cfg text dateTime) as [updates|] eqn:Hu; [|reflexivity].
  apply putUpdates_returns in Hu as [-> Htext].
  destruct Htext as [-> | [s ->]]; destruct (scheduledDate cfg dateTime) as [d|];
    cbn [app]; try reflexivity.
  all: rewrite bool_decide_eq_false_2 by discriminate.
  all: match goal with |- context [updateTweet ?a ?b ?c ?d] =>
         pose proof (updateTweet_lookup_match a b c d k row eq_refl ltac:(discriminate) Hk Hm) as Hr;
         pose proof (updateTweet_resolves a b c d eq_refl ltac:(discriminate)) as Hok;
         destruct (updateTweet a b c d) as [ok st1] end;
       cbn [fst snd] in *; subst ok; split; [reflexivity|]; eexists; split; [exact Hr|].
  all: unfold field, assign; simpl; by simplify_map_eq.
Qed.

Lemma edit_resets_only_on_time_change_witness :
  let st := startServer Scenario.cfgLive Scenario.T0 [Scenario.failedTweet] ∅ in
  let r := put_api_tweets Scenario.cfgLive "7" BUndefined (BStr "2025-09-08T23:02")
             Scenario.T0 st in
  scheduledDate Scenario.cfgLive (BStr "2025-09-08T23:02") = Some 1757361720000
  /\ (r.1 = 200
      /\ exists row', tweets r.2 !! 0%nat = Some row'
           /\ field "runAt" row' = VDate 1757361720000
           /\ field "status" row' = VStr "pending"
           /\ field "attempts" row' = VNum 0
           /\ field "error" row' = field "error" Scenario.failedTweet
           /\ field "nextRetryAt" row' = field "nextRetryAt" Scenario.failedTweet
           /\ field "tweetId" row' = field "tweetId" Scenario.failedTweet
           /\ field "text" row' = field "text" Scenario.failedTweet).
Proof.
  intros st r. split; [reflexivity|].
  apply (edit_resets_only_on_time_change Scenario.cfgLive "7" BUndefined
           (BStr "2025-09-08T23:02") Scenario.T0 st 0 Scenario.failedTweet).
  - reflexivity.
  - reflexivity.
Defined.

(** Counterexample to C9 as stated.  A failed tweet (five attempts, a stored error) is
    edited: with a new time it is pending again with attempts 0, and still
    carries the error; with a new text alone it stays failed with its five
    attempts. *)
Lemma edit_keeps_error_and_text_edit_resets_nothing :
  let st := startServer Scenario.cfgLive Scenario.T0 [Scenario.failedTweet] ∅ in
  summary (put_api_tweets Scenario.cfgLive "7" BUndefined (BStr "2025-09-08T23:02")
             Scenario.T0 st).2
  = [[VStr "7"; VStr "pending"; VNum 0; VNull; VStr "503 Service Unavailable"; VNull]]
  /\ summary (put_api_tweets Scenario.cfgLive "7" (BStr "  hello again ") BUndefined
                Scenario.T0 st).2
     = [[VStr "7"; VStr "failed"; VNum 5; VNull; VStr "503 Service Unavailable"; VNull]]
  /\ (field "text" <$> tweets (put_api_tweets Scenario.cfgLive "7" (BStr "  hello again ")
                                 BUndefined Scenario.T0 st).2)
     = [VStr "hello again"].
Proof. vm_compute. repeat split; reflexivity. Qed.

(** * Further properties of server.js *)

Import Tick.

(** ** updateTweet, as a whole *)

Lemma updateTweet_unfold id updates stamp st :
  updateTweet id updates stamp st
  = if accepted updates
    then (true,
          set_tweets
            (map (fun row => if id_matches id row then written updates stamp row else row)
                 (tweets st)) st)
    else (false, st).
Proof. reflexivity. Qed.

Lemma written_lookup_other updates stamp (row : Row) (c : string) :
  c ∉ updates.*1 -> c <> "updatedAt" -> written updates stamp row !! c = row !! c.
Proof.
  intros Hc Hu. unfold written. rewrite lookup_insert_ne by congruence.
  apply assign_lookup_notin. unfold setFields. intros Hin. apply Hc.
  apply list_elem_of_fmap in Hin as ([k v] & -> & Hin).
  apply list_elem_of_In, filter_In in Hin as [Hin _].
  apply list_elem_of_fmap. exists (k, v). split; [reflexivity|by apply list_elem_of_In].
Qed.

Lemma written_id updates stamp (row : Row) :
  field "id" (written updates stamp row) = field "id" row.
Proof.
  unfold written, field. rewrite lookup_insert_ne by done.
  by rewrite assign_lookup_notin by apply filter_keys_not_id.
Qed.

(** Of the keys the callers use, all are columns of the table but
    [nextRetryAt], and none is [id]. *)
Lemma caller_key_column (k : string) :
  k ∈ caller_keys -> k <> "id" /\ (k ∈ tweets_columns <-> k <> "nextRetryAt").
Proof.
  intros Hk. apply list_elem_of_In in Hk. simpl in Hk.
  repeat (destruct Hk as [<-|Hk];
          [split; [discriminate|]; split; intros H; try discriminate;
           first [by apply (bool_decide_unpack _)
                 |exfalso; revert H; by apply (bool_decide_unpack _)
                 |by destruct H]|]).
  destruct Hk.
Qed.

Lemma setFields_caller (updates : Updates) :
  Forall (fun kv => kv.1 ∈ caller_keys) updates -> setFields updates = updates.
Proof.
  unfold setFields. induction 1 as [|[k v] rest Hk _ IH]; simpl; [reflexivity|].
  destruct (caller_key_column k Hk) as [Hid _].
  apply String.eqb_neq in Hid. simpl. by rewrite Hid, IH.
Qed.

Lemma accepted_caller (updates : Updates) :
  updates <> [] -> Forall (fun kv => kv.1 ∈ caller_keys) updates ->
  accepted updates = negb (bool_decide ("nextRetryAt" ∈ updates.*1)).
Proof.
  intros Hne Hkeys. unfold accepted. rewrite setFields_caller by exact Hkeys.
  rewrite (bool_decide_eq_false_2 _ Hne), andb_true_r. clear Hne.
  induction Hkeys as [|[k v] rest Hk _ IH]; [reflexivity|].
  cbn [forallb fmap list_fmap fst]. rewrite IH.
  destruct (caller_key_column k Hk) as [_ Hcol]. simpl in *.
  destruct (decide (k = "nextRetryAt")) as [->|Hother].
  - rewrite (bool_decide_eq_false_2 ("nextRetryAt" ∈ tweets_columns))
      by (rewrite Hcol; tauto).
    rewrite (bool_decide_eq_true_2 ("nextRetryAt" ∈ "nextRetryAt" :: rest.*1)) by left.
    reflexivity.
  - rewrite (bool_decide_eq_true_2 (k ∈ tweets_columns)) by (by apply Hcol).
    simpl. f_equal. apply bool_decide_ext. rewrite elem_of_cons. split; [tauto|].
    intros [Heq|Hin]; [congruence|exact Hin].
Qed.

(** X1. [updateTweet] is all or nothing, on the update objects that
    [server.js] hands to it (at least one key, each of them one that
    [runScheduler] or the [PUT] handler assigns).  When [nextRetryAt] is
    among the keys the call answers [false] and the whole state is as
    before: the other keys, [attempts] among them, are not written
    either.  Otherwise it answers [true], the table keeps its length, and
    each row keeps its [id] and every column that [updates] does not name
    ([updatedAt] apart); rows with another id are untouched. *)
Theorem updateTweet_all_or_nothing id updates stamp st :
  updates <> [] ->
  Forall (fun kv => kv.1 ∈ caller_keys) updates ->
  let r := updateTweet id updates stamp st in
  if bool_decide ("nextRetryAt" ∈ updates.*1)
  then r = (false, st)
  else r.1 = true
       /\ length (tweets r.2) = length (tweets st)
       /\ forall (k : nat) row, tweets st !! k = Some row ->
            exists row', tweets r.2 !! k = Some row'
              /\ field "id" row' = field "id" row
              /\ (id_matches id row = false -> row' = row)
              /\ (forall c, c ∉ updates.*1 -> c <> "updatedAt" ->
                    field c row' = field c row).
Proof.
  intros Hne Hkeys r. subst r. rewrite updateTweet_unfold.
  rewrite (accepted_caller updates Hne Hkeys).
  destruct (bool_decide ("nextRetryAt" ∈ updates.*1)); simpl; [reflexivity|].
  split; [reflexivity|]. split; [apply length_map|].
  intros k row Hk. change (map ?f ?l) with (f <$> l). rewrite list_lookup_fmap, Hk. simpl.
  eexists. split; [reflexivity|].
  destruct (id_matches id row); [|by repeat split].
  split; [apply written_id|]. split; [discriminate|].
  intros c Hc Hu. unfold field. by rewrite written_lookup_other.
Qed.

(** ** One row through a tick *)

Lemma unique_ids_no_match d rest row :
  unique_ids (d :: rest) -> row ∈ rest -> id_matches (field "id" d) row = false.
Proof.
  intros Hu Hin. apply id_matches_false_iff.
  destruct (decide (field "id" d = VNull)) as [|Hnn]; [by left|right].
  intros Heq. by apply (unique_ids_head d rest row Hu Hin).
Qed.

Lemma unique_ids_no_match_rev row rest d :
  unique_ids (row :: rest) -> d ∈ rest -> id_matches (field "id" d) row = false.
Proof.
  intros Hu Hin. apply id_matches_false_iff.
  destruct (decide (field "id" d = VNull)) as [|Hnn]; [by left|right].
  intros Heq. apply (unique_ids_head row rest d Hu Hin); congruence.
Qed.

Lemma id_matches_self row : field "id" row <> VNull -> id_matches (field "id" row) row = true.
Proof. intros H. unfold id_matches. by rewrite !bool_decide_eq_true_2. Qed.

Lemma id_matches_written id updates stamp row :
  id_matches id (written updates stamp row) = id_matches id row.
Proof. unfold id_matches. by rewrite written_id. Qed.

(** A row stays as it is through the loop when no due tweet with its id
    gets an update that SQLite accepts. *)
Lemma schedulerLoop_untouched cfg now env due :
  forall i st (k : nat) row,
    tweets st !! k = Some row ->
    (forall d res u, (d, res) ∈ results (schedulerLoop cfg now env i due st) ->
       schedulerUpdates now d res = Some u -> accepted u = true ->
       id_matches (field "id" d) row = false) ->
    tweets (final (schedulerLoop cfg now env i due st)) !! k = Some row.
Proof.
  induction due as [|tweet rest IH]; intros i st k row Hk Hother; simpl in *; [exact Hk|].
  pose proof (postTweet_tweets cfg (env i) tweet st) as Ht.
  destruct (postTweet cfg (env i) tweet st) as [st1 result]. simpl in Ht.
  destruct (schedulerUpdates now tweet result) as [updates|] eqn:Hu; simpl in *.
  - apply IH.
    + rewrite updateTweet_unfold. destruct (accepted updates) eqn:Ha; simpl; [|by rewrite Ht].
      change (map ?f ?l) with (f <$> l). rewrite list_lookup_fmap, Ht, Hk. simpl.
      by rewrite (Hother tweet result updates (ltac:(left)) Hu Ha).
    + intros d res u Hin. apply Hother. by right.
  - by rewrite Ht.
Qed.

Lemma results_in_due cfg now env due i st d res :
  (d, res) ∈ results (schedulerLoop cfg now env i due st) -> d ∈ due.
Proof.
  intros [p Hp]%list_elem_of_lookup.
  eapply list_elem_of_lookup_2, results_lookup_due, Hp.
Qed.

(** A due tweet with an id, once its update is accepted, holds what the
    update wrote until the end of the tick. *)
Lemma schedulerLoop_written cfg now env due :
  forall i st (k p : nat) row res u,
    unique_ids due ->
    tweets st !! k = Some row ->
    field "id" row <> VNull ->
    results (schedulerLoop cfg now env i due st) !! p = Some (row, res) ->
    schedulerUpdates now row res = Some u ->
    accepted u = true ->
    tweets (final (schedulerLoop cfg now env i due st)) !! k
    = Some (written u (stamp (env (i + p)%nat)) row).
Proof.
  induction due as [|tweet rest IH]; intros i st k p row res u Hu Hk Hnn Hp Hupd Hacc;
    simpl in *; [by rewrite lookup_nil in Hp|].
  pose proof (postTweet_tweets cfg (env i) tweet st) as Ht.
  destruct (postTweet cfg (env i) tweet st) as [st1 result]. simpl in Ht.
  destruct (schedulerUpdates now tweet result) as [updates|] eqn:Hu'; simpl in *.
  - destruct p as [|p]; simpl in Hp.
    + injection Hp as -> ->. rewrite Hupd in Hu'. injection Hu' as <-.
      rewrite Nat.add_0_r. apply schedulerLoop_untouched.
      * rewrite updateTweet_unfold, Hacc. simpl.
        change (map ?f ?l) with (f <$> l). rewrite list_lookup_fmap, Ht, Hk. simpl.
        by rewrite id_matches_self.
      * intros d res' u' Hin _ _. rewrite id_matches_written.
        apply (unique_ids_no_match_rev row rest d Hu).
        eapply results_in_due, Hin.
    + replace (i + S p)%nat with (S i + p)%nat by lia.
      apply (IH (S i) _ k p row res u); try done.
      * eapply unique_ids_tail, Hu.
      * rewrite updateTweet_unfold. destruct (accepted updates); simpl; [|by rewrite Ht].
        change (map ?f ?l) with (f <$> l). rewrite list_lookup_fmap, Ht, Hk. simpl.
        rewrite (unique_ids_no_match tweet rest row Hu); [done|].
        eapply list_elem_of_lookup_2, results_lookup_due, Hp.
  - destruct p as [|p]; simpl in Hp; [|by rewrite lookup_nil in Hp].
    injection Hp as -> ->. rewrite Hupd in Hu'. discriminate.
Qed.

(** A due tweet whose update is not accepted, or cannot be built, is the
    same row at the end of the tick. *)
Lemma schedulerLoop_refused cfg now env due :
  forall i st (k p : nat) row res,
    unique_ids due ->
    tweets st !! k = Some row ->
    results (schedulerLoop cfg now env i due st) !! p = Some (row, res) ->
    (forall u, schedulerUpdates now row res = Some u -> accepted u = false) ->
    tweets (final (schedulerLoop cfg now env i due st)) !! k = Some row.
Proof.
  intros i st k p row res Hu Hk Hp Hrefused. apply schedulerLoop_untouched; [exact Hk|].
  intros d res' u Hin Hupd Hacc. apply id_matches_false_iff.
  destruct (decide (field "id" d = VNull)) as [|Hnn]; [by left|right]. intros Heq.
  apply list_elem_of_lookup in Hin as [q Hq].
  pose proof (results_lookup_due _ _ _ _ _ _ _ _ _ Hp) as Hdp.
  pose proof (results_lookup_due _ _ _ _ _ _ _ _ _ Hq) as Hdq.
  assert (p = q) as -> by (apply (unique_ids_lookup _ p q row d Hu); congruence).
  rewrite Hq in Hp. injection Hp as -> ->. rewrite (Hrefused u Hupd) in Hacc. discriminate.
Qed.

(** What happens to any row of the table in a tick: nothing, or it was due
    and holds what its accepted update wrote. *)
Lemma schedulerLoop_row cfg now env due :
  forall i st (k : nat) row,
    unique_ids due ->
    tweets st !! k = Some row ->
    (forall d, d ∈ due -> id_matches (field "id" d) row = true -> d = row) ->
    tweets (final (schedulerLoop cfg now env i due st)) !! k = Some row
    \/ exists (p : nat) res u,
         results (schedulerLoop cfg now env i due st) !! p = Some (row, res)
         /\ schedulerUpdates now row res = Some u
         /\ accepted u = true
         /\ tweets (final (schedulerLoop cfg now env i due st)) !! k
            = Some (written u (stamp (env (i + p)%nat)) row).
Proof.
  induction due as [|tweet rest IH]; intros i st k row Hu Hk Hsame; [by left|].
  destruct (id_matches (field "id" tweet) row) eqn:Hm.
  - assert (tweet = row) as -> by (apply Hsame; [left|exact Hm]).
    assert (field "id" row <> VNull) as Hnn.
    { unfold id_matches in Hm. apply andb_prop in Hm as [Hm _].
      by apply bool_decide_eq_true in Hm. }
    destruct (postTweet cfg (env i) row st) as [st1 result] eqn:Hpost.
    destruct (schedulerUpdates now row result) as [u|] eqn:Hupd;
      [destruct (accepted u) eqn:Hacc|].
    + right. exists 0%nat, result, u.
      assert (results (schedulerLoop cfg now env i (row :: rest) st) !! 0%nat
              = Some (row, result)) as Hp by (simpl; rewrite Hpost, Hupd; reflexivity).
      repeat split; try done.
      by apply (schedulerLoop_written cfg now env (row :: rest) i st k 0 row result u).
    + left. apply (schedulerLoop_refused cfg now env (row :: rest) i st k 0 row result);
        try done.
      * simpl. by rewrite Hpost, Hupd.
      * intros u' Hu'. rewrite Hupd in Hu'. by injection Hu' as <-.
    + left. apply (schedulerLoop_refused cfg now env (row :: rest) i st k 0 row result);
        try done.
      * simpl. by rewrite Hpost, Hupd.
      * intros u' Hu'. rewrite Hupd in Hu'. discriminate.
  - simpl. pose proof (postTweet_tweets cfg (env i) tweet st) as Ht.
    destruct (postTweet cfg (env i) tweet st) as [st1 result]. simpl in Ht.
    destruct (schedulerUpdates now tweet result) as [updates|] eqn:Hupd; simpl;
      [|left; by rewrite Ht].
    destruct (IH (S i) (updateTweet (field "id" tweet) updates (stamp (env i)) st1).2 k row)
      as [Hsame'|(p & res & u & Hp & Hu' & Hacc & Hfin)].
    + eapply unique_ids_tail, Hu.
    + rewrite updateTweet_unfold. destruct (accepted updates); simpl; [|by rewrite Ht].
      change (map ?f ?l) with (f <$> l). rewrite list_lookup_fmap, Ht, Hk. simpl.
      by rewrite Hm.
    + intros d Hd. apply Hsame. by right.
    + by left.
    + right. exists (S p), res, u. repeat split; try done.
      by replace (i + S p)%nat with (S i + p)%nat by lia.
Qed.

Lemma due_same cfg now st (k : nat) row :
  primary_key st -> tweets st !! k = Some row ->
  forall d, d ∈ dueTweets cfg now st -> id_matches (field "id" d) row = true -> d = row.
Proof.
  intros Hpk Hk d Hd Hm. apply dueTweets_elem in Hd as [Hd _].
  apply list_elem_of_lookup in Hd as [j Hj].
  unfold id_matches in Hm. apply andb_prop in Hm as [Hnn Heq].
  apply bool_decide_eq_true in Hnn, Heq.
  assert (j = k) as -> by (apply (unique_ids_lookup _ j k d row Hpk); congruence).
  congruence.
Qed.

(** Reading the columns of a written row. *)
Ltac read_written :=
  unfold written, setFields, assign, field; simpl; simplify_map_eq; try done.

(** X2. A due tweet (with an id, ids being unique) that [postTweet] answers
    with success, simulated success or duplicate is, after the tick, posted:
    status posted, attempts one higher, [postedAt] the instant of the
    tick; [tweetId] is the id the API returned for a real post and is left
    as stored otherwise.  The stored [error] is not cleared, and no other
    column changes. *)
Theorem resolved_tweet_is_posted cfg now env st (k : nat) tweet res :
  primary_key st ->
  tweets st !! k = Some tweet ->
  field "id" tweet <> VNull ->
  (tweet, res) ∈ results (runScheduler cfg now env st) ->
  res = DryRunOk \/ res = Duplicate \/ (exists id, res = Posted id) ->
  exists row,
    tweets (final (runScheduler cfg now env st)) !! k = Some row
    /\ field "status" row = VStr "posted"
    /\ field "attempts" row = VNum (attempts_of tweet + 1)
    /\ field "postedAt" row = VDate now
    /\ field "tweetId" row
       = match res with Posted id => VStr id | _ => field "tweetId" tweet end
    /\ field "error" row = field "error" tweet
    /\ (forall c, c ∉ scheduler_columns -> field c row = field c tweet).
Proof.
  intros Hpk Hk Hnn Hin Hres.
  apply list_elem_of_lookup in Hin as [p Hp].
  assert (exists u, schedulerUpdates now tweet res = Some u /\ accepted u = true
                    /\ (forall c, c ∉ scheduler_columns -> c ∉ u.*1)) as (u & Hu & Hacc & Hcols).
  { destruct Hres as [->|[->|[id ->]]]; eexists; (split; [reflexivity|]);
      (split; [reflexivity|]); intros c Hc Hin; apply Hc;
      apply list_elem_of_In in Hin; apply list_elem_of_In; simpl in *; tauto. }
  pose proof (schedulerLoop_written cfg now env _ 0 st k p tweet res u
                (dueTweets_unique_ids cfg now st Hpk) Hk Hnn Hp Hu Hacc) as Hfin.
  eexists. split; [exact Hfin|].
  assert (forall c, c ∉ scheduler_columns ->
            field c (written u (stamp (env (0 + p)%nat)) tweet) = field c tweet) as Hframe.
  { intros c Hc. unfold field. rewrite written_lookup_other; [done|by apply Hcols|].
    intros ->. apply Hc. apply list_elem_of_In. simpl. tauto. }
  destruct Hres as [->|[->|[id ->]]]; injection Hu as <-;
    repeat split; try exact Hframe; read_written.
Qed.

(** X3. A due tweet (with an id, ids being unique) whose dispatch fails when
    it already has four attempts or more is, after the tick, failed: status
    failed, [error] the message of the failure, [failedAt] the instant of
    the tick, attempts one higher; no other column changes. *)
Theorem failure_after_four_attempts_is_final cfg now env st (k : nat) tweet message :
  primary_key st ->
  tweets st !! k = Some tweet ->
  field "id" tweet <> VNull ->
  (tweet, Failure message) ∈ results (runScheduler cfg now env st) ->
  4 <= attempts_of tweet ->
  exists row,
    tweets (final (runScheduler cfg now env st)) !! k = Some row
    /\ field "status" row = VStr "failed"
    /\ field "error" row = VStr message
    /\ field "failedAt" row = VDate now
    /\ field "attempts" row = VNum (attempts_of tweet + 1)
    /\ (forall c, c ∉ scheduler_columns -> field c row = field c tweet).
Proof.
  intros Hpk Hk Hnn Hin Hfour.
  apply list_elem_of_lookup in Hin as [p Hp].
  assert (schedulerUpdates now tweet (Failure message)
          = Some [("attempts", VNum (attempts_of tweet + 1)); ("status", VStr "failed");
                  ("error", VStr message); ("failedAt", VDate now)]) as Hu.
  { simpl. by rewrite (proj2 (Z.leb_le _ _) Hfour). }
  pose proof (schedulerLoop_written cfg now env _ 0 st k p tweet _ _
                (dueTweets_unique_ids cfg now st Hpk) Hk Hnn Hp Hu eq_refl) as Hfin.
  eexists. split; [exact Hfin|]. repeat split; [read_written..|].
  intros c Hc. unfold field. rewrite written_lookup_other; [done| |].
  - intros Hin. apply Hc. apply list_elem_of_In in Hin. apply list_elem_of_In.
    simpl in *. tauto.
  - intros ->. apply Hc. apply list_elem_of_In. simpl. tauto.
Qed.

(** ** The give-up branch *)

Lemma accepted_update_posts now d res u stamp (row : Row) :
  attempts_of d < 4 ->
  schedulerUpdates now d res = Some u -> accepted u = true ->
  field "status" (written u stamp row) = VStr "posted".
Proof.
  intros Hlt Hu Hacc. destruct res as [|[ms|]| |id|message|]; simpl in Hu;
    try discriminate Hu.
  - injection Hu as <-. read_written.
  - injection Hu as <-. discriminate Hacc.
  - injection Hu as <-. read_written.
  - injection Hu as <-. read_written.
  - rewrite (proj2 (Z.leb_gt _ _) Hlt) in Hu. injection Hu as <-. discriminate Hacc.
Qed.

Lemma retriable_posted (row : Row) : field "status" row = VStr "posted" -> retriable row.
Proof. intros H. split; rewrite H; discriminate. Qed.

Lemma schedulerLoop_retriable cfg now env due :
  forall i st,
    Forall (fun d => attempts_of d < 4) due ->
    Forall retriable (tweets st) ->
    Forall retriable (tweets (final (schedulerLoop cfg now env i due st))).
Proof.
  induction due as [|d rest IH]; intros i st Hdue Hst; simpl; [exact Hst|].
  apply Forall_cons in Hdue as [Hd Hrest].
  pose proof (postTweet_tweets cfg (env i) d st) as Ht.
  destruct (postTweet cfg (env i) d st) as [st1 result]. simpl in Ht.
  destruct (schedulerUpdates now d result) as [u|] eqn:Hu; simpl; [|by rewrite Ht].
  apply IH; [exact Hrest|]. rewrite updateTweet_unfold.
  destruct (accepted u) eqn:Hacc; simpl; [|by rewrite Ht].
  rewrite Ht. change (map ?f ?l) with (f <$> l). apply Forall_fmap.
  eapply Forall_impl; [exact Hst|]. intros row Hrow. simpl.
  destruct (id_matches (field "id" d) row); [|exact Hrow].
  eapply retriable_posted, accepted_update_posts; eauto.
Qed.

Lemma dueTweets_retriable cfg now st :
  Forall retriable (tweets st) ->
  Forall (fun d => attempts_of d < 4) (dueTweets cfg now st).
Proof.
  intros Hst. apply Forall_forall. intros d Hd.
  apply dueTweets_elem in Hd as [Hin Hdue].
  apply isDue_spec in Hdue as [Hp _].
  rewrite Forall_forall in Hst. by apply (Hst d Hin).
Qed.

Lemma retriable_put cfg text dateTime updates stamp (row : Row) :
  putUpdates cfg text dateTime = Returns updates ->
  retriable row -> retriable (written updates stamp row).
Proof.
  intros Hu [Hf Hp]. apply putUpdates_returns in Hu as [-> _].
  assert (forall u : Updates, "status" ∉ u.*1 -> "attempts" ∉ u.*1 ->
            retriable (written u stamp row)) as Hkeep.
  { intros u Hs Ha. unfold retriable, attempts_of, field.
    by rewrite !written_lookup_other. }
  assert (forall u : Updates,
            retriable (written (u ++ [("status", VStr "pending"); ("attempts", VNum 0)])
                         stamp row)) as Hreset.
  { intros u. unfold retriable, attempts_of, field, written, setFields, assign.
    rewrite List.filter_app, foldl_app. simpl. simplify_map_eq. split; [done|lia]. }
  destruct text; destruct (scheduledDate cfg dateTime) as [t|]; simpl;
    try (apply Hkeep; simpl; intros Hin; apply list_elem_of_In in Hin; simpl in Hin;
         intuition discriminate);
    first [apply (Hreset [("runAt", VDate t)])
          |apply (Hreset [("text", VStr (String_trim cfg s)); ("runAt", VDate t)])].
Qed.

Lemma step_retriable cfg s st :
  Forall retriable (tweets st) -> Forall retriable (tweets (step cfg s st).1).
Proof.
  intros Hst. destruct s as [now env|uuid text dateTime stamp|id text dateTime stamp|id]; simpl.
  - apply schedulerLoop_retriable; [by apply dueTweets_retriable|exact Hst].
  - unfold post_api_tweets.
    destruct (falsy text || falsy dateTime); [exact Hst|].
    destruct (parseScheduledDate_body cfg dateTime) as [[d|]|]; [|exact Hst..].
    destruct (trim cfg text) as [trimmed|]; [|exact Hst]. simpl.
    apply Forall_app. split.
    + apply Forall_forall. intros row Hrow. rewrite Forall_forall in Hst.
      apply Hst. apply list_elem_of_In, filter_In in Hrow as [Hrow _].
      by apply list_elem_of_In.
    + apply Forall_singleton. split; [done|]. intros _. reflexivity.
  - destruct (put_api_tweets_state cfg id text dateTime stamp st)
      as [->|(updates & Hu & ->)]; [exact Hst|].
    rewrite updateTweet_unfold. destruct (accepted _); simpl; [|exact Hst].
    change (map ?f ?l) with (f <$> l). apply Forall_fmap.
    eapply Forall_impl; [exact Hst|]. intros row Hrow. simpl.
    destruct (id_matches _ row); [|exact Hrow]. by apply (retriable_put cfg text dateTime).
  - apply Forall_forall. intros row Hrow. rewrite Forall_forall in Hst.
    apply Hst. apply list_elem_of_In, filter_In in Hrow as [Hrow _].
    by apply list_elem_of_In.
Qed.

(** X4. The scheduler's give-up branch cannot be reached from a fresh
    table.  If no row is failed and no pending row has four attempts or
    more on record (an empty table, or one filled through the API), the
    same holds after any sequence of ticks and API calls, whatever the
    client answers: no row is ever marked failed.  A failed dispatch below
    four attempts leaves nothing in the table, so the count does not
    grow. *)
Theorem scheduler_never_gives_up cfg steps st :
  (forall row, row ∈ tweets st -> retriable row) ->
  forall row, row ∈ tweets (run cfg steps st).1 -> retriable row.
Proof.
  intros Hst. apply Forall_forall. apply Forall_forall in Hst.
  revert st Hst. induction steps as [|s rest IH]; intros st Hst; simpl; [exact Hst|].
  pose proof (step_retriable cfg s st Hst) as H1.
  destruct (step cfg s st) as [st1 log1]. specialize (IH st1 H1).
  by destruct (run cfg rest st1) as [st2 log2].
Qed.

(** ** What a tick can do to a row *)

(** X5. A tick changes a row in one of two ways only (ids being unique).
    Each row of the table is, after the tick, the row it was, or it was
    pending and due at the instant of the tick and is now posted, or failed
    having had four attempts or more; in both cases attempts is one
    higher, [updatedAt] is the instant its update was written, and its
    id, text, [runAt] and [createdAt] are as before.  No tick puts a row
    back to pending or lowers its attempts. *)
Theorem tick_transitions cfg now env st (k : nat) row :
  primary_key st ->
  tweets st !! k = Some row ->
  exists row',
    tweets (final (runScheduler cfg now env st)) !! k = Some row'
    /\ (row' = row
        \/ (isDue cfg now row = true
            /\ (field "status" row' = VStr "posted"
                \/ (field "status" row' = VStr "failed" /\ 4 <= attempts_of row))
            /\ field "attempts" row' = VNum (attempts_of row + 1)
            /\ (exists p : nat, field "updatedAt" row' = VDate (stamp (env p)))
            /\ (forall c, c ∉ scheduler_columns -> field c row' = field c row))).
Proof.
  intros Hpk Hk.
  destruct (schedulerLoop_row cfg now env (dueTweets cfg now st) 0 st k row
              (dueTweets_unique_ids cfg now st Hpk) Hk (due_same cfg now st k row Hpk Hk))
    as [Hsame|(p & res & u & Hp & Hu & Hacc & Hfin)].
  { exists row. split; [exact Hsame|by left]. }
  eexists. split; [exact Hfin|right].
  assert (isDue cfg now row = true) as Hdue.
  { apply results_lookup_due in Hp. apply list_elem_of_lookup_2 in Hp.
    by apply dueTweets_elem in Hp as [_ Hp]. }
  split; [exact Hdue|].
  assert (forall c, c ∉ scheduler_columns -> c ∉ u.*1) as Hcols.
  { intros c Hc Hin. apply Hc. apply list_elem_of_In in Hin. apply list_elem_of_In.
    destruct res as [|[ms|]| |id|message|]; simpl in Hu; try discriminate Hu;
      try (injection Hu as <-; first [discriminate Hacc|simpl in *; tauto]).
    destruct (4 <=? attempts_of row); injection Hu as <-;
      [simpl in *; tauto|discriminate Hacc]. }
  assert (forall c, c ∉ scheduler_columns ->
            field c (written u (stamp (env (0 + p)%nat)) row) = field c row) as Hframe.
  { intros c Hc. unfold field. rewrite written_lookup_other; [done|by apply Hcols|].
    intros ->. apply Hc. apply list_elem_of_In. simpl. tauto. }
  assert (field "updatedAt" (written u (stamp (env (0 + p)%nat)) row)
          = VDate (stamp (env p))) as Hstamp.
  { unfold written, field. by simplify_map_eq. }
  destruct res as [|[ms|]| |id|message|]; simpl in Hu; try discriminate Hu.
  - injection Hu as <-. repeat split; [left|..|eauto|exact Hframe]; read_written.
  - injection Hu as <-. discriminate Hacc.
  - injection Hu as <-. repeat split; [left|..|eauto|exact Hframe]; read_written.
  - injection Hu as <-. repeat split; [left|..|eauto|exact Hframe]; read_written.
  - destruct (4 <=? attempts_of row) eqn:Hfour; injection Hu as <-; [|discriminate Hacc].
    apply Z.leb_le in Hfour.
    repeat split; [right; split; [|exact Hfour]|..|eauto|exact Hframe]; read_written.
Qed.

Lemma schedulerLoop_columns cfg now env due (c : string) :
  c ∉ scheduler_columns ->
  forall i st,
    map (field c) (tweets (final (schedulerLoop cfg now env i due st)))
    = map (field c) (tweets st).
Proof.
  intros Hc. induction due as [|d rest IH]; intros i st; simpl; [reflexivity|].
  pose proof (postTweet_tweets cfg (env i) d st) as Ht.
  destruct (postTweet cfg (env i) d st) as [st1 result]. simpl in Ht.
  destruct (schedulerUpdates now d result) as [u|] eqn:Hu; simpl; [|by rewrite Ht].
  rewrite IH, updateTweet_unfold. destruct (accepted u) eqn:Hacc; simpl; [|by rewrite Ht].
  rewrite Ht, map_map. apply map_ext. intros row.
  destruct (id_matches (field "id" d) row); [|reflexivity].
  unfold field. rewrite written_lookup_other; [done| |].
  - intros Hin. apply Hc. apply list_elem_of_In in Hin. apply list_elem_of_In.
    destruct result as [|[ms|]| |id|message|]; simpl in Hu; try discriminate Hu;
      try (injection Hu as <-; first [discriminate Hacc|simpl in *; tauto]).
    destruct (4 <=? attempts_of d); injection Hu as <-;
      [simpl in *; tauto|discriminate Hacc].
  - intros ->. apply Hc. apply list_elem_of_In. simpl. tauto.
Qed.

(** X6. A tick adds no row, removes none and keeps their order, and the
    only columns it ever writes are attempts, status, [postedAt],
    [tweetId], [error], [failedAt] and [updatedAt]: any other column, read
    down the table, is the same before and after, whether or not ids are
    unique and whatever [postTweet] answers. *)
Theorem tick_keeps_other_columns cfg now env st (c : string) :
  c ∉ scheduler_columns ->
  length (tweets (final (runScheduler cfg now env st))) = length (tweets st)
  /\ map (field c) (tweets (final (runScheduler cfg now env st)))
     = map (field c) (tweets st).
Proof.
  intros Hc. pose proof (schedulerLoop_columns cfg now env (dueTweets cfg now st) c Hc 0 st) as H.
  split; [|exact H].
  apply (f_equal length) in H. by rewrite !length_map in H.
Qed.

(** ** The order of dispatch *)

Lemma runAt_le_iso (a b : Row) x y :
  field "runAt" a = VDate x -> field "runAt" b = VDate y ->
  runAt_le a b = (runAt_of a <=? runAt_of b).
Proof. intros Ha Hb. unfold runAt_le, runAt_of. by rewrite Ha, Hb. Qed.

Lemma insert_by_runAt_ascending row rows :
  iso_dates (row :: rows) -> ascending rows -> ascending (insert_by_runAt row rows).
Proof.
  induction rows as [|x rest IH]; intros Hiso Hasc; simpl.
  { split; [|exact I]. intros y Hy. by apply not_elem_of_nil in Hy. }
  destruct (Hiso row) as (tr & Hr & _); [left|].
  destruct (Hiso x) as (tx & Hx & _); [right; left|].
  rewrite (runAt_le_iso row x tr tx Hr Hx).
  destruct Hasc as [Hhead Htail].
  destruct (runAt_of row <=? runAt_of x) eqn:Hle.
  - apply Z.leb_le in Hle. split; [|by split].
    intros y [->|Hy]%elem_of_cons; [exact Hle|]. specialize (Hhead y Hy). lia.
  - apply Z.leb_gt in Hle. split.
    + intros y Hy. rewrite insert_by_runAt_perm in Hy.
      apply elem_of_cons in Hy as [->|Hy]; [lia|by apply Hhead].
    + apply IH; [|exact Htail].
      intros y Hy. apply Hiso. apply elem_of_cons in Hy as [->|Hy]; [left|by right; right].
Qed.

Lemma order_by_runAt_perm rows : foldr insert_by_runAt [] rows ≡ₚ rows.
Proof.
  induction rows as [|x rest IH]; simpl; [done|]. by rewrite insert_by_runAt_perm, IH.
Qed.

Lemma loadTweets_ascending st : iso_dates (tweets st) -> ascending (loadTweets st).
Proof.
  unfold loadTweets. induction (tweets st) as [|x rest IH]; intros Hiso; simpl; [exact I|].
  assert (iso_dates rest) as Hrest by (intros y Hy; apply Hiso; by right).
  apply insert_by_runAt_ascending; [|by apply IH].
  intros y Hy. apply Hiso. apply elem_of_cons in Hy as [->|Hy]; [left|right].
  by rewrite order_by_runAt_perm in Hy.
Qed.

Lemma filter_ascending (f : Row -> bool) rows :
  ascending rows -> ascending (List.filter f rows).
Proof.
  induction rows as [|x rest IH]; intros Hasc; simpl; [exact I|].
  destruct Hasc as [Hhead Htail]. destruct (f x); [|by apply IH].
  split; [|by apply IH]. intros y Hy. apply Hhead.
  apply list_elem_of_In, filter_In in Hy as [Hy _]. by apply list_elem_of_In.
Qed.

Lemma results_prefix cfg now env due :
  forall i st,
    let r := schedulerLoop cfg now env i due st in
    map fst (results r) = take (length (results r)) due
    /\ (crashed r = false -> length (results r) = length due).
Proof.
  induction due as [|d rest IH]; intros i st; simpl; [done|].
  destruct (postTweet cfg (env i) d st) as [st1 result].
  destruct (schedulerUpdates now d result) as [u|]; simpl; [|done].
  destruct (IH (S i) (updateTweet (field "id" d) u (stamp (env i)) st1).2) as [Hp Hc].
  split; [by f_equal|]. intros H. by rewrite Hc.
Qed.

(** X7. The tweets a tick hands to [postTweet].  The due subset is made of
    the rows of the table that are pending with a [runAt] that parses to
    an instant not after the tick.  When every [runAt] is the ISO text of
    an instant of the years 0000 to 9999 (the texts that SQLite orders as
    the instants are), it is in ascending [runAt] order, and the loop
    dispatches a prefix of it in that order, one call per entry: all of
    it unless the loop was left by an exception. *)
Theorem due_tweets_are_dispatched_in_order cfg now env st :
  iso_dates (tweets st) ->
  let r := runScheduler cfg now env st in
  (forall d, d ∈ dueTweets cfg now st <-> d ∈ tweets st /\ isDue cfg now d = true)
  /\ ascending (dueTweets cfg now st)
  /\ map fst (results r) = take (length (results r)) (dueTweets cfg now st)
  /\ (crashed r = false -> length (results r) = length (dueTweets cfg now st)).
Proof.
  intros Hiso r. split; [|split].
  - intros d. unfold dueTweets.
    by rewrite list_elem_of_In, filter_In, <- list_elem_of_In, loadTweets_perm.
  - by apply filter_ascending, loadTweets_ascending.
  - apply results_prefix.
Qed.

(** ** The rate_limits table over a run *)

Lemma postTweet_usage_mono cfg call tweet st p d :
  getRateLimitUsage p d st <= getRateLimitUsage p d (postTweet cfg call tweet st).1.
Proof.
  destruct (passedRateCheck (postTweet cfg call tweet st).2) eqn:Hp.
  - rewrite (getRateLimitUsage_ext _ _ _ _ (postTweet_rate_limits_passed _ _ _ _ Hp)).
    unfold counted. rewrite !getRateLimitUsage_update. repeat case_decide; simplify_eq; lia.
  - rewrite (getRateLimitUsage_ext _ _ _ _ (postTweet_rate_limits_stopped _ _ _ _ Hp)). lia.
Qed.

(** X8. The counters of the rate_limits table only grow.  Over any sequence
    of ticks and API calls the stored count of every bucket of every
    period is at least what it was: no code path resets, lowers or
    removes a bucket. *)
Theorem ledger_counters_never_decrease cfg steps st (period : string) (date : BucketKey) :
  getRateLimitUsage period date st
  <= getRateLimitUsage period date (run cfg steps st).1.
Proof.
  apply (frame_run cfg (fun s => getRateLimitUsage period date st
                                 <= getRateLimitUsage period date s)).
  - intros call tweet s H. pose proof (postTweet_usage_mono cfg call tweet s period date). lia.
  - intros rows s H. exact H.
  - lia.
Qed.

(** ** What the dispatches of a run can answer *)

Section LogFrame.

Context (cfg : Config) (P : State -> Prop) (Q : PostResult -> Prop).
Hypothesis PQ_postTweet : forall call tweet st,
  P st -> P (postTweet cfg call tweet st).1 /\ Q (postTweet cfg call tweet st).2.
Hypothesis P_set_tweets : forall rows st, P st -> P (set_tweets rows st).

Lemma logframe_schedulerLoop now env due :
  forall i st, P st ->
    P (final (schedulerLoop cfg now env i due st))
    /\ Forall (fun e => Q e.2) (results (schedulerLoop cfg now env i due st)).
Proof.
  induction due as [|tweet rest IH]; intros i st H; simpl; [by split|].
  destruct (PQ_postTweet (env i) tweet st H) as [H1 H2].
  destruct (postTweet cfg (env i) tweet st) as [st1 result]. simpl in H1, H2.
  destruct (schedulerUpdates now tweet result) as [u|]; simpl.
  - assert (P (updateTweet (field "id" tweet) u (stamp (env i)) st1).2) as Hu
      by (unfold updateTweet; case_match; simpl; auto).
    destruct (IH (S i) _ Hu) as [H3 H4].
    split; [exact H3|]. by apply Forall_cons.
  - split; [exact H1|]. by apply Forall_singleton.
Qed.

Lemma logframe_step s st :
  P st -> P (step cfg s st).1 /\ Forall (fun e => Q e.2) (step cfg s st).2.
Proof.
  intros H. destruct s as [now env|uuid text dateTime stamp|id text dateTime stamp|id]; simpl.
  - by apply logframe_schedulerLoop.
  - split; [|done].
    destruct (post_api_tweets_state cfg uuid text dateTime stamp st)
      as [->|(tweet & _ & ->)]; [exact H|]. by apply P_set_tweets.
  - split; [|done].
    destruct (put_api_tweets_state cfg id text dateTime stamp st)
      as [->|(updates & _ & ->)]; [exact H|].
    unfold updateTweet. case_match; simpl; auto.
  - split; [|done]. unfold delete_api_tweets, deleteTweet. simpl. auto.
Qed.

Lemma logframe_run steps :
  forall st, P st -> P (run cfg steps st).1 /\ Forall (fun e => Q e.2) (run cfg steps st).2.
Proof.
  induction steps as [|s rest IH]; intros st H; simpl; [by split|].
  destruct (logframe_step s st H) as [H1 H2].
  destruct (step cfg s st) as [st1 log1]. simpl in H1, H2.
  destruct (IH st1 H1) as [H3 H4]. destruct (run cfg rest st1) as [st2 log2].
  simpl in *. split; [exact H3|]. by apply Forall_app.
Qed.

End LogFrame.

Lemma postTweet_dry_run cfg call tweet st :
  DRY_RUN cfg = true ->
  let r := (postTweet cfg call tweet st).2 in
  turnedAway r \/ r = DryRunOk.
Proof.
  intros Hdry r. subst r. unfold turnedAway.
  postTweet_cases; eauto; congruence.
Qed.

Lemma postTweet_dry_run_client cfg c1 c2 tweet st :
  DRY_RUN cfg = true -> clock c1 = clock c2 ->
  postTweet cfg c1 tweet st = postTweet cfg c2 tweet st.
Proof. intros Hdry Hclock. unfold postTweet. by rewrite Hdry, Hclock. Qed.

(** X9. In DRY_RUN the client is out of the picture.  What [postTweet]
    returns and the state it leaves do not depend on what the client would
    answer, and every dispatch of a run, over any sequence of ticks and API
    calls, answers duplicate, rate limit or simulated success: never a
    real post, a failure or [undefined]. *)
Theorem dry_run_never_reaches_the_client cfg :
  DRY_RUN cfg = true ->
  (forall c1 c2 tweet st, clock c1 = clock c2 ->
     postTweet cfg c1 tweet st = postTweet cfg c2 tweet st)
  /\ (forall steps st t r, (t, r) ∈ (run cfg steps st).2 -> turnedAway r \/ r = DryRunOk).
Proof.
  intros Hdry. split; [intros; by apply postTweet_dry_run_client|].
  intros steps st t r Hin.
  destruct (logframe_run cfg (fun _ => True) (fun r => turnedAway r \/ r = DryRunOk))
    with (steps := steps) (st := st) as [_ Hlog]; try done.
  - intros call tweet s _. split; [done|]. by apply postTweet_dry_run.
  - rewrite Forall_forall in Hlog. apply (Hlog (t, r) Hin).
Qed.

(** ** A limiter built with no points *)

Lemma consume_limiter_ok now l : limiter_ok l -> limiter_ok (consume now l).1.1.
Proof.
  unfold limiter_ok, consume, get. simpl.
  destruct (storage l) as [[value expiresAt]|]; [|intros _; simpl; lia].
  intros H. destruct (now <? expiresAt); simpl; lia.
Qed.

Lemma consume_exhausted now l :
  exhausted l -> exhausted (consume now l).1.1 /\ (consume now l).2 = false.
Proof.
  intros [Hp Hok]. split; [split; [exact Hp|by apply consume_limiter_ok]|].
  revert Hok. unfold limiter_ok, consume, get. simpl.
  destruct (storage l) as [[value expiresAt]|]; [|intros _; apply Z.leb_gt; simpl; lia].
  intros H. apply Z.leb_gt. destruct (now <? expiresAt); simpl; lia.
Qed.

Lemma postTweet_frozen cfg call tweet st :
  frozen st ->
  frozen (postTweet cfg call tweet st).1 /\ turnedAway (postTweet cfg call tweet st).2.
Proof.
  intros Hfrozen. unfold turnedAway, postTweet.
  case_bool_decide; [eauto|].
  destruct (TWEET_DAILY_LIMIT <=? _); [eauto|].
  destruct (TWEET_HOURLY_LIMIT <=? _); [eauto|].
  destruct (TWEET_MINUTE_LIMIT <=? _); [eauto|].
  pose proof (consume_exhausted (clock call) (dailyLimiter st)) as Hd.
  pose proof (consume_exhausted (clock call) (hourlyLimiter st)) as Hh.
  pose proof (consume_exhausted (clock call) (minuteLimiter st)) as Hm.
  destruct (consume (clock call) (dailyLimiter st)) as [[d dres] dok].
  destruct (consume (clock call) (hourlyLimiter st)) as [[h hres] hok].
  destruct (consume (clock call) (minuteLimiter st)) as [[m mres] mok].
  simpl in Hd, Hh, Hm.
  assert (frozen (set_limiters d h m st) /\ (dok = false \/ hok = false \/ mok = false))
    as [Hf Hrej].
  { unfold frozen. simpl. destruct Hfrozen as [Hx|[Hx|Hx]].
    - destruct (Hd Hx). auto.
    - destruct (Hh Hx). auto.
    - destruct (Hm Hx). auto. }
  destruct dok; simpl; [|eauto]. destruct hok; simpl; [|eauto].
  destruct mok; simpl; [|eauto]. destruct Hrej as [?|[?|?]]; discriminate.
Qed.

Lemma startServer_frozen cfg now rows ledger :
  TWEET_DAILY_LIMIT <= default 0 (ledger !! ("daily", today now))
  \/ TWEET_HOURLY_LIMIT <= default 0 (ledger !! ("hourly", currentHour cfg now))
  \/ TWEET_MINUTE_LIMIT <= default 0 (ledger !! ("minute", currentMinute cfg now)) ->
  frozen (startServer cfg now rows ledger).
Proof.
  unfold frozen, exhausted, limiter_ok, startServer, initializeRateLimiters,
    getRateLimitUsage. simpl. intros [H|[H|H]]; [left|right; left|right; right];
    (split; [lia|exact I]).
Qed.

(** X10. A process started while a current bucket is full never dispatches
    again.  [initializeRateLimiters] gives each limiter the points the
    current bucket has left, for good; when the day, hour or minute bucket
    of the start-up instant is at its limit, that limiter gets 0 points,
    and every [postTweet] of the process, at any later instant and
    whatever the buckets then hold, is turned away as duplicate or rate
    limited. *)
Theorem start_in_a_full_bucket_blocks_every_dispatch cfg now rows ledger steps :
  TWEET_DAILY_LIMIT <= default 0 (ledger !! ("daily", today now))
  \/ TWEET_HOURLY_LIMIT <= default 0 (ledger !! ("hourly", currentHour cfg now))
  \/ TWEET_MINUTE_LIMIT <= default 0 (ledger !! ("minute", currentMinute cfg now)) ->
  forall t r, (t, r) ∈ (run cfg steps (startServer cfg now rows ledger)).2 -> turnedAway r.
Proof.
  intros Hfull t r Hin.
  destruct (logframe_run cfg frozen turnedAway) with
    (steps := steps) (st := startServer cfg now rows ledger) as [_ Hlog].
  - intros call tweet s. apply postTweet_frozen.
  - intros rows' s H. exact H.
  - by apply startServer_frozen.
  - rewrite Forall_forall in Hlog. apply (Hlog (t, r) Hin).
Qed.

(** ** The API handlers *)

Lemma set_tweets_same st : set_tweets (tweets st) st = st.
Proof. by destruct st. Qed.

Lemma filter_no_match (id : Value) rows :
  (forall row, row ∈ rows -> field "id" row <> id) ->
  List.filter (fun r => negb (id_matches id r)) rows = rows.
Proof.
  induction rows as [|x rest IH]; intros H; simpl; [reflexivity|].
  assert (id_matches id x = false) as ->.
  { apply id_matches_false_iff. right. apply H. left. }
  simpl. f_equal. apply IH. intros row Hrow. apply H. by right.
Qed.

Lemma filter_match_elem (id : string) rows row :
  row ∈ List.filter (fun r => negb (id_matches (VStr id) r)) rows
  <-> row ∈ rows /\ field "id" row <> VStr id.
Proof.
  rewrite list_elem_of_In, filter_In, <- list_elem_of_In, negb_true_iff, id_matches_false_iff.
  split; intros [H1 H2]; (split; [exact H1|]); [by destruct H2|by right].
Qed.

(** X11. [POST /api/tweets].  The request is refused with 400, and nothing
    is written, when the text or the date is missing or falsy ([null],
    [false], 0, the empty text) or the date does not parse.  It is
    answered with 500, and nothing is written, when the handler throws:
    the date is a boolean, a number or an object, or, with a date that
    parses, the text is not a text.  Otherwise it answers 200 and the
    table is the old one, less any row with the new id, followed by one
    new row: pending, attempts 0, the trimmed text, [createdAt] and
    [updatedAt] the instant of the request, no [postedAt], [tweetId],
    [error] or [failedAt]; and the scheduler finds that row due at a tick
    exactly when the scheduled instant is not after the tick.  The other
    tables and the limiters are untouched. *)
Theorem post_validates_then_queues cfg uuid text dateTime stamp st :
  let r := post_api_tweets cfg uuid text dateTime stamp st in
  if falsy text || falsy dateTime then r = (400, st)
  else
    match parseScheduledDate_body cfg dateTime, text with
    | Throws, _ => r = (500, st)
    | Returns None, _ => r = (400, st)
    | Returns (Some d), BStr t =>
        r.1 = 200
        /\ exists row,
             r.2 = set_tweets
                     (List.filter (fun x => negb (id_matches (VStr uuid) x)) (tweets st)
                      ++ [row]) st
             /\ [field "id" row; field "text" row; field "runAt" row; field "status" row;
                 field "attempts" row; field "createdAt" row; field "updatedAt" row]
                = [VStr uuid; VStr (String_trim cfg t); VDate d; VStr "pending"; VNum 0;
                   VDate stamp; VDate stamp]
             /\ [field "postedAt" row; field "tweetId" row; field "error" row;
                 field "failedAt" row] = [VNull; VNull; VNull; VNull]
             /\ (forall now, isDue cfg now row = true <-> d <= now)
    | Returns (Some d), _ => r = (500, st)
    end.
Proof.
  intros r. subst r. unfold post_api_tweets.
  destruct (falsy text || falsy dateTime); [reflexivity|].
  destruct (parseScheduledDate_body cfg dateTime) as [[d|]|]; [|reflexivity..].
  destruct text; try reflexivity.
  simpl. split; [reflexivity|]. eexists. split; [reflexivity|].
  split; [reflexivity|]. split; [reflexivity|].
  intros now. rewrite isDue_spec. split.
  - intros [_ (runAt & Hparse & Hle)]. by injection Hparse as <-.
  - intros Hle. split; [reflexivity|]. exists d. by split.
Qed.

(** X12. The text is checked for emptiness before it is trimmed: a text
    that is not empty and that [trim] makes empty (white space only)
    passes the check of [POST /api/tweets], and the row is stored,
    pending, with the empty text. *)
Theorem post_accepts_blank_text cfg uuid text dateTime stamp st d :
  text <> "" -> String_trim cfg text = "" ->
  scheduledDate cfg dateTime = Some d ->
  let r := post_api_tweets cfg uuid (BStr text) dateTime stamp st in
  r.1 = 200
  /\ exists row, last (tweets r.2) = Some row
       /\ field "id" row = VStr uuid
       /\ field "text" row = VStr ""
       /\ field "status" row = VStr "pending".
Proof.
  intros Hne Hblank Hdate r. subst r. unfold post_api_tweets, scheduledDate in *.
  destruct (falsy dateTime); [discriminate|].
  destruct (parseScheduledDate_body cfg dateTime) as [[d'|]|]; try discriminate.
  destruct text as [|c text]; [congruence|]. cbn [falsy orb trim].
  cbn [saveTweet fst snd tweets set_tweets]. split; [reflexivity|].
  eexists. rewrite last_snoc.
  split; [reflexivity|]. split; [reflexivity|]. split; [|reflexivity].
  unfold field. simpl. by rewrite Hblank.
Qed.

(** X13. [PUT /api/tweets/:id] on an id that no row has is answered as on
    one that a row has: 500 when the body makes the handler throw, 400
    when it gives nothing to update, 200 otherwise (never 404), and the
    state is the one before. *)
Theorem put_unknown_id_is_a_silent_success cfg id text dateTime stamp st :
  (forall row, row ∈ tweets st -> field "id" row <> VStr id) ->
  put_api_tweets cfg id text dateTime stamp st
  = (match putUpdates cfg text dateTime with
     | Throws => 500
     | Returns updates => if bool_decide (updates = []) then 400 else 200
     end, st).
Proof.
  intros Hnone. unfold put_api_tweets.
  destruct (putUpdates cfg text dateTime) as [updates|] eqn:Hu; [|reflexivity].
  case_bool_decide as Hempty; [reflexivity|].
  rewrite updateTweet_unfold.
  assert (accepted updates = true) as ->.
  { apply putUpdates_returns in Hu as [-> Htext]. revert Hempty.
    destruct Htext as [->|[s ->]]; destruct (scheduledDate cfg dateTime); simpl; done. }
  simpl. f_equal.
  assert (map (fun row => if id_matches (VStr id) row
                          then written updates stamp row else row)
              (tweets st) = tweets st) as ->; [|apply set_tweets_same].
  rewrite <- (map_id (tweets st)) at 2. apply map_ext_in. intros row Hrow.
  assert (id_matches (VStr id) row = false) as ->; [|reflexivity].
  apply id_matches_false_iff. right. apply Hnone. by apply list_elem_of_In.
Qed.

(** X14. [DELETE /api/tweets/:id] always answers 200, also for an id that
    no row has (the 404 branch is not reached).  Afterwards the table
    holds the rows with another id, and no other; deleting again changes
    nothing, and deleting an unknown id leaves the state as it is. *)
Theorem delete_answers_200_and_removes_the_id id st :
  let r := delete_api_tweets id st in
  r.1 = 200
  /\ (forall row, row ∈ tweets r.2 <-> row ∈ tweets st /\ field "id" row <> VStr id)
  /\ delete_api_tweets id r.2 = r
  /\ ((forall row, row ∈ tweets st -> field "id" row <> VStr id) -> r.2 = st).
Proof.
  intros r. subst r. unfold delete_api_tweets, deleteTweet. simpl.
  split; [reflexivity|]. split; [apply filter_match_elem|]. split.
  - f_equal. unfold set_tweets. simpl. f_equal.
    apply filter_no_match. intros row Hrow. by apply filter_match_elem in Hrow as [_ Hrow].
  - intros Hnone. rewrite filter_no_match by exact Hnone. apply set_tweets_same.
Qed.

(** X15. Creating a tweet and deleting it again gives back the state before,
    when the new id was not in use: the row [POST] appends is the only
    one [DELETE] removes, and neither handler touches the rate_limits
    table, the idempotency cache or the limiters. *)
Theorem post_then_delete_restores_the_state cfg uuid text dateTime stamp st :
  (forall row, row ∈ tweets st -> field "id" row <> VStr uuid) ->
  (delete_api_tweets uuid (post_api_tweets cfg uuid text dateTime stamp st).2).2 = st.
Proof.
  intros Hfresh. unfold delete_api_tweets, deleteTweet. simpl.
  assert (forall rows, (forall row, row ∈ rows -> field "id" row <> VStr uuid) ->
            set_tweets (List.filter (fun r => negb (id_matches (VStr uuid) r)) rows) st
            = set_tweets rows st) as Hkeep
    by (intros rows H; by rewrite filter_no_match).
  unfold post_api_tweets.
  destruct (falsy text || falsy dateTime);
    [simpl; rewrite Hkeep by exact Hfresh; apply set_tweets_same|].
  destruct (parseScheduledDate_body cfg dateTime) as [[d|]|];
    [|simpl; rewrite Hkeep by exact Hfresh; apply set_tweets_same..].
  destruct (trim cfg text) as [trimmed|];
    [|simpl; rewrite Hkeep by exact Hfresh; apply set_tweets_same].
  simpl. rewrite List.filter_app. simpl.
  repeat match goal with
    | |- context [id_matches (field "id" ?r)] => change (field "id" r) with (VStr uuid)
    end.
  rewrite !(filter_no_match (VStr uuid) (tweets st)) by exact Hfresh.
  assert (forall row : Row, field "id" row = VStr uuid ->
            negb (id_matches (VStr uuid) row) = false) as Hnew.
  { intros row Hid. unfold id_matches. rewrite Hid.
    by rewrite !bool_decide_eq_true_2. }
  rewrite Hnew by reflexivity. rewrite app_nil_r.
  unfold set_tweets. simpl. by destruct st.
Qed.

(** ** The primary key over a run *)

Lemma unique_ids_snoc rows (row : Row) :
  unique_ids rows -> (forall x, x ∈ rows -> field "id" x <> field "id" row) ->
  unique_ids (rows ++ [row]).
Proof.
  unfold unique_ids. intros Hu Hnew. rewrite fmap_app, filter_app. simpl.
  rewrite filter_cons, filter_nil.
  case_decide; [|by rewrite app_nil_r].
  apply NoDup_app. split; [exact Hu|]. split; [|apply NoDup_singleton].
  intros v Hv Hin. apply list_elem_of_singleton in Hin as ->.
  apply list_elem_of_filter in Hv as [_ Hv].
  apply list_elem_of_fmap in Hv as (x & Hx & Hin). by apply (Hnew x Hin).
Qed.

Lemma step_primary_key cfg s st : primary_key st -> primary_key (step cfg s st).1.
Proof.
  intros Hpk. destruct s as [now env|uuid text dateTime stamp|id text dateTime stamp|id]; simpl.
  - by apply runScheduler_primary_key.
  - unfold post_api_tweets.
    destruct (falsy text || falsy dateTime); [exact Hpk|].
    destruct (parseScheduledDate_body cfg dateTime) as [[d|]|]; [|exact Hpk..].
    destruct (trim cfg text) as [trimmed|]; [|exact Hpk].
    unfold primary_key. simpl. apply unique_ids_snoc; [by apply unique_ids_filter|].
    intros x Hx. by apply filter_match_elem in Hx as [_ Hx].
  - destruct (put_api_tweets_state cfg id text dateTime stamp st)
      as [->|(updates & _ & ->)]; [exact Hpk|].
    unfold primary_key, unique_ids in *. by rewrite updateTweet_ids.
  - unfold primary_key. simpl. by apply unique_ids_filter.
Qed.

(** X16. The primary key is kept through a process lifetime: when no two
    rows share an id, the same holds after any sequence of ticks and API
    calls.  [POST] replaces a row that has the new id, the scheduler and
    [PUT] never write the [id] column, [DELETE] only removes rows. *)
Theorem primary_key_is_kept cfg steps st :
  primary_key st -> primary_key (run cfg steps st).1.
Proof.
  revert st. induction steps as [|s rest IH]; intros st Hpk; simpl; [exact Hpk|].
  pose proof (step_primary_key cfg s st Hpk) as H1.
  destruct (step cfg s st) as [st1 log1]. specialize (IH st1 H1).
  by destruct (run cfg rest st1) as [st2 log2].
Qed.

(** ** The dashboard over a tick *)

Import Dashboard.

Lemma with_status_perm status rows rows' :
  rows ≡ₚ rows' -> length (with_status status rows) = length (with_status status rows').
Proof.
  unfold with_status. induction 1 as [|x l l' _ IH|x y l|l l' l'' _ IH1 _ IH2]; simpl.
  - reflexivity.
  - destruct (bool_decide _); simpl; by rewrite IH.
  - by destruct (bool_decide _), (bool_decide _).
  - by rewrite IH1.
Qed.

(** A row through a tick, as far as its status goes. *)
Lemma runScheduler_status cfg now env st (k : nat) row :
  primary_key st ->
  tweets st !! k = Some row ->
  exists row',
    tweets (final (runScheduler cfg now env st)) !! k = Some row'
    /\ (row' = row
        \/ (field "status" row = VStr "pending"
            /\ (field "status" row' = VStr "posted"
                \/ field "status" row' = VStr "failed"))).
Proof.
  intros Hpk Hk.
  destruct (schedulerLoop_row cfg now env (dueTweets cfg now st) 0 st k row
              (dueTweets_unique_ids cfg now st Hpk) Hk (due_same cfg now st k row Hpk Hk))
    as [Hsame|(p & res & u & Hp & Hu & Hacc & Hfin)].
  { exists row. split; [exact Hsame|by left]. }
  eexists. split; [exact Hfin|right]. split.
  - apply results_lookup_due in Hp. apply list_elem_of_lookup_2 in Hp.
    apply dueTweets_elem in Hp as [_ Hp]. by apply isDue_spec in Hp as [Hp _].
  - destruct res as [|[ms|]| |id|message|]; simpl in Hu; try discriminate Hu;
      try (injection Hu as <-; first [discriminate Hacc|left; read_written]).
    destruct (4 <=? attempts_of row); injection Hu as <-;
      [right; read_written|discriminate Hacc].
Qed.

Lemma status_counts (rows rows' : list Row) :
  Forall2 (fun row row' =>
             row' = row
             \/ (field "status" row = VStr "pending"
                 /\ (field "status" row' = VStr "posted"
                     \/ field "status" row' = VStr "failed"))) rows rows' ->
  (length (with_status "pending" rows') <= length (with_status "pending" rows))%nat
  /\ (length (with_status "posted" rows) <= length (with_status "posted" rows'))%nat
  /\ (length (with_status "failed" rows) <= length (with_status "failed" rows'))%nat
  /\ (length (with_status "pending" rows') + length (with_status "posted" rows')
      + length (with_status "failed" rows')
      = length (with_status "pending" rows) + length (with_status "posted" rows)
        + length (with_status "failed" rows))%nat.
Proof.
  unfold with_status.
  induction 1 as [|row row' rows rows' Hrow _ IH]; simpl; [lia|].
  destruct Hrow as [->|[Hpending [Hdone|Hdone]]].
  - repeat destruct (bool_decide _); simpl; lia.
  - rewrite Hpending, Hdone. simpl. lia.
  - rewrite Hpending, Hdone. simpl. lia.
Qed.

(** X17. On the dashboard a tick moves the counters one way only (ids
    being unique): the total is the same, pending does not grow, posted and
    failed do not shrink, and what leaves pending arrives in posted or
    failed. *)
Theorem dashboard_counters_after_a_tick cfg now env st :
  primary_key st ->
  let before := get_api_dashboard st in
  let after := get_api_dashboard (final (runScheduler cfg now env st)) in
  total after = total before
  /\ (pending after <= pending before)%nat
  /\ (posted before <= posted after)%nat
  /\ (failed before <= failed after)%nat
  /\ (pending after + posted after + failed after
      = pending before + posted before + failed before)%nat.
Proof.
  intros Hpk before after. subst before after. unfold get_api_dashboard. simpl.
  set (st' := final (runScheduler cfg now env st)).
  assert (length (tweets st') = length (tweets st)) as Hlen.
  { pose proof (schedulerLoop_ids cfg now env (dueTweets cfg now st) 0 st) as Hids.
    apply (f_equal length) in Hids. by rewrite !length_fmap in Hids. }
  rewrite !(with_status_perm _ _ _ (loadTweets_perm st')),
    !(with_status_perm _ _ _ (loadTweets_perm st)).
  rewrite (Permutation_length (loadTweets_perm st')), (Permutation_length (loadTweets_perm st)).
  split; [exact Hlen|].
  apply status_counts. apply Forall2_same_length_lookup. split; [by symmetry|].
  intros k row row' Hrow Hrow'.
  destruct (runScheduler_status cfg now env st k row Hpk Hrow) as (row'' & Hk & Hrel).
  fold st' in Hk. rewrite Hk in Hrow'. by injection Hrow' as <-.
Qed.

Lemma dashboard_counters_after_a_tick_witness :
  let env := Scenario.answers (ResponseData "1900") Scenario.T0 in
  let before := get_api_dashboard Scenario.stMixed in
  let after :=
    get_api_dashboard (final (runScheduler Scenario.cfgLive Scenario.T0 env Scenario.stMixed)) in
  (before = {| total := 2; pending := 1; posted := 0; failed := 1 |}
   /\ after = {| total := 2; pending := 0; posted := 1; failed := 1 |})
  /\ total after = total before
  /\ (pending after <= pending before)%nat
  /\ (posted before <= posted after)%nat
  /\ (failed before <= failed after)%nat
  /\ (pending after + posted after + failed after
      = pending before + posted before + failed before)%nat.
Proof.
  intros env before after. split; [split; vm_compute; reflexivity|].
  apply (dashboard_counters_after_a_tick Scenario.cfgLive Scenario.T0 env Scenario.stMixed).
  unfold primary_key, unique_ids. apply (bool_decide_unpack _). vm_compute. exact I.
Defined.

(** ** A server without a client *)

Lemma postTweet_without_client cfg call tweet st :
  DRY_RUN cfg = false -> twitterClient cfg = false -> postedHashes st = ∅ ->
  postedHashes (postTweet cfg call tweet st).1 = ∅
  /\ noDispatch (postTweet cfg call tweet st).2.
Proof.
  intros Hdry Hclient Hempty. unfold noDispatch, postTweet. rewrite Hdry, Hclient, Hempty.
  rewrite bool_decide_eq_false_2 by apply not_elem_of_empty.
  change (negb false) with true. cbv iota.
  repeat match goal with
    | |- context [consume ?n ?l] => destruct (consume n l) as [[? ?] ?]
    | |- context [if ?b then _ else _] => destruct b
    end; simpl; eauto.
Qed.

Lemma schedulerLoop_without_client cfg now env due :
  DRY_RUN cfg = false -> twitterClient cfg = false ->
  Forall (fun d => attempts_of d < 4) due ->
  forall i st, postedHashes st = ∅ ->
    tweets (final (schedulerLoop cfg now env i due st)) = tweets st
    /\ postedHashes (final (schedulerLoop cfg now env i due st)) = ∅
    /\ Forall (fun e => noDispatch e.2) (results (schedulerLoop cfg now env i due st)).
Proof.
  intros Hdry Hclient. induction 1 as [|d rest Hd _ IH]; intros i st Hempty; simpl; [done|].
  destruct (postTweet_without_client cfg (env i) d st Hdry Hclient Hempty) as [Hhashes Hres].
  pose proof (postTweet_tweets cfg (env i) d st) as Ht.
  destruct (postTweet cfg (env i) d st) as [st1 result]. simpl in Hhashes, Hres, Ht.
  assert (forall u, schedulerUpdates now d result = Some u ->
            updateTweet (field "id" d) u (stamp (env i)) st1 = (false, st1)) as Hrefused.
  { intros u Hu. destruct Hres as [[hint ->]| ->].
    - by apply (schedulerUpdates_not_persisted now d (RateLimit hint)).
    - simpl in Hu. rewrite (proj2 (Z.leb_gt _ _) Hd) in Hu. injection Hu as <-.
      apply (updateTweet_nextRetryAt _ [_]). }
  destruct (schedulerUpdates now d result) as [u|]; simpl.
  - rewrite (Hrefused u eq_refl). simpl.
    destruct (IH (S i) st1 Hhashes) as (Htweets & Hh & Hlog).
    split; [by rewrite Htweets|]. split; [exact Hh|]. by apply Forall_cons.
  - split; [exact Ht|]. split; [exact Hhashes|]. by apply Forall_singleton.
Qed.

(** X24. A server that runs without a Twitter client (no credentials,
    [DRY_RUN] off) records nothing.  From a fresh idempotency cache and a
    table whose pending rows have fewer than four attempts, any number of
    ticks leaves the table exactly as it was, and every dispatch answers
    rate limit or the failure [Twitter client not initialized]: no tweet
    is posted, none is marked failed, and no attempt is counted. *)
Theorem without_client_nothing_is_recorded cfg l st :
  DRY_RUN cfg = false -> twitterClient cfg = false ->
  postedHashes st = ∅ ->
  (forall row, row ∈ tweets st -> field "status" row = VStr "pending" -> attempts_of row < 4) ->
  tweets (run cfg (ticks l) st).1 = tweets st
  /\ forall t r, (t, r) ∈ (run cfg (ticks l) st).2 -> noDispatch r.
Proof.
  intros Hdry Hclient Hempty Hrows.
  assert (tweets (run cfg (ticks l) st).1 = tweets st
          /\ Forall (fun e => noDispatch e.2) (run cfg (ticks l) st).2) as [Ht Hlog].
  { revert st Hempty Hrows. induction l as [|[now env] rest IH]; intros st Hempty Hrows; simpl.
    { by split. }
    destruct (schedulerLoop_without_client cfg now env (dueTweets cfg now st) Hdry Hclient)
      with (i := 0%nat) (st := st) as (Htweets & Hhashes & Hlog); [|exact Hempty|].
    { apply Forall_forall. intros d Hd. apply dueTweets_elem in Hd as [Hin Hdue].
      apply isDue_spec in Hdue as [Hp _]. by apply Hrows. }
    fold (runScheduler cfg now env st) in Htweets, Hhashes, Hlog.
    destruct (IH (final (runScheduler cfg now env st))) as [Ht' Hlog']; [exact Hhashes| |].
    { rewrite Htweets. exact Hrows. }
    fold (ticks rest). destruct (run cfg (ticks rest) _) as [st2 log2]. simpl in *.
    split; [by rewrite Ht'|]. by apply Forall_app. }
  split; [exact Ht|]. intros t r Hin. rewrite Forall_forall in Hlog. apply (Hlog (t, r) Hin).
Qed.

Lemma without_client_nothing_is_recorded_witness :
  let env := Scenario.answers (ResponseData "1900") in
  let l := [(Scenario.T0, env Scenario.T0); (Scenario.T0 + 60000, env (Scenario.T0 + 60000))] in
  map snd (run Cases.cfgNoClient (ticks l) Cases.stNoClient).2
  = [Failure "Twitter client not initialized"; Failure "Twitter client not initialized"]
  /\ tweets (run Cases.cfgNoClient (ticks l) Cases.stNoClient).1 = tweets Cases.stNoClient
  /\ forall t r, (t, r) ∈ (run Cases.cfgNoClient (ticks l) Cases.stNoClient).2 -> noDispatch r.
Proof.
  intros env l. split; [vm_compute; reflexivity|].
  apply (without_client_nothing_is_recorded Cases.cfgNoClient l Cases.stNoClient);
    try reflexivity.
  intros row Hrow. apply list_elem_of_singleton in Hrow as ->. intros _. reflexivity.
Defined.

(** ** The properties above at concrete runs *)

(** The primary key of a concrete table. *)
Ltac concrete_primary_key :=
  unfold primary_key, unique_ids; apply (bool_decide_unpack _); vm_compute; exact I.

(** A concrete row is in a concrete list. *)
Ltac concrete_member := apply (bool_decide_unpack _); vm_compute; exact I.

Lemma updateTweet_all_or_nothing_witness :
  (Cases.deferral <> [] /\ Forall (fun kv => kv.1 ∈ caller_keys) Cases.deferral)
  /\ updateTweet (VStr "1") Cases.deferral Scenario.T0 Scenario.stOne
     = (false, Scenario.stOne).
Proof.
  assert (Forall (fun kv : string * Value => kv.1 ∈ caller_keys) Cases.deferral) as Hkeys.
  { repeat (apply Forall_cons; split; [apply (bool_decide_unpack _); vm_compute; exact I|]).
    apply Forall_nil_2. }
  split; [split; [discriminate|exact Hkeys]|].
  apply (updateTweet_all_or_nothing (VStr "1") Cases.deferral Scenario.T0 Scenario.stOne);
    [discriminate|exact Hkeys].
Defined.

Lemma resolved_tweet_is_posted_witness :
  let env := Scenario.answers (ResponseData "1900") Scenario.T0 in
  let tweet := Scenario.pendingTweet "1" "hello" (Scenario.T0 - 1000) in
  summary (final (runScheduler Scenario.cfgLive Scenario.T0 env Scenario.stOne))
  = [[VStr "1"; VStr "posted"; VNum 1; VStr "1900"; VNull; VNull]]
  /\ exists row,
       tweets (final (runScheduler Scenario.cfgLive Scenario.T0 env Scenario.stOne)) !! 0%nat
       = Some row
       /\ field "status" row = VStr "posted"
       /\ field "attempts" row = VNum (attempts_of tweet + 1)
       /\ field "postedAt" row = VDate Scenario.T0
       /\ field "tweetId" row = VStr "1900"
       /\ field "error" row = field "error" tweet
       /\ (forall c, c ∉ scheduler_columns -> field c row = field c tweet).
Proof.
  intros env tweet. split; [vm_compute; reflexivity|].
  apply (resolved_tweet_is_posted Scenario.cfgLive Scenario.T0 env Scenario.stOne 0 tweet
           (Posted "1900")).
  - concrete_primary_key.
  - reflexivity.
  - discriminate.
  - concrete_member.
  - right. right. by exists "1900".
Defined.

Lemma failure_after_four_attempts_is_final_witness :
  let env := Scenario.answers (ResponseError "503") Scenario.T0 in
  summary (final (runScheduler Scenario.cfgLive Scenario.T0 env Cases.stLastChance))
  = [[VStr "9"; VStr "failed"; VNum 5; VNull; VStr "503"; VNull]]
  /\ exists row,
       tweets (final (runScheduler Scenario.cfgLive Scenario.T0 env Cases.stLastChance))
         !! 0%nat = Some row
       /\ field "status" row = VStr "failed"
       /\ field "error" row = VStr "503"
       /\ field "failedAt" row = VDate Scenario.T0
       /\ field "attempts" row = VNum (attempts_of Cases.lastChance + 1)
       /\ (forall c, c ∉ scheduler_columns -> field c row = field c Cases.lastChance).
Proof.
  intros env. split; [vm_compute; reflexivity|].
  apply (failure_after_four_attempts_is_final Scenario.cfgLive Scenario.T0 env
           Cases.stLastChance 0 Cases.lastChance "503").
  - concrete_primary_key.
  - reflexivity.
  - discriminate.
  - concrete_member.
  - vm_compute. discriminate.
Defined.

Lemma scheduler_never_gives_up_witness :
  let env := Scenario.answers (ResponseError "503") in
  let tweet := Scenario.pendingTweet "1" "hello" (Scenario.T0 - 1000) in
  let steps := ticks [(Scenario.T0, env Scenario.T0);
                      (Scenario.T0 + 60000, env (Scenario.T0 + 60000));
                      (Scenario.T0 + 120000, env (Scenario.T0 + 120000))] in
  map snd (run Scenario.cfgLive steps Scenario.stOne).2
  = [Failure "503"; Failure "503"; Failure "503"]
  /\ tweets (run Scenario.cfgLive steps Scenario.stOne).1 = [tweet]
  /\ retriable tweet.
Proof.
  intros env tweet steps. split; [vm_compute; reflexivity|]. split; [reflexivity|].
  apply (scheduler_never_gives_up Scenario.cfgLive steps Scenario.stOne).
  - intros row Hrow. apply list_elem_of_singleton in Hrow as ->.
    split; [discriminate|]. intros _. reflexivity.
  - concrete_member.
Defined.

Lemma tick_transitions_witness :
  let env := Scenario.answers (ResponseData "1900") Scenario.T0 in
  let row := Scenario.pendingTweet "1" "hello" (Scenario.T0 - 1000) in
  exists row',
    tweets (final (runScheduler Scenario.cfgLive Scenario.T0 env Scenario.stOne)) !! 0%nat
    = Some row'
    /\ (row' = row
        \/ (isDue Scenario.cfgLive Scenario.T0 row = true
            /\ (field "status" row' = VStr "posted"
                \/ (field "status" row' = VStr "failed" /\ 4 <= attempts_of row))
            /\ field "attempts" row' = VNum (attempts_of row + 1)
            /\ (exists p : nat, field "updatedAt" row' = VDate (stamp (env p)))
            /\ (forall c, c ∉ scheduler_columns -> field c row' = field c row))).
Proof.
  intros env row.
  apply (tick_transitions Scenario.cfgLive Scenario.T0 env Scenario.stOne 0 row).
  - concrete_primary_key.
  - reflexivity.
Defined.

Lemma tick_keeps_other_columns_witness :
  let env := Scenario.answers ResponseNoData Scenario.T0 in
  let r := runScheduler Scenario.cfgDry Scenario.T0 env Scenario.stFive in
  length (tweets (final r)) = length (tweets Scenario.stFive)
  /\ map (field "text") (tweets (final r)) = map (field "text") (tweets Scenario.stFive).
Proof.
  intros env r.
  apply (tick_keeps_other_columns Scenario.cfgDry Scenario.T0 env Scenario.stFive "text").
  concrete_member.
Defined.

Lemma due_tweets_are_dispatched_in_order_witness :
  let env := Scenario.answers (ResponseData "1900") Scenario.T0 in
  let r := runScheduler Scenario.cfgLive Scenario.T0 env Scenario.stTwins in
  map snd (results r) = [Posted "1900"; Duplicate]
  /\ (forall d, d ∈ dueTweets Scenario.cfgLive Scenario.T0 Scenario.stTwins
                <-> d ∈ tweets Scenario.stTwins
                    /\ isDue Scenario.cfgLive Scenario.T0 d = true)
  /\ ascending (dueTweets Scenario.cfgLive Scenario.T0 Scenario.stTwins)
  /\ map fst (results r)
     = take (length (results r)) (dueTweets Scenario.cfgLive Scenario.T0 Scenario.stTwins)
  /\ (crashed r = false
      -> length (results r)
         = length (dueTweets Scenario.cfgLive Scenario.T0 Scenario.stTwins)).
Proof.
  intros env r. split; [vm_compute; reflexivity|].
  apply (due_tweets_are_dispatched_in_order Scenario.cfgLive Scenario.T0 env Scenario.stTwins).
  intros row Hrow. change (tweets Scenario.stTwins) with Scenario.twins in Hrow.
  unfold Scenario.twins in Hrow.
  apply elem_of_cons in Hrow as [->|Hrow];
    [eexists; split; [reflexivity|unfold Scenario.T0; lia]|].
  apply list_elem_of_singleton in Hrow as ->.
  eexists; split; [reflexivity|unfold Scenario.T0; lia].
Defined.

Lemma dry_run_never_reaches_the_client_witness :
  (forall c1 c2 tweet st, clock c1 = clock c2 ->
     postTweet Scenario.cfgDry c1 tweet st = postTweet Scenario.cfgDry c2 tweet st)
  /\ (forall steps st t r, (t, r) ∈ (run Scenario.cfgDry steps st).2 ->
        turnedAway r \/ r = DryRunOk).
Proof. apply (dry_run_never_reaches_the_client Scenario.cfgDry). reflexivity. Defined.

Lemma start_in_a_full_bucket_blocks_every_dispatch_witness :
  let later := Scenario.T0 + 3600000 in
  let steps := [Tick later (Scenario.answers (ResponseData "1900") later)] in
  getRateLimitUsage "minute" (currentMinute Scenario.cfgLive later) Cases.stFrozen = 0
  /\ map snd (run Scenario.cfgLive steps Cases.stFrozen).2 = [RateLimit (Some 60000)]
  /\ turnedAway (RateLimit (Some 60000)).
Proof.
  intros later steps. split; [vm_compute; reflexivity|]. split; [vm_compute; reflexivity|].
  refine (start_in_a_full_bucket_blocks_every_dispatch Scenario.cfgLive (Scenario.T0 - 1000)
            [Scenario.pendingTweet "1" "hello" (Scenario.T0 - 1000)] Cases.fullMinute steps
            _ (Scenario.pendingTweet "1" "hello" (Scenario.T0 - 1000)) _ _).
  - right. right. vm_compute. discriminate.
  - concrete_member.
Defined.

Lemma post_accepts_blank_text_witness :
  let r := post_api_tweets Scenario.cfgLive "u1" (BStr "   ") (BStr "2025-09-08T23:02")
             Scenario.T0 Scenario.stOne in
  r.1 = 200
  /\ exists row, last (tweets r.2) = Some row
       /\ field "id" row = VStr "u1"
       /\ field "text" row = VStr ""
       /\ field "status" row = VStr "pending".
Proof.
  apply (post_accepts_blank_text Scenario.cfgLive "u1" "   " (BStr "2025-09-08T23:02")
           Scenario.T0 Scenario.stOne 1757361720000); [discriminate|reflexivity..].
Defined.

Lemma put_unknown_id_is_a_silent_success_witness :
  put_api_tweets Scenario.cfgLive "no-such-id" (BStr "edited") BUndefined Scenario.T0 Scenario.stOne
  = (200, Scenario.stOne).
Proof.
  apply (put_unknown_id_is_a_silent_success Scenario.cfgLive "no-such-id" (BStr "edited")
           BUndefined Scenario.T0 Scenario.stOne).
  intros row Hrow. apply list_elem_of_singleton in Hrow as ->. discriminate.
Defined.

Lemma delete_answers_200_and_removes_the_id_witness :
  (delete_api_tweets "no-such-id" Scenario.stOne).1 = 200
  /\ (delete_api_tweets "no-such-id" Scenario.stOne).2 = Scenario.stOne.
Proof.
  destruct (delete_answers_200_and_removes_the_id "no-such-id" Scenario.stOne)
    as (Hstatus & _ & _ & Hsame).
  split; [exact Hstatus|]. apply Hsame.
  intros row Hrow. apply list_elem_of_singleton in Hrow as ->. discriminate.
Defined.

Lemma post_then_delete_restores_the_state_witness :
  (post_api_tweets Scenario.cfgLive "u1" (BStr "hi") (BStr "2025-09-08T23:02")
     Scenario.T0 Scenario.stOne).1 = 200
  /\ (delete_api_tweets "u1"
        (post_api_tweets Scenario.cfgLive "u1" (BStr "hi") (BStr "2025-09-08T23:02")
           Scenario.T0 Scenario.stOne).2).2 = Scenario.stOne.
Proof.
  split; [reflexivity|].
  apply (post_then_delete_restores_the_state Scenario.cfgLive "u1" (BStr "hi")
           (BStr "2025-09-08T23:02") Scenario.T0 Scenario.stOne).
  intros row Hrow. apply list_elem_of_singleton in Hrow as ->. discriminate.
Defined.

Lemma primary_key_is_kept_witness :
  let steps := [ApiPost "1" (BStr "again") (BStr "2025-09-08T23:02") Scenario.T0;
                Tick Scenario.T0 (Scenario.answers (ResponseData "1900") Scenario.T0)] in
  map (field "id") (tweets (run Scenario.cfgLive steps Scenario.stOne).1) = [VStr "1"]
  /\ primary_key (run Scenario.cfgLive steps Scenario.stOne).1.
Proof.
  intros steps. split; [vm_compute; reflexivity|].
  apply (primary_key_is_kept Scenario.cfgLive steps Scenario.stOne).
  concrete_primary_key.
Defined.

(** * Properties of app.js *)

Import App.
Import AppScheduler.

(** ** postTweet and its retries *)

Lemma backoff_delay_bounds attempt :
  0 <= attempt ->
  0 <= calculateBackoffDelay attempt RATE_LIMIT_BACKOFF_BASE <= 5000 * 2 ^ attempt
  /\ 0 <= calculateBackoffDelay attempt 5000 <= 5000 * 2 ^ attempt.
Proof.
  intros H. unfold calculateBackoffDelay, RATE_LIMIT_BACKOFF_BASE.
  assert (0 < 2 ^ attempt) by (apply Z.pow_pos_nonneg; lia). lia.
Qed.

(** The call ends in [st'] with [c], without a sleep. *)
Ltac returns_at_once st' c :=
  exists st', c, (@nil Z); rewrite app_nil_r;
  repeat split; simpl; try lia; eauto;
  first [reflexivity | apply union_subseteq_r].

Lemma postTweet_fuel_bounded cfg client tweet :
  forall fuel attempt st,
    0 <= attempt <= 5 -> fuel = Z.to_nat (5 - attempt) ->
    exists st' c delays,
      postTweet_fuel fuel cfg client tweet attempt st = Some (st', c)
      /\ slept st' = slept st ++ delays
      /\ (calls st <= calls st' <= calls st + length delays + 1)%nat
      /\ (length delays <= fuel)%nat
      /\ 0 <= total delays <= 160000 - 5000 * 2 ^ attempt
      /\ postedHashes st ⊆ postedHashes st'
      /\ (postedHashes st' = postedHashes st
          \/ c = Returns DryRunOk \/ exists id, c = Returns (Posted id)).
Proof.
  assert (forall a, 0 <= a <= 5 -> 0 <= 160000 - 5000 * 2 ^ a) as Hbudget.
  { intros a Ha. assert (2 ^ a <= 2 ^ 5) by (apply Z.pow_le_mono_r; lia).
    change (2 ^ 5) with 32 in *. lia. }
  induction fuel as [|fuel IH]; intros attempt st Ha Hfuel;
    pose proof (Hbudget attempt Ha) as Hb; simpl.
  all: destruct (text_of tweet) as [text|]; [|returns_at_once st (@Throws PostResult)].
  all: case_bool_decide; [returns_at_once st (Returns Duplicate)|].
  all: destruct (DRY_RUN cfg);
    [returns_at_once (add_hash (generateContentHash cfg text) st) (Returns DryRunOk)|].
  all: destruct (client (calls st)) as [id| |message statusCode];
    [returns_at_once (add_hash (generateContentHash cfg text) (called st))
       (Returns (Posted id))
    |returns_at_once (called st) (Returns Undefined)|].
  - assert (attempt = 5) as -> by lia.
    rewrite andb_false_r.
    returns_at_once (called st) (Returns (Failure message statusCode)).
  - destruct (isRetryable statusCode && (attempt <? MAX_RETRIES)) eqn:Hretry.
    + apply andb_prop in Hretry as [_ Hlt]. apply Z.ltb_lt in Hlt. unfold MAX_RETRIES in Hlt.
      set (delay := if isRateLimit statusCode
                    then calculateBackoffDelay attempt RATE_LIMIT_BACKOFF_BASE
                    else calculateBackoffDelay attempt 5000).
      assert (0 <= delay <= 5000 * 2 ^ attempt) as Hdelay.
      { subst delay. destruct (backoff_delay_bounds attempt) as [H1 H2]; [lia|].
        by destruct (isRateLimit statusCode). }
      destruct (IH (attempt + 1) (sleep delay (called st))) as
        (st' & c & delays & Hrun & Hslept & Hcalls & Hlen & Htotal & Hsub & Hhash);
        [lia|lia|].
      exists st', c, (delay :: delays). split; [exact Hrun|].
      rewrite Z.pow_add_r in Htotal by lia. change (2 ^ 1) with 2 in Htotal.
      simpl in Hslept, Hcalls, Hsub, Hhash |- *.
      split; [by rewrite Hslept, <- app_assoc|].
      split; [lia|]. split; [lia|]. split; [lia|]. split; [exact Hsub|exact Hhash].
    + returns_at_once (called st) (Returns (Failure message statusCode)).
Qed.

(** X18. [postTweet] of app.js always returns, after at most six calls to
    the client and at most five sleeps that add up to no more than 155
    seconds: one more call than sleeps.  The idempotency cache is as it
    was unless the tweet went out, for real or simulated. *)
Theorem postTweet_retries_are_bounded cfg client tweet st :
  exists st' c delays,
    postTweet cfg client tweet 0 st = Some (st', c)
    /\ slept st' = slept st ++ delays
    /\ (length delays <= 5)%nat
    /\ total delays <= 155000
    /\ (calls st <= calls st' <= calls st + length delays + 1)%nat
    /\ (postedHashes st' = postedHashes st
        \/ c = Returns DryRunOk \/ exists id, c = Returns (Posted id)).
Proof.
  destruct (postTweet_fuel_bounded cfg client tweet (Z.to_nat (5 - 0)) 0 st)
    as (st' & c & delays & Hrun & Hslept & Hcalls & Hlen & Htotal & _ & Hhash);
    [lia|reflexivity|].
  exists st', c, delays. change (2 ^ 0) with 1 in Htotal.
  repeat split; try done; try lia.
Qed.

Lemma postTweet_fuel_server_down cfg client tweet text :
  server_down client -> DRY_RUN cfg = false -> text_of tweet = Some text ->
  forall fuel (a : nat) st,
    (a + fuel = 5)%nat ->
    generateContentHash cfg text ∉ postedHashes st ->
    exists message code,
      client (calls st + fuel)%nat = ResponseError message (Some code)
      /\ postTweet_fuel fuel cfg client tweet (Z.of_nat a) st
         = Some ({| postedHashes := postedHashes st; calls := calls st + fuel + 1;
                    slept := slept st
                             ++ map (fun k => calculateBackoffDelay (Z.of_nat k) 5000)
                                  (seq a fuel) |},
                 Returns (Failure message (Some code))).
Proof.
  intros Hdown Hlive Htext.
  induction fuel as [|fuel IH]; intros a st Hsum Hfresh; simpl; rewrite Htext, Hlive;
    rewrite bool_decide_eq_false_2 by exact Hfresh;
    destruct (Hdown (calls st)) as (message & code & Hanswer & Hcode); rewrite Hanswer.
  - exists message, code. rewrite Nat.add_0_r. split; [exact Hanswer|].
    replace (Z.of_nat a <? MAX_RETRIES) with false
      by (symmetry; apply Z.ltb_ge; unfold MAX_RETRIES; lia).
    rewrite andb_false_r, app_nil_r. unfold called. repeat f_equal. lia.
  - assert (isRetryable (Some code) = true) as ->
      by (simpl; rewrite (proj2 (Z.leb_le 500 code)) by lia; reflexivity).
    assert (isRateLimit (Some code) = false) as ->
      by (simpl; apply Z.eqb_neq; lia).
    replace (Z.of_nat a <? MAX_RETRIES) with true
      by (symmetry; apply Z.ltb_lt; unfold MAX_RETRIES; lia).
    simpl. replace (Z.of_nat a + 1) with (Z.of_nat (S a)) by lia.
    destruct (IH (S a) (sleep (calculateBackoffDelay (Z.of_nat a) 5000) (called st)))
      as (message' & code' & Hlast & Hrun); [lia|exact Hfresh|].
    exists message', code'. simpl in Hlast, Hrun.
    split; [by rewrite <- Hlast; f_equal; lia|].
    rewrite Hrun. rewrite <- app_assoc. simpl. repeat f_equal. lia.
Qed.

(** X19. While the API answers every call with a server error (500 or
    above), one [postTweet] of a tweet whose text is not in the cache
    makes exactly six calls, sleeping 5, 10, 20, 40 and 80 seconds
    between them, and returns the failure of the sixth call; the cache is
    unchanged. *)
Theorem server_down_exhausts_the_retries cfg client tweet text st :
  server_down client -> DRY_RUN cfg = false -> text_of tweet = Some text ->
  generateContentHash cfg text ∉ postedHashes st ->
  exists message code,
    client (calls st + 5)%nat = ResponseError message (Some code)
    /\ postTweet cfg client tweet 0 st
       = Some ({| postedHashes := postedHashes st; calls := calls st + 6;
                  slept := slept st ++ [5000; 10000; 20000; 40000; 80000] |},
               Returns (Failure message (Some code))).
Proof.
  intros Hdown Hlive Htext Hfresh.
  destruct (postTweet_fuel_server_down cfg client tweet text Hdown Hlive Htext 5 0 st)
    as (message & code & Hlast & Hrun); [reflexivity|exact Hfresh|].
  exists message, code. split; [exact Hlast|].
  unfold postTweet. change (Z.to_nat (MAX_RETRIES - 0)) with 5%nat.
  change 0 with (Z.of_nat 0). rewrite Hrun.
  replace (calls st + 6)%nat with (calls st + 5 + 1)%nat by lia. reflexivity.
Qed.

(** ** updateScheduleItem *)

Lemma spread_lookup_notin (updates : Updates) : forall (item : Item) (c : string),
  c ∉ updates.*1 -> spread item updates !! c = item !! c.
Proof.
  unfold spread. induction updates as [|[k v] rest IH]; intros item c Hc; simpl; [done|].
  rewrite fmap_cons, not_elem_of_cons in Hc. destruct Hc as [Hne Hc]. simpl in Hne.
  rewrite IH by exact Hc. by rewrite lookup_insert_ne.
Qed.

(** X20. [updateScheduleItem] replaces the first item whose id is the one
    asked for, and only that one: the schedule keeps its length; when no
    item has the id it is returned as it was; otherwise the first match
    becomes the item with the updates spread over it (keys that the
    updates do not name are kept) and every other item, later items with
    the same id included, stays as it is. *)
Theorem updateScheduleItem_replaces_the_first_match schedule_ itemId updates :
  length (updateScheduleItem schedule_ itemId updates) = length schedule_
  /\ ((forall item, item ∈ schedule_ -> item !! "id" <> itemId) ->
      updateScheduleItem schedule_ itemId updates = schedule_)
  /\ (forall (k : nat) item,
        schedule_ !! k = Some item -> item !! "id" = itemId ->
        (forall (j : nat) other, (j < k)%nat -> schedule_ !! j = Some other ->
                                 other !! "id" <> itemId) ->
        updateScheduleItem schedule_ itemId updates
        = <[k := spread item updates]> schedule_
        /\ forall c, c ∉ updates.*1 -> spread item updates !! c = item !! c).
Proof.
  split; [|split].
  - induction schedule_ as [|x rest IH]; simpl; [reflexivity|].
    case_bool_decide; simpl; by rewrite ?IH.
  - induction schedule_ as [|x rest IH]; intros Hnone; simpl; [reflexivity|].
    rewrite bool_decide_eq_false_2 by (apply Hnone; left).
    f_equal. apply IH. intros item Hin. apply Hnone. by right.
  - intros k item Hk Hid Hfirst. split; [|intros c; apply spread_lookup_notin].
    revert k Hk Hfirst. induction schedule_ as [|x rest IH]; intros k Hk Hfirst; simpl.
    { by rewrite lookup_nil in Hk. }
    destruct k as [|k]; simpl in Hk.
    + injection Hk as ->. by rewrite bool_decide_eq_true_2.
    + rewrite bool_decide_eq_false_2 by (apply (Hfirst 0%nat x); [lia|reflexivity]).
      simpl. f_equal. apply IH; [exact Hk|].
      intros j other Hj Hother. apply (Hfirst (S j) other); [lia|exact Hother].
Qed.

(** ** One run of the scheduler *)

Lemma unique_ids_same schedule_ (a b : Item) :
  unique_ids schedule_ -> a ∈ schedule_ -> b ∈ schedule_ -> a !! "id" = b !! "id" -> a = b.
Proof.
  unfold unique_ids. change (map ?f ?l) with (f <$> l).
  intros Hu [i Hi]%list_elem_of_lookup [j Hj]%list_elem_of_lookup Heq.
  assert (i = j) as ->; [|congruence].
  apply (NoDup_lookup _ i j (a !! "id") Hu); rewrite list_lookup_fmap.
  - by rewrite Hi.
  - by rewrite Hj, Heq.
Qed.

Lemma unique_ids_cons (d : Item) rest :
  unique_ids (d :: rest) ->
  unique_ids rest /\ forall x, x ∈ rest -> x !! "id" <> d !! "id".
Proof.
  unfold unique_ids. simpl. intros [Hd Hrest]%NoDup_cons. split; [exact Hrest|].
  intros x Hx Heq. apply Hd. rewrite <- Heq.
  change (map ?f ?l) with (f <$> l). by apply (list_elem_of_fmap_2 (fun i : Item => i !! "id")).
Qed.

Lemma updateScheduleItem_length schedule_ itemId updates :
  length (updateScheduleItem schedule_ itemId updates) = length schedule_.
Proof.
  induction schedule_ as [|x rest IH]; simpl; [reflexivity|].
  case_bool_decide; simpl; by rewrite ?IH.
Qed.

Lemma updateScheduleItem_ids schedule_ itemId updates :
  "id" ∉ updates.*1 ->
  map (fun item : Item => item !! "id") (updateScheduleItem schedule_ itemId updates)
  = map (fun item : Item => item !! "id") schedule_.
Proof.
  intros Hid. induction schedule_ as [|x rest IH]; simpl; [reflexivity|].
  case_bool_decide; simpl; [|by rewrite IH].
  by rewrite spread_lookup_notin.
Qed.

Lemma updateScheduleItem_lookup_other schedule_ itemId updates :
  forall (k : nat) item,
    schedule_ !! k = Some item -> item !! "id" <> itemId ->
    updateScheduleItem schedule_ itemId updates !! k = Some item.
Proof.
  induction schedule_ as [|x rest IH]; intros k item Hk Hne; simpl.
  { by rewrite lookup_nil in Hk. }
  destruct k as [|k]; simpl in Hk.
  - injection Hk as ->. by rewrite bool_decide_eq_false_2.
  - case_bool_decide; simpl; [exact Hk|]. by apply IH.
Qed.

Lemma updateScheduleItem_lookup_match schedule_ itemId updates :
  forall (k : nat) item,
    unique_ids schedule_ ->
    schedule_ !! k = Some item -> item !! "id" = itemId ->
    updateScheduleItem schedule_ itemId updates !! k = Some (spread item updates).
Proof.
  induction schedule_ as [|x rest IH]; intros k item Hu Hk Hid; simpl.
  { by rewrite lookup_nil in Hk. }
  apply unique_ids_cons in Hu as [Hrest Hx].
  destruct k as [|k]; simpl in Hk.
  - injection Hk as ->. by rewrite bool_decide_eq_true_2.
  - rewrite bool_decide_eq_false_2; [simpl; by apply IH|].
    intros Heq. apply (Hx item); [eapply list_elem_of_lookup_2, Hk|congruence].
Qed.

Lemma itemUpdates_keys cfg now tweet result updates :
  itemUpdates cfg now tweet result = Returns updates ->
  ("id" ∉ updates.*1)
  /\ exists rest, updates = ("attempts", plusOne cfg (tweet !! "attempts")) :: rest
                  /\ ("attempts" ∉ rest.*1)
                  /\ ("runAt" ∉ updates.*1).
Proof.
  assert (forall rest : Updates,
            Forall (fun kv => kv.1 <> "id" /\ kv.1 <> "attempts" /\ kv.1 <> "runAt") rest ->
            ("id" ∉ (("attempts", plusOne cfg (tweet !! "attempts")) :: rest).*1)
            /\ exists rest', ("attempts", plusOne cfg (tweet !! "attempts")) :: rest
                             = ("attempts", plusOne cfg (tweet !! "attempts")) :: rest'
                  /\ ("attempts" ∉ rest'.*1)
                  /\ ("runAt" ∉ (("attempts", plusOne cfg (tweet !! "attempts")) :: rest).*1))
    as Hshape.
  { intros rest Hrest.
    assert (forall c, (forall kv : string * Json, kv ∈ rest -> kv.1 <> c) -> c ∉ rest.*1) as Hnot.
    { intros c Hc Hin. apply list_elem_of_fmap in Hin as (kv & -> & Hin). by apply (Hc kv). }
    rewrite Forall_forall in Hrest.
    split; [|exists rest; split; [reflexivity|split]].
    - rewrite fmap_cons. apply not_elem_of_cons. split; [done|].
      apply Hnot. intros kv Hkv. by destruct (Hrest kv Hkv).
    - apply Hnot. intros kv Hkv. by destruct (Hrest kv Hkv) as (_ & ? & _).
    - rewrite fmap_cons. apply not_elem_of_cons. split; [done|].
      apply Hnot. intros kv Hkv. by destruct (Hrest kv Hkv) as (_ & _ & ?). }
  destruct result as [| |id|error code|]; simpl; try discriminate.
  - intros [= <-]. apply Hshape. repeat constructor; done.
  - intros [= <-]. apply Hshape. repeat constructor; done.
  - intros [= <-]. apply Hshape. repeat constructor; done.
  - destruct (toNumber cfg (tweet !! "attempts")) as [n|]; [|discriminate].
    destruct (MAX_RETRIES - 1 <=? n); intros [= <-]; apply Hshape; repeat constructor; done.
Qed.

Lemma postTweet_total cfg client tweet st :
  exists st' c, postTweet cfg client tweet 0 st = Some (st', c).
Proof.
  destruct (postTweet_fuel_bounded cfg client tweet (Z.to_nat (5 - 0)) 0 st)
    as (st' & c & delays & Hrun & _); [lia|reflexivity|]. by exists st', c.
Qed.

Lemma schedulerLoop_total cfg client now dueTweets :
  forall schedule_ st, exists r, schedulerLoop cfg client now dueTweets schedule_ st = Some r.
Proof.
  induction dueTweets as [|d rest IH]; intros schedule_ st; simpl; [eauto|].
  destruct (postTweet_total cfg client d st) as (st1 & c & ->).
  destruct c as [result|]; [|eauto].
  destruct (itemUpdates cfg now d result) as [updates|]; [|eauto].
  destruct (IH (updateScheduleItem schedule_ (d !! "id") updates) st1) as [r ->]. eauto.
Qed.

Lemma results_in_dueTweets cfg client now dueTweets :
  forall schedule_ st r,
    schedulerLoop cfg client now dueTweets schedule_ st = Some r ->
    forall d result, (d, result) ∈ results r -> d ∈ dueTweets.
Proof.
  induction dueTweets as [|d rest IH]; intros schedule_ st r; simpl.
  { intros [= <-] d result Hin. by apply not_elem_of_nil in Hin. }
  destruct (postTweet cfg client d 0 st) as [[st1 [result|]]|]; [| |discriminate].
  - destruct (itemUpdates cfg now d result) as [updates|].
    + destruct (schedulerLoop cfg client now rest _ st1) as [r'|] eqn:Hloop; [|discriminate].
      intros [= <-] d' result'. simpl. intros [[= -> ->]|Hin]%elem_of_cons; [left|right].
      eapply IH; eauto.
    + intros [= <-] d' result'. simpl. intros [= -> ->]%list_elem_of_singleton. left.
  - intros [= <-] d' result' Hin. by apply not_elem_of_nil in Hin.
Qed.

Lemma schedulerLoop_items cfg client now dueTweets :
  forall schedule_ st r,
    schedulerLoop cfg client now dueTweets schedule_ st = Some r ->
    crashed r = false ->
    unique_ids schedule_ -> unique_ids dueTweets ->
    length (schedule r) = length schedule_
    /\ forall (k : nat) item, schedule_ !! k = Some item ->
         (schedule r !! k = Some item
          /\ forall d, d ∈ dueTweets -> d !! "id" <> item !! "id")
         \/ exists d result updates,
              d ∈ dueTweets /\ d !! "id" = item !! "id" /\ (d, result) ∈ results r
              /\ itemUpdates cfg now d result = Returns updates
              /\ schedule r !! k = Some (spread item updates).
Proof.
  induction dueTweets as [|d rest IH]; intros schedule_ st r; simpl.
  { intros [= <-] _ _ _. simpl. split; [reflexivity|]. intros k item Hk. left.
    split; [exact Hk|]. intros d Hd. by apply not_elem_of_nil in Hd. }
  destruct (postTweet cfg client d 0 st) as [[st1 [result|]]|]; [| |discriminate];
    [|by intros [= <-] [=]].
  destruct (itemUpdates cfg now d result) as [updates|] eqn:Hupd; [|by intros [= <-] [=]].
  destruct (schedulerLoop cfg client now rest _ st1) as [r'|] eqn:Hloop; [|discriminate].
  intros [= <-] Hok Hu Hdue. simpl in *.
  apply unique_ids_cons in Hdue as [Hrest Hd].
  destruct (itemUpdates_keys _ _ _ _ _ Hupd) as [Hid _].
  destruct (IH _ _ _ Hloop Hok) as [Hlen Hrows]; [|exact Hrest|].
  { unfold unique_ids. by rewrite updateScheduleItem_ids. }
  split; [by rewrite Hlen, updateScheduleItem_length|].
  intros k item Hk. destruct (decide (item !! "id" = d !! "id")) as [Heq|Hne].
  - pose proof (updateScheduleItem_lookup_match schedule_ (d !! "id") updates k item
                  Hu Hk Heq) as Hk1.
    right. exists d, result, updates.
    split; [left|]. split; [done|]. split; [left|]. split; [exact Hupd|].
    destruct (Hrows k _ Hk1) as [[Hfin _]|(d' & res' & u' & Hd' & Hid' & _)]; [exact Hfin|].
    exfalso. apply (Hd d' Hd'). by rewrite Hid', spread_lookup_notin.
  - pose proof (updateScheduleItem_lookup_other schedule_ (d !! "id") updates k item
                  Hk Hne) as Hk1.
    destruct (Hrows k _ Hk1) as [[Hfin Hnone]|(d' & res' & u' & Hd' & Hid' & Hin & Hu' & Hfin)].
    + left. split; [exact Hfin|].
      intros d0 [->|Hd0]%elem_of_cons; [congruence|by apply Hnone].
    + right. exists d', res', u'. split; [by right|]. split; [exact Hid'|].
      split; [by right|]. by split.
Qed.

Lemma dueFilter_sublist cfg now schedule_ :
  forall due, dueFilter cfg now schedule_ = Returns due -> due `sublist_of` schedule_.
Proof.
  induction schedule_ as [|x rest IH]; intros due; simpl.
  { intros [= <-]. constructor. }
  case_bool_decide.
  - destruct (parseScheduledDate cfg (x !! "runAt")) as [runAt|]; [|discriminate].
    destruct (dueFilter cfg now rest) as [due'|]; [|discriminate].
    specialize (IH due' eq_refl).
    destruct runAt as [t|]; [destruct (t <=? now)|]; intros [= <-];
      by constructor.
  - intros Hrest. apply sublist_cons. by apply IH.
Qed.

(** X21. One run of [runScheduler] of app.js over a schedule with unique
    ids always ends.  When the process exits with code 1 the file is as
    it was.  When the run returns, the file has as many items as before,
    in the same places: an item that was not dispatched is unchanged, and
    a dispatched item is the old item with the updates built from its
    result spread over it, its attempts being the old ones plus one. *)
Theorem run_updates_each_dispatched_item cfg client now items st :
  unique_ids items ->
  exists o,
    runScheduler cfg client now (Some items) st = Some o
    /\ match exit o with
       | Exit1 => file o = Some items
       | Returned =>
           exists final,
             file o = Some final /\ length final = length items
             /\ forall (k : nat) item, items !! k = Some item ->
                  (final !! k = Some item /\ item ∉ (dispatched o).*1)
                  \/ exists result updates,
                       (item, result) ∈ dispatched o
                       /\ itemUpdates cfg now item result = Returns updates
                       /\ final !! k = Some (spread item updates)
                       /\ spread item updates !! "attempts"
                          = Some (plusOne cfg (item !! "attempts"))
       end.
Proof.
  intros Hu. unfold runScheduler.
  assert (forall (k : nat) (item : Item), items !! k = Some item ->
            (items !! k = Some item /\ item ∉ (@nil (Item * PostResult)).*1)
            \/ exists result updates,
                 (item, result) ∈ (@nil (Item * PostResult))
                 /\ itemUpdates cfg now item result = Returns updates
                 /\ items !! k = Some (spread item updates)
                 /\ spread item updates !! "attempts"
                    = Some (plusOne cfg (item !! "attempts"))) as Hidle.
  { intros k item Hk. left. split; [exact Hk|]. simpl. apply not_elem_of_nil. }
  destruct (negb (DRY_RUN cfg) && negb (credentials cfg)); [by eexists|].
  destruct (dueFilter cfg now items) as [due|] eqn:Hdue; [|by eexists].
  destruct due as [|d0 due]; [eexists; split; [reflexivity|]; simpl; eauto|].
  destruct (schedulerLoop_total cfg client now (d0 :: due) items st) as [r Hloop].
  rewrite Hloop. destruct (crashed r) eqn:Hcrashed; [by eexists|].
  eexists. split; [reflexivity|]. simpl.
  pose proof (dueFilter_sublist _ _ _ _ Hdue) as Hsub.
  assert (unique_ids (d0 :: due)) as Hudue.
  { unfold unique_ids in *. eapply sublist_NoDup; [exact Hu|].
    change (map ?f ?l) with (f <$> l). by apply fmap_sublist. }
  destruct (schedulerLoop_items _ _ _ _ _ _ _ Hloop Hcrashed Hu Hudue) as [Hlen Hrows].
  exists (schedule r). split; [reflexivity|]. split; [exact Hlen|].
  intros k item Hk.
  destruct (Hrows k item Hk) as [[Hfin Hnone]|(d & result & u & Hd & Hid & Hin & Hupd & Hfin)].
  - left. split; [exact Hfin|]. intros Hin.
    apply list_elem_of_fmap in Hin as ([d result] & -> & Hin). simpl in Hnone.
    apply (Hnone d); [|reflexivity]. eapply results_in_dueTweets; eauto.
  - right. assert (d = item) as ->.
    { apply (unique_ids_same items); [exact Hu| |eapply list_elem_of_lookup_2, Hk|exact Hid].
      eapply elem_of_sublist; eauto. }
    exists result, u. repeat split; try done.
    destruct (itemUpdates_keys _ _ _ _ _ Hupd) as (_ & rest & -> & Hrest & _).
    unfold spread. simpl. fold (spread (<["attempts" := plusOne cfg (item !! "attempts")]> item) rest).
    rewrite spread_lookup_notin by exact Hrest. by rewrite lookup_insert.
Qed.

Lemma undefined_ends_the_loop cfg client now dueTweets :
  forall schedule_ st r t,
    schedulerLoop cfg client now dueTweets schedule_ st = Some r ->
    (t, Undefined) ∈ results r ->
    crashed r = true /\ last (results r) = Some (t, Undefined).
Proof.
  induction dueTweets as [|d rest IH]; intros schedule_ st r t; simpl.
  { intros [= <-] Hin. by apply not_elem_of_nil in Hin. }
  destruct (postTweet cfg client d 0 st) as [[st1 [result|]]|]; [| |discriminate].
  - destruct (itemUpdates cfg now d result) as [updates|] eqn:Hupd.
    + destruct (schedulerLoop cfg client now rest _ st1) as [r'|] eqn:Hloop; [|discriminate].
      intros [= <-]. simpl. intros [Heq|Hin]%elem_of_cons.
      * injection Heq as <- <-. discriminate Hupd.
      * destruct (IH _ _ _ _ Hloop Hin) as [Hc Hl]. split; [exact Hc|].
        destruct (results r'); [discriminate Hl|exact Hl].
    + intros [= <-]. simpl. intros Hin%list_elem_of_singleton. injection Hin as -> ->. done.
  - intros [= <-] Hin. by apply not_elem_of_nil in Hin.
Qed.

(** X22. A response without [data] ends the process and loses the run.
    When [client.v2.tweet] resolves without [data], [postTweet] returns
    [undefined]; the scheduler then throws, the process exits with code
    1, and [schedule.json] is as it was before the run: nothing is
    recorded for the tweets dispatched earlier in the same run, posted
    ones included, and no tweet after it is dispatched. *)
Theorem undefined_result_ends_the_process cfg client now file_ st o t :
  runScheduler cfg client now file_ st = Some o ->
  (t, Undefined) ∈ dispatched o ->
  exit o = Exit1 /\ file o = file_ /\ last (dispatched o) = Some (t, Undefined).
Proof.
  unfold runScheduler.
  destruct (negb (DRY_RUN cfg) && negb (credentials cfg));
    [intros [= <-] Hin; by apply not_elem_of_nil in Hin|].
  destruct file_ as [items|]; [|intros [= <-] Hin; by apply not_elem_of_nil in Hin].
  destruct (dueFilter cfg now items) as [due|];
    [|intros [= <-] Hin; by apply not_elem_of_nil in Hin].
  destruct due as [|d0 due]; [intros [= <-] Hin; by apply not_elem_of_nil in Hin|].
  destruct (schedulerLoop cfg client now (d0 :: due) items st) as [r|] eqn:Hloop;
    [|discriminate].
  intros Ho Hin.
  assert ((t, Undefined) ∈ results r) as Hin'
    by (destruct (crashed r); injection Ho as <-; exact Hin).
  destruct (undefined_ends_the_loop _ _ _ _ _ _ _ _ Hloop Hin') as [Hc Hl].
  rewrite Hc in Ho. injection Ho as <-. by simpl.
Qed.

(** X23. [nextAttemptAt] is written and never read.  An item that was due
    and whose dispatch failed with fewer than four attempts on record
    stays pending with [nextAttemptAt] set to the instant of the run plus
    the backoff delay; it is in the due subset of every later run, however
    soon that run comes. *)
Theorem next_attempt_is_not_awaited cfg now now' item error code n :
  dueFilter cfg now [item] = Returns [item] ->
  toNumber cfg (item !! "attempts") = Some n -> n < 4 ->
  now <= now' ->
  exists updates,
    itemUpdates cfg now item (Failure error code) = Returns updates
    /\ spread item updates !! "nextAttemptAt"
       = Some (JStr (toISOString cfg (now + nextAttemptDelay n)))
    /\ dueFilter cfg now' [spread item updates] = Returns [spread item updates].
Proof.
  intros Hdue Hn Hlt Hlater. simpl. rewrite Hn.
  replace (MAX_RETRIES - 1 <=? n) with false
    by (symmetry; apply Z.leb_gt; unfold MAX_RETRIES; lia).
  eexists. split; [reflexivity|].
  split; [unfold spread; simpl; by rewrite lookup_insert|].
  revert Hdue. simpl.
  case_bool_decide as Hpending; [|discriminate].
  destruct (parseScheduledDate cfg (item !! "runAt")) as [[t|]|] eqn:Hparse;
    [|discriminate..].
  destruct (t <=? now) eqn:Hle; [|discriminate]. intros _.
  apply Z.leb_le in Hle.
  unfold spread. simpl.
  rewrite bool_decide_eq_true_2
    by (by rewrite lookup_insert_ne, lookup_insert by done).
  rewrite !lookup_insert_ne by done. rewrite Hparse.
  by rewrite (proj2 (Z.leb_le t now')) by lia.
Qed.

(** ** Two items with one id *)

Lemma updateScheduleItem_lookup_shadowed schedule_ itemId updates :
  forall (i j : nat) (other item : Item),
    (i < j)%nat -> schedule_ !! i = Some other -> schedule_ !! j = Some item ->
    other !! "id" = item !! "id" ->
    updateScheduleItem schedule_ itemId updates !! j = Some item.
Proof.
  induction schedule_ as [|x rest IH]; intros i j other item Hlt Hi Hj Hid; simpl.
  { by rewrite lookup_nil in Hi. }
  destruct j as [|j]; [lia|]. simpl in Hj.
  case_bool_decide as Hx; simpl; [exact Hj|].
  destruct i as [|i]; simpl in Hi.
  - injection Hi as ->. apply updateScheduleItem_lookup_other; [exact Hj|congruence].
  - apply (IH i j other item); [lia|done..].
Qed.

Lemma schedulerLoop_shadowed cfg client now dueTweets :
  forall schedule_ st r (i j : nat) (other item : Item),
    schedulerLoop cfg client now dueTweets schedule_ st = Some r ->
    (i < j)%nat -> schedule_ !! i = Some other -> schedule_ !! j = Some item ->
    other !! "id" = item !! "id" ->
    schedule r !! j = Some item.
Proof.
  induction dueTweets as [|d rest IH]; intros schedule_ st r i j other item; simpl.
  { by intros [= <-]. }
  destruct (postTweet cfg client d 0 st) as [[st1 [result|]]|]; [| |discriminate];
    [|by intros [= <-]].
  destruct (itemUpdates cfg now d result) as [updates|] eqn:Hupd; [|by intros [= <-]].
  destruct (schedulerLoop cfg client now rest _ st1) as [r'|] eqn:Hloop; [|discriminate].
  intros [= <-] Hlt Hi Hj Hid. simpl.
  destruct (itemUpdates_keys _ _ _ _ _ Hupd) as [Hkeys _].
  pose proof (updateScheduleItem_ids schedule_ (d !! "id") updates Hkeys) as Hids.
  apply (f_equal (fun ids => ids !! i)) in Hids.
  change (map ?f ?l) with (f <$> l) in Hids. rewrite !list_lookup_fmap, Hi in Hids.
  destruct (updateScheduleItem schedule_ (d !! "id") updates !! i) as [other'|] eqn:Hi';
    [|discriminate]. simpl in Hids. injection Hids as Hids.
  apply (IH _ _ _ i j other' item Hloop Hlt Hi'); [|congruence].
  by apply (updateScheduleItem_lookup_shadowed schedule_ _ _ i j other item).
Qed.

(** X25. An item that comes after another item with the same id is never
    updated.  Whatever a run of app.js does, such an item is in
    [schedule.json] afterwards exactly as it was: when it is due it is
    dispatched, but the update lands on the first item with that id, so
    it stays pending and is dispatched again by the next run. *)
Theorem shadowed_item_is_never_updated cfg client now items st o (i j : nat) other item :
  (i < j)%nat -> items !! i = Some other -> items !! j = Some item ->
  other !! "id" = item !! "id" ->
  runScheduler cfg client now (Some items) st = Some o ->
  exists final, file o = Some final /\ final !! j = Some item.
Proof.
  intros Hlt Hi Hj Hid. unfold runScheduler.
  destruct (negb (DRY_RUN cfg) && negb (credentials cfg)); [intros [= <-]; eauto|].
  destruct (dueFilter cfg now items) as [due|]; [|intros [= <-]; eauto].
  destruct due as [|d0 due]; [intros [= <-]; eauto|].
  destruct (schedulerLoop cfg client now (d0 :: due) items st) as [r|] eqn:Hloop;
    [|discriminate].
  destruct (crashed r); intros [= <-]; simpl; [eauto|].
  exists (schedule r). split; [reflexivity|].
  by apply (schedulerLoop_shadowed _ _ _ _ _ _ _ i j other item Hloop).
Qed.

(** ** The properties of app.js at concrete runs *)

Lemma server_down_exhausts_the_retries_witness :
  exists message code,
    AppCases.down 5%nat = ResponseError message (Some code)
    /\ postTweet AppCases.cfg AppCases.down (AppCases.dueItem "1" "hello") 0 AppCases.start
       = Some ({| postedHashes := ∅; calls := 6;
                  slept := [5000; 10000; 20000; 40000; 80000] |},
               Returns (Failure message (Some code))).
Proof.
  apply (server_down_exhausts_the_retries AppCases.cfg AppCases.down
           (AppCases.dueItem "1" "hello") "hello" AppCases.start).
  - intros i. exists "503 Service Unavailable", 503. split; [reflexivity|lia].
  - reflexivity.
  - reflexivity.
  - apply not_elem_of_empty.
Defined.

Lemma updateScheduleItem_replaces_the_first_match_witness :
  let updates : Updates := [("status", JStr "posted")] in
  updateScheduleItem AppCases.doubled (Some (JStr "1")) updates
  = [spread (AppCases.dueItem "1" "a") updates; AppCases.dueItem "2" "b";
     AppCases.dueItem "1" "c"]
  /\ forall c, c ∉ updates.*1 ->
       spread (AppCases.dueItem "1" "a") updates !! c = AppCases.dueItem "1" "a" !! c.
Proof.
  intros updates.
  destruct (updateScheduleItem_replaces_the_first_match AppCases.doubled (Some (JStr "1"))
              updates) as (_ & _ & Hfirst).
  apply (Hfirst 0%nat (AppCases.dueItem "1" "a")); [reflexivity..|].
  intros j other Hj. lia.
Defined.

Lemma run_updates_each_dispatched_item_witness :
  let items := [AppCases.dueItem "1" "a"; AppCases.dueItem "2" "b"] in
  exists o,
    runScheduler AppCases.cfg AppCases.down AppCases.now (Some items) AppCases.start = Some o
    /\ match exit o with
       | Exit1 => file o = Some items
       | Returned =>
           exists final,
             file o = Some final /\ length final = length items
             /\ forall (k : nat) item, items !! k = Some item ->
                  (final !! k = Some item /\ item ∉ (dispatched o).*1)
                  \/ exists result updates,
                       (item, result) ∈ dispatched o
                       /\ itemUpdates AppCases.cfg AppCases.now item result = Returns updates
                       /\ final !! k = Some (spread item updates)
                       /\ spread item updates !! "attempts"
                          = Some (plusOne AppCases.cfg (item !! "attempts"))
       end.
Proof.
  intros items.
  apply (run_updates_each_dispatched_item AppCases.cfg AppCases.down AppCases.now items
           AppCases.start).
  unfold unique_ids. apply (bool_decide_unpack _). vm_compute. exact I.
Defined.

Lemma undefined_result_ends_the_process_witness :
  let items := [AppCases.dueItem "1" "a"; AppCases.dueItem "2" "b"] in
  exists o,
    runScheduler AppCases.cfg AppCases.noDataSecond AppCases.now (Some items) AppCases.start
    = Some o
    /\ map snd (dispatched o) = [Posted "1900"; Undefined]
    /\ exit o = Exit1 /\ file o = Some items
    /\ last (dispatched o) = Some (AppCases.dueItem "2" "b", Undefined).
Proof.
  intros items. eexists. split; [reflexivity|]. split; [reflexivity|].
  refine (undefined_result_ends_the_process AppCases.cfg AppCases.noDataSecond AppCases.now
            (Some items) AppCases.start _ (AppCases.dueItem "2" "b") _ _).
  - reflexivity.
  - simpl. right. left.
Defined.

Lemma next_attempt_is_not_awaited_witness :
  let item := AppCases.dueItem "1" "a" in
  exists updates,
    itemUpdates AppCases.cfg AppCases.now item (Failure "503" (Some 503)) = Returns updates
    /\ spread item updates !! "nextAttemptAt"
       = Some (JStr (toISOString AppCases.cfg (AppCases.now + nextAttemptDelay 0)))
    /\ dueFilter AppCases.cfg (AppCases.now + 1) [spread item updates]
       = Returns [spread item updates].
Proof.
  intros item.
  apply (next_attempt_is_not_awaited AppCases.cfg AppCases.now (AppCases.now + 1) item
           "503" (Some 503) 0); [reflexivity|reflexivity|lia|unfold AppCases.now; lia].
Defined.

Lemma shadowed_item_is_never_updated_witness :
  exists o,
    runScheduler AppCases.cfg AppCases.up AppCases.now (Some AppCases.doubled) AppCases.start
    = Some o
    /\ map snd (dispatched o) = [Posted "1900"; Posted "1900"; Posted "1900"]
    /\ exit o = Returned
    /\ exists final, file o = Some final /\ final !! 2%nat = Some (AppCases.dueItem "1" "c").
Proof.
  eexists. split; [reflexivity|]. split; [reflexivity|]. split; [reflexivity|].
  refine (shadowed_item_is_never_updated AppCases.cfg AppCases.up AppCases.now
            AppCases.doubled AppCases.start _ 0 2 (AppCases.dueItem "1" "a")
            (AppCases.dueItem "1" "c") _ _ _ _ _); [lia|reflexivity..].
Defined.
